(** * Market data client of the God's Dollar site: a shallow embedding

    The development follows [src/services/cryptoService.ts]: the format
    helpers, the in-memory [CryptoCache], image resolution
    ([getCryptoImageUrl]), the retrying request helper ([fetchWithRetry]),
    the top-assets listing ([fetchTopCoins]) and the search
    ([searchCryptocurrencies]).

    Conventions of the embedding.
    - A JavaScript [number] holding a price or a percentage is a binary64
      float ([PrimFloat.float]); millisecond timestamps, counts and HTTP
      status codes are integers of [Z] (they are integer-valued doubles far
      below 2^53 in the program, where double arithmetic is exact). The
      deadline of the rate-limit gate comes from a header of the provider
      and can be any integer that binary64 holds, or infinite: it is a
      [Binary64.integer], computed with the rounding of binary64.
    - A JavaScript string is a [string] of code units below 256; lower
      case and white space are those of these code units (the letters of
      Latin-1 included). The upper case of three of them does not fit:
      it is given as a list of code units ([JsString.toUpperCase]), and a
      string that holds a code unit of 256 or more is a [VWide] value.
    - [Date.now()] is the field [now] of the world; awaiting a reply or a
      timer advances it.
    - Every provider request and every timer is appended to a trace, so that
      "no request is issued" is a statement about that trace. *)

From Stdlib Require Import Floats ZArith NArith List Ascii String DecimalString Lia.
From stdpp Require Import base option list gmap strings relations.
From Stdlib Require DecimalZ DecimalPos.

Set Warnings "-inexact-float".
Local Open Scope string_scope.
Local Open Scope Z_scope.

(** ** Integers as binary64 has them *)

Module Binary64.

(** A number that is an integer or infinite. *)
Inductive integer :=
| Finite (z : Z)
| Infinity (negative : bool).

(** The number an integer is rounded to: itself below 2^53 in magnitude,
    else the nearest integer with 53 significant bits, the even one of two
    that are equally near, and an infinity from 2^1024 - 2^970 on. *)
Definition round (z : Z) : integer :=
  let a := Z.abs z in
  if a <? 2 ^ 53 then Finite z
  else
    let e := Z.log2 a - 52 in
    let q := a / 2 ^ e in
    let r := a mod 2 ^ e in
    let half := 2 ^ (e - 1) in
    let q' := if (half <? r) || ((r =? half) && Z.odd q) then q + 1 else q in
    if 2 ^ 1024 <=? q' * 2 ^ e then Infinity (z <? 0)
    else Finite (Z.sgn z * (q' * 2 ^ e)).

(** Zero is the one falsy value among them. *)
Definition truthy (x : integer) : bool :=
  match x with
  | Finite z => negb (z =? 0)
  | Infinity _ => true
  end.

(** [x * k] for an integer [k] above zero that binary64 holds. *)
Definition mul (x : integer) (k : Z) : integer :=
  match x with
  | Finite z => round (z * k)
  | Infinity negative => Infinity negative
  end.

(** [t + x] for a time value [t]. *)
Definition add (t : Z) (x : integer) : integer :=
  match x with
  | Finite z => round (t + z)
  | Infinity negative => Infinity negative
  end.

(** [t < x] for a time value [t]. *)
Definition ltb (t : Z) (x : integer) : bool :=
  match x with
  | Finite z => t <? z
  | Infinity negative => negb negative
  end.

End Binary64.

(** ** Strings as JavaScript has them *)

Module JsString.

Definition code (c : ascii) : nat := nat_of_ascii c.

Definition is_upper (c : ascii) : bool :=
  ((65 <=? code c) && (code c <=? 90))%nat.

Definition is_lower (c : ascii) : bool :=
  ((97 <=? code c) && (code c <=? 122))%nat.

Definition is_digit (c : ascii) : bool :=
  ((48 <=? code c) && (code c <=? 57))%nat.

(** [\w] of a regular expression: letters, digits and the underscore. *)
Definition is_word (c : ascii) : bool :=
  is_upper c || is_lower c || is_digit c || (code c =? 95)%nat.

(** White space and line terminators among the one-byte code units:
    TAB, LF, VT, FF, CR, SP and NBSP. *)
Definition is_space (c : ascii) : bool :=
  ((9 <=? code c) && (code c <=? 13) || (code c =? 32) || (code c =? 160))%nat.

(** The upper-case letters of the Latin-1 supplement: 192 to 222 but
    for 215, the multiplication sign. *)
Definition is_upper_latin1 (c : ascii) : bool :=
  ((192 <=? code c) && (code c <=? 222) && negb (code c =? 215))%nat.

(** Its lower-case letters that have their upper case 32 below: 224 to
    254 but for 247, the division sign. *)
Definition is_lower_latin1 (c : ascii) : bool :=
  ((224 <=? code c) && (code c <=? 254) && negb (code c =? 247))%nat.

Definition lower_char (c : ascii) : ascii :=
  if is_upper c || is_upper_latin1 c then ascii_of_nat (code c + 32) else c.

(** The code units of the upper case of a code unit: the sharp s (223)
    becomes SS, and the micro sign (181) and the y with diaeresis (255)
    have their upper case at 924 and 376. *)
Definition upper_units (c : ascii) : list N :=
  if is_lower c || is_lower_latin1 c then [N.of_nat (code c - 32)]
  else if (code c =? 223)%nat then [83%N; 83%N]
  else if (code c =? 181)%nat then [924%N]
  else if (code c =? 255)%nat then [376%N]
  else [N.of_nat (code c)].

(** [s.toLowerCase()] *)
Fixpoint toLowerCase (s : string) : string :=
  match s with
  | EmptyString => EmptyString
  | String c r => String (lower_char c) (toLowerCase r)
  end.

(** [s.toUpperCase()], as its code units. *)
Fixpoint toUpperCase (s : string) : list N :=
  match s with
  | EmptyString => []
  | String c r => (upper_units c ++ toUpperCase r)%list
  end.

(** The code units of a string. *)
Fixpoint units (s : string) : list N :=
  match s with
  | EmptyString => []
  | String c r => N_of_ascii c :: units r
  end.

(** The string of a list of code units that all are below 256. *)
Fixpoint narrow (l : list N) : option string :=
  match l with
  | [] => Some EmptyString
  | u :: r =>
      if (u <? 256)%N then
        match narrow r with
        | Some s => Some (String (ascii_of_N u) s)
        | None => None
        end
      else None
  end.

(** [s.charAt(0)]: the empty string when there is no such unit. *)
Definition charAt0 (s : string) : string :=
  match s with
  | EmptyString => EmptyString
  | String c _ => String c EmptyString
  end.

(** [s.replace('-', '_')] with a string pattern: the first occurrence only. *)
Fixpoint replace_first_dash (s : string) : string :=
  match s with
  | EmptyString => EmptyString
  | String c r =>
      if (code c =? 45)%nat then String "_" r else String c (replace_first_dash r)
  end.

(** [s.trim() === ''] *)
Fixpoint all_space (s : string) : bool :=
  match s with
  | EmptyString => true
  | String c r => is_space c && all_space r
  end.

(** Truthiness of a string: every string but the empty one. *)
Definition truthy (s : string) : bool :=
  match s with EmptyString => false | _ => true end.

Fixpoint drop_space (s : string) : string :=
  match s with
  | String c r => if is_space c then drop_space r else s
  | EmptyString => EmptyString
  end.

(** Value of a digit in radix 10 or 16, if it is one. *)
Definition digit_value (radix : Z) (c : ascii) : option Z :=
  let n := Z.of_nat (code c) in
  let v :=
    if is_digit c then Some (n - 48)
    else if is_lower c then Some (n - 97 + 10)
    else if is_upper c then Some (n - 65 + 10)
    else None in
  match v with
  | Some d => if d <? radix then Some d else None
  | None => None
  end.

(** The longest prefix of digits, read in the radix; [None] without one. *)
Fixpoint read_digits (radix : Z) (acc : option Z) (s : string) : option Z :=
  match s with
  | EmptyString => acc
  | String c r =>
      match digit_value radix c with
      | Some d => read_digits radix (Some (radix * default 0 acc + d)) r
      | None => acc
      end
  end.

(** [parseInt(s)] without a radix argument: leading white space is
    skipped, a sign is read, a [0x] or [0X] prefix selects radix 16, and
    the longest prefix of digits is read as an integer, which the result
    is rounded from (the language lets an implementation replace decimal
    digits after the twentieth by zeros first; the engines of the
    browsers round the integer itself). [None] is [NaN]. *)
Definition parseInt (s : string) : option Binary64.integer :=
  let s1 := drop_space s in
  let '(neg, s2) :=
    match s1 with
    | String "-" r => (true, r)
    | String "+" r => (false, r)
    | _ => (false, s1)
    end in
  let '(radix, s3) :=
    match s2 with
    | String "0" (String "x" r) => (16, r)
    | String "0" (String "X" r) => (16, r)
    | _ => (10, s2)
    end in
  match read_digits radix None s3 with
  | Some v => Some (Binary64.round (if neg then - v else v))
  | None => None
  end.

(** Decimal digits of an integer, as a template literal prints it. *)
Definition of_Z (z : Z) : string := NilZero.string_of_int (Z.to_int z).

(** Whether a character occurs in a string. *)
Fixpoint has_char (c : ascii) (s : string) : bool :=
  match s with
  | EmptyString => false
  | String c' r => Ascii.eqb c c' || has_char c r
  end.

(** [n] copies of a character. *)
Fixpoint repeat_char (c : ascii) (n : nat) : string :=
  match n with
  | O => EmptyString
  | S k => String c (repeat_char c k)
  end.

End JsString.

(** ** Numbers and their formatting *)

Module JsNumber.
Import JsString.

(** Truthiness of a number: every number but [0], [-0] and [NaN]. *)
Definition truthy (x : float) : bool :=
  match Prim2SF x with
  | S754_zero _ | S754_nan => false
  | _ => true
  end.

(** [x || 0] on an optional numeric field. *)
Definition or_zero (x : option float) : float :=
  match x with
  | Some v => if truthy v then v else 0%float
  | None => 0%float
  end.

(** The integer [n] for which [n / 10^f] is closest to [m * 2^e], the
    larger one when two are as close ([Number.prototype.toFixed], step
    "let n be an integer for which n / 10^f - x is as close to zero as
    possible; if there are two such n, pick the larger n"). *)
Definition round_scaled (m : positive) (e : Z) (f : nat) : Z :=
  let scaled := Z.pos m * 10 ^ Z.of_nat f in
  if 0 <=? e then scaled * 2 ^ e
  else (2 * scaled + 2 ^ (- e)) / (2 * 2 ^ (- e)).

(** The digits of [n] with a decimal point before the last [f] of them,
    padded with zeros on the left up to [f + 1] digits. *)
Definition fixed_digits (n : Z) (f : nat) : string :=
  let m := of_Z n in
  match f with
  | O => m
  | _ =>
      let k := String.length m in
      let m' := if (k <=? f)%nat then repeat_char "0" (f + 1 - k) ++ m else m in
      let k' := String.length m' in
      substring 0 (k' - f) m' ++ "." ++ substring (k' - f) f m'
  end.

Section ToFixed.
(** [Number::toString] of the host, which [toFixed] falls back on for
    values that are not finite or whose magnitude is at least 10^21. *)
Variable Number_toString : float -> string.

(** [x.toFixed(f)] for [0 <= f <= 100]. *)
Definition toFixed (x : float) (f : nat) : string :=
  match Prim2SF x with
  | S754_nan | S754_infinity _ => Number_toString x
  | S754_zero _ => fixed_digits 0 f
  | S754_finite neg m e =>
      let s := if neg then "-" else EmptyString in
      if PrimFloat.leb 1e21 (PrimFloat.abs x)
      then s ++ Number_toString (PrimFloat.abs x)
      else s ++ fixed_digits (round_scaled m e f) f
  end.
End ToFixed.

(** Length of the run of digits a string starts with. *)
Fixpoint digit_run (s : string) : nat :=
  match s with
  | String c r => if is_digit c then S (digit_run r) else O
  | EmptyString => O
  end.

(** Whether [/\B(?=(\d{3})+(?!\d))/] matches at the position between
    [prev] and [s]: the digits that follow are a positive multiple of
    three, and the position is not a word boundary, that is, since a digit
    follows, a word character precedes. *)
Definition group_boundary (prev : option ascii) (s : string) : bool :=
  let n := digit_run s in
  (0 <? n)%nat && (n mod 3 =? 0)%nat
  && match prev with Some p => is_word p | None => false end.

(** [s.replace(/\B(?=(\d{3})+(?!\d))/g, ',')] *)
Fixpoint insert_group_commas (prev : option ascii) (s : string) : string :=
  let rest :=
    match s with
    | EmptyString => EmptyString
    | String c r => String c (insert_group_commas (Some c) r)
    end in
  if group_boundary prev s then String "," rest else rest.

End JsNumber.

(** ** Format helpers *)

Section Format.
Import JsNumber.
Variable Number_toString : float -> string.

Local Abbreviation toFixed := (toFixed Number_toString).

(** [formatPrice]; [None] is [undefined] or [null]. *)
Definition formatPrice (price : option float) : string :=
  match price with
  | None => "$0"
  | Some price =>
      if PrimFloat.leb 1000 price then
        "$" ++ insert_group_commas None (toFixed price 0)
      else if PrimFloat.leb 1 price then
        "$" ++ toFixed price 2
      else
        "$" ++ toFixed price 6
  end.

(** [formatPriceChange] *)
Definition formatPriceChange (change : option float) : string :=
  match change with
  | None => "0%"
  | Some change =>
      let sign := if PrimFloat.leb 0 change then "+" else EmptyString in
      sign ++ toFixed change 2 ++ "%"
  end.

(** [formatCompactNumber] *)
Definition formatCompactNumber (num : option float) : string :=
  match num with
  | None => "0"
  | Some num =>
      if PrimFloat.leb 1e12 num then toFixed (num / 1e12)%float 2 ++ "T"
      else if PrimFloat.leb 1e9 num then toFixed (num / 1e9)%float 2 ++ "B"
      else if PrimFloat.leb 1e6 num then toFixed (num / 1e6)%float 2 ++ "M"
      else if PrimFloat.leb 1e3 num then toFixed (num / 1e3)%float 2 ++ "K"
      else toFixed num 2
  end.
End Format.

(** ** Data model *)

(** A value read out of an object literal by a computed key is either a
    string of the table or, for a key the literal does not define itself
    but [Object.prototype] does, the inherited member of that name. A
    string that holds a code unit of 256 or more is given by its code
    units. *)
Inductive jsval :=
| VStr (s : string)
| VInherited (key : string)
| VWide (units : list N).

Definition jsval_truthy (v : jsval) : bool :=
  match v with
  | VStr s => JsString.truthy s
  | VInherited _ => true
  | VWide units => match units with [] => false | _ => true end
  end.

(** The string value with the given code units. *)
Definition string_of_units (l : list N) : jsval :=
  match JsString.narrow l with
  | Some s => VStr s
  | None => VWide l
  end.

(** [if (v)] on a value that may be [undefined]: the value when it is truthy. *)
Definition if_truthy (v : option jsval) : option jsval :=
  match v with
  | Some x => if jsval_truthy x then Some x else None
  | None => None
  end.

(** The property names every object literal inherits. *)
Definition object_prototype_keys : list string :=
  [ "constructor"; "__defineGetter__"; "__defineSetter__"; "hasOwnProperty";
    "__lookupGetter__"; "__lookupSetter__"; "isPrototypeOf";
    "propertyIsEnumerable"; "toString"; "valueOf"; "__proto__";
    "toLocaleString" ].

Inductive member (A : Type) :=
| Own (a : A)
| Inherited
| Missing.
Arguments Own {A} a.
Arguments Inherited {A}.
Arguments Missing {A}.

Fixpoint own_property {A : Type} (o : list (string * A)) (k : string) : option A :=
  match o with
  | [] => None
  | (k', a) :: r => if String.eqb k' k then Some a else own_property r k
  end.

(** [o[k]] on an object literal [o]. *)
Definition object_get {A : Type} (o : list (string * A)) (k : string) : member A :=
  match own_property o k with
  | Some a => Own a
  | None => if bool_decide (k ∈ object_prototype_keys) then Inherited else Missing
  end.

Record CoinData := {
  coin_id : string;
  coin_symbol : string;
  coin_name : string;
  coin_image : jsval;
  coin_current_price : float;
  coin_price_change_percentage_24h : float;
  coin_market_cap : float;
  coin_market_cap_rank : float;
  coin_total_volume : float;
  coin_high_24h : option float;
  coin_low_24h : option float
}.

Record CoinGeckoMarketData := {
  cg_id : string;
  cg_symbol : string;
  cg_name : string;
  cg_image : string;
  cg_current_price : float;
  cg_price_change_percentage_24h : float;
  cg_market_cap : float;
  cg_market_cap_rank : float;
  cg_total_volume : float;
  cg_high_24h : option float;
  cg_low_24h : option float
}.

Record MoonPayCurrency := {
  mp_code : string;
  mp_name : string;
  mp_logoUrl : option string;
  mp_price : option float;
  mp_change24Hour : option float;
  mp_marketCap : option float;
  mp_rank : option float;
  mp_volume24Hour : option float;
  mp_btcRate : option float
}.

Record SearchResultItem := {
  sr_id : string;
  sr_name : string;
  sr_symbol : string;
  sr_thumb : option jsval;
  sr_small : option jsval;
  sr_market_cap_rank : option float
}.

(** ** Service configuration *)

Definition API_BACKOFF_MS : Z := 2000.
Definition MAX_RETRIES : nat := 3.
Definition DEFAULT_PLACEHOLDER : string := "/public/placeholder.svg".

(** ** The cache *)

(** The entries of [apiCache] that hold a list of quotes, which are the
    entries under the keys of [fetchTopCoins]; the keys of the other
    operations ([trending_coins], [coin_<id>_<currency>]) start differently. *)
Record CryptoCache := {
  imageCache : gmap string jsval;
  apiCache : gmap string (list CoinData * Z);
  apiCallAttempts : gmap string Z;
  rateLimitedUntil : Binary64.integer;
  coinBlacklist : gset string
}.

Definition cacheExpiry : Z := 5 * 60 * 1000.
Definition apiCooldown : Z := 60 * 1000.

Module Cache.
Import JsString.

Definition empty : CryptoCache :=
  {| imageCache := ∅; apiCache := ∅; apiCallAttempts := ∅;
     rateLimitedUntil := Binary64.Finite 0; coinBlacklist := ∅ |}.

Definition setImageUrl (coinId : string) (url : jsval) (c : CryptoCache) : CryptoCache :=
  {| imageCache := <[toLowerCase coinId := url]> (imageCache c);
     apiCache := apiCache c; apiCallAttempts := apiCallAttempts c;
     rateLimitedUntil := rateLimitedUntil c; coinBlacklist := coinBlacklist c |}.

Definition getImageUrl (coinId : string) (c : CryptoCache) : option jsval :=
  imageCache c !! toLowerCase coinId.

Definition setApiData (now : Z) (key : string) (data : list CoinData) (c : CryptoCache) : CryptoCache :=
  {| imageCache := imageCache c;
     apiCache := <[key := (data, now)]> (apiCache c);
     apiCallAttempts := apiCallAttempts c;
     rateLimitedUntil := rateLimitedUntil c; coinBlacklist := coinBlacklist c |}.

Definition getApiData (now : Z) (key : string) (c : CryptoCache) : option (list CoinData) :=
  match apiCache c !! key with
  | Some (data, timestamp) =>
      if now - timestamp <? cacheExpiry then Some data else None
  | None => None
  end.

Definition isRateLimited (now : Z) (c : CryptoCache) : bool :=
  Binary64.ltb now (rateLimitedUntil c).

(** [waitTimeSeconds] is [None] when the argument is left out or is
    [NaN]; the method only tests whether it is truthy. *)
Definition setRateLimited (now : Z) (isLimited : bool)
    (waitTimeSeconds : option Binary64.integer) (c : CryptoCache) : CryptoCache :=
  let until :=
    if isLimited then
      let waitTimeMs :=
        match waitTimeSeconds with
        | Some n =>
            if Binary64.truthy n then Binary64.mul n 1000
            else Binary64.Finite (5 * 60 * 1000)
        | None => Binary64.Finite (5 * 60 * 1000)
        end in
      Binary64.add now waitTimeMs
    else Binary64.Finite 0 in
  {| imageCache := imageCache c; apiCache := apiCache c;
     apiCallAttempts := apiCallAttempts c;
     rateLimitedUntil := until; coinBlacklist := coinBlacklist c |}.

Definition addToBlacklist (coinId : string) (c : CryptoCache) : CryptoCache :=
  {| imageCache := imageCache c; apiCache := apiCache c;
     apiCallAttempts := apiCallAttempts c;
     rateLimitedUntil := rateLimitedUntil c;
     coinBlacklist := {[ toLowerCase coinId ]} ∪ coinBlacklist c |}.

Definition isBlacklisted (coinId : string) (c : CryptoCache) : bool :=
  bool_decide (toLowerCase coinId ∈ coinBlacklist c).

Definition shouldTryApiCall (now : Z) (coinId : string) (c : CryptoCache) : bool :=
  if isRateLimited now c || isBlacklisted (toLowerCase coinId) c then false
  else
    match apiCallAttempts c !! toLowerCase coinId with
    | None => true
    | Some lastAttempt => (lastAttempt =? 0) || (apiCooldown <? now - lastAttempt)
    end.

Definition markApiCallAttempt (now : Z) (coinId : string) (c : CryptoCache) : CryptoCache :=
  {| imageCache := imageCache c; apiCache := apiCache c;
     apiCallAttempts := <[toLowerCase coinId := now]> (apiCallAttempts c);
     rateLimitedUntil := rateLimitedUntil c; coinBlacklist := coinBlacklist c |}.

Definition clearExpired (now : Z) (c : CryptoCache) : CryptoCache :=
  {| imageCache := imageCache c;
     apiCache := filter (fun kv => negb (cacheExpiry <? now - snd (snd kv)) = true) (apiCache c);
     apiCallAttempts := apiCallAttempts c;
     rateLimitedUntil := rateLimitedUntil c; coinBlacklist := coinBlacklist c |}.

End Cache.

(** ** The world around the cache *)

Inductive request :=
| GetMarkets (vs_currency : string) (per_page : Z)
    (* GET api.coingecko.com/api/v3/coins/markets *)
| GetSearch (query : string)
    (* GET api.coingecko.com/api/v3/search *)
| GetCoinDetail (coinId : string)
    (* GET pro-api.coingecko.com/api/v3/coins/<coinId> *)
| GetCurrencies (limit : Z)
    (* GET api.moonpay.com/v3/currencies *)
| GetTrending
    (* GET api.coingecko.com/api/v3/search/trending *)
| GetCoin (coinId : string)
    (* GET api.coingecko.com/api/v3/coins/<coinId> *)
| GetPopularCurrencies
    (* GET api.moonpay.com/v3/currencies, sorted by popularity *)
| GetCurrency (code : string).
    (* GET api.moonpay.com/v3/currencies/<code> *)

Inductive provider := CoinGecko | MoonPay.

Definition provider_of (r : request) : provider :=
  match r with
  | GetMarkets _ _ | GetSearch _ | GetCoinDetail _ | GetTrending | GetCoin _ => CoinGecko
  | GetCurrencies _ | GetPopularCurrencies | GetCurrency _ => MoonPay
  end.

(** The requests of [fetchTrendingCoins] and [fetchCoinData], the two
    exported operations that are not modelled call by call. *)
Definition sent_by_other_operations (r : request) : bool :=
  match r with
  | GetTrending | GetCoin _ | GetPopularCurrencies | GetCurrency _ => true
  | _ => false
  end.

Inductive event :=
| EvRequest (r : request)     (* a provider API request is sent *)
| EvTimer (ms : Z)            (* a [setTimeout] of [ms] is awaited *)
| EvImage (url : string).     (* an [Image] is given this [src] to preload *)

Definition is_request_to (p : provider) (e : event) : bool :=
  match e with
  | EvRequest r =>
      match p, provider_of r with
      | CoinGecko, CoinGecko | MoonPay, MoonPay => true
      | _, _ => false
      end
  | _ => false
  end.

(** The provider requests of a trace, in order. *)
Definition requests_to (p : provider) (tr : list event) : list event :=
  List.filter (is_request_to p) tr.

Definition api_requests (tr : list event) : list event :=
  List.filter (fun e => match e with EvRequest _ => true | _ => false end) tr.

(** Where a call of [fetchTopCoins] is suspended: at the [await] of the
    primary request in [fetchWithRetry], of the timer before a retry, or
    of the secondary request. [sent] is the position of the request in the
    trace; [due] is the time the timer is set to. *)
Inductive listing_await :=
| AwaitMarkets (retries : nat) (sent : nat)
| AwaitBackoff (retries : nat) (due : Z)
| AwaitCurrencies (sent : nat).

(** A call of an asynchronous operation that is suspended at an [await]. *)
Inductive suspended :=
| ListingCall (currency : string) (limit : Z) (at_await : listing_await)
| SearchCall (query : string) (sent : nat).

Record World := {
  cache : CryptoCache;
  now : Z;                          (* [Date.now()] *)
  trace : list event;               (* what has been sent or awaited so far *)
  inflight : list string;           (* detail lookups awaiting their response *)
  probing : list (string * nat);    (* image preloads awaiting load or error *)
  calls : list suspended            (* listing and search calls awaiting *)
}.

Definition initial (t0 : Z) : World :=
  {| cache := Cache.empty; now := t0; trace := []; inflight := []; probing := [];
     calls := [] |}.

Definition with_cache (f : CryptoCache -> CryptoCache) (w : World) : World :=
  {| cache := f (cache w); now := now w; trace := trace w;
     inflight := inflight w; probing := probing w; calls := calls w |}.

Definition emit (e : event) (w : World) : World :=
  {| cache := cache w; now := now w; trace := trace w ++ [e];
     inflight := inflight w; probing := probing w; calls := calls w |}.

Definition elapse (d : Z) (w : World) : World :=
  {| cache := cache w; now := now w + d; trace := trace w;
     inflight := inflight w; probing := probing w; calls := calls w |}.

Definition add_inflight (coinId : string) (w : World) : World :=
  {| cache := cache w; now := now w; trace := trace w;
     inflight := inflight w ++ [coinId]; probing := probing w; calls := calls w |}.

Definition set_inflight (l : list string) (w : World) : World :=
  {| cache := cache w; now := now w; trace := trace w;
     inflight := l; probing := probing w; calls := calls w |}.

Definition set_probing (l : list (string * nat)) (w : World) : World :=
  {| cache := cache w; now := now w; trace := trace w;
     inflight := inflight w; probing := l; calls := calls w |}.

Definition set_calls (l : list suspended) (w : World) : World :=
  {| cache := cache w; now := now w; trace := trace w;
     inflight := inflight w; probing := probing w; calls := l |}.

Definition add_call (c : suspended) (w : World) : World :=
  set_calls (calls w ++ [c]) w.

(** What the promise of a request settles to: data, or a rejection that
    carries the HTTP status of the response when there was one (no status:
    network error or timeout). *)
Inductive reply (T : Type) :=
| Resolved (data : T)
| Rejected (status : option Z).
Arguments Resolved {T} data.
Arguments Rejected {T} status.

(** The providers. A reply may depend on the request and on everything
    sent before it, through the position in the trace. The data of a search
    reply is [None] when [response.data && response.data.coins] is falsy. *)
Record Network := {
  markets_reply : nat -> string -> Z -> reply (list CoinGeckoMarketData);
  currencies_reply : nat -> Z -> reply (list MoonPayCurrency);
  search_reply : nat -> string -> reply (option (list SearchResultItem));
  latency : nat -> N
}.

(** ** Computations that may throw *)

Inductive exn :=
| AxiosError (status : option Z).

(** [axios.isAxiosError(error) && error.response?.status === 429] *)
Definition is_rate_limit_error (error : exn) : bool :=
  match error with
  | AxiosError (Some st) => st =? 429
  | AxiosError None => false
  end.

Inductive outcome (A : Type) :=
| Returned (a : A)
| Thrown (e : exn).
Arguments Returned {A} a.
Arguments Thrown {A} e.

Definition M (A : Type) : Type := World -> outcome A * World.

Definition ret {A} (a : A) : M A := fun w => (Returned a, w).

Definition throw {A} (e : exn) : M A := fun w => (Thrown e, w).

Definition bind {A B} (c : M A) (k : A -> M B) : M B := fun w =>
  match c w with
  | (Returned a, w') => k a w'
  | (Thrown e, w') => (Thrown e, w')
  end.

(** [try { c } catch (e) { h e }] *)
Definition try_catch {A} (c : M A) (h : exn -> M A) : M A := fun w =>
  match c w with
  | (Returned a, w') => (Returned a, w')
  | (Thrown e, w') => h e w'
  end.

(** A step that cannot throw. *)
Definition lift {A} (f : World -> A * World) : M A := fun w =>
  let '(a, w') := f w in (Returned a, w').

Definition update (f : World -> World) : M unit := fun w => (Returned tt, f w).

Declare Scope js_scope.
Delimit Scope js_scope with js.
Notation "x <- c ;; k" := (bind c (fun x => k))
  (at level 100, c at next level, right associativity) : js_scope.
Notation "c ;;; k" := (bind c (fun _ => k))
  (at level 100, right associativity) : js_scope.

(** [xs.map(f)] where [f] has effects: left to right. *)
Fixpoint mapM {A B} (f : A -> M B) (xs : list A) : M (list B) :=
  match xs with
  | [] => ret []
  | x :: r => (y <- f x ;; ys <- mapM f r ;; ret (y :: ys))%js
  end.

(** ** Image resolution *)

Definition localImageMap : list (string * string) :=
  [ ("btc", "/src/images/crypto/bitcoin.png");
    ("eth", "/src/images/crypto/ethereum.png");
    ("sol", "/src/images/crypto/solana.png");
    ("usdc", "/src/images/crypto/usdc.png");
    ("usdt", "/src/images/crypto/tether.png");
    ("bnb", "/src/images/crypto/binance.png");
    ("xrp", "/src/images/crypto/xrp.png");
    ("ada", "/src/images/crypto/cardano.png");
    ("doge", "/src/images/crypto/dogecoin.png");
    ("dot", "/src/images/crypto/polkadot.png");
    ("link", "/src/images/crypto/chainlink.png");
    ("avax", "/src/images/crypto/avalanche.png");
    ("shib", "/src/images/crypto/shiba.png");
    ("bitcoin", "/src/images/crypto/bitcoin.png");
    ("ethereum", "/src/images/crypto/ethereum.png");
    ("solana", "/src/images/crypto/solana.png");
    ("usd-coin", "/src/images/crypto/usdc.png");
    ("tether", "/src/images/crypto/tether.png");
    ("binancecoin", "/src/images/crypto/binance.png");
    ("ripple", "/src/images/crypto/xrp.png");
    ("cardano", "/src/images/crypto/cardano.png");
    ("dogecoin", "/src/images/crypto/dogecoin.png");
    ("polkadot", "/src/images/crypto/polkadot.png");
    ("chainlink", "/src/images/crypto/chainlink.png");
    ("avalanche-2", "/src/images/crypto/avalanche.png");
    ("shiba-inu", "/src/images/crypto/shiba.png");
    ("wrapped-bitcoin", "/src/images/crypto/bitcoin.png");
    ("staked-ether", "/src/images/crypto/ethereum.png");
    ("wrapped-steth", "/src/images/crypto/ethereum.png") ].

Definition knownImageMapping : list (string * (Z * string)) :=
  [ ("bitcoin", (1, "bitcoin"));
    ("ethereum", (279, "ethereum"));
    ("tether", (325, "tether"));
    ("binancecoin", (825, "binance-coin"));
    ("ripple", (44, "xrp"));
    ("solana", (16116, "solana"));
    ("cardano", (2010, "cardano"));
    ("staked-ether", (8085, "staked-ether"));
    ("dogecoin", (5, "dogecoin"));
    ("tron", (1958, "tron"));
    ("polkadot", (6636, "polkadot"));
    ("chainlink", (1975, "chainlink"));
    ("wrapped-bitcoin", (3717, "wrapped-bitcoin"));
    ("shiba-inu", (5994, "shiba-inu"));
    ("avalanche-2", (12559, "avalanche-2"));
    ("uniswap", (12504, "uniswap"));
    ("stellar", (512, "stellar")) ].

Definition problemCoins : list string :=
  [ "fartcoin"; "zerebro"; "grass"; "pepe"; "official-trump"; "dogwifcoin";
    "deep"; "pi-network"; "the-open-network"; "leo-token"; "mantra-dao";
    "zora"; "sui"; "ondo-finance" ].

(** The value of [table[k]] for a table of strings; [None] is [undefined]. *)
Definition table_get (table : list (string * string)) (k : string) : option jsval :=
  match object_get table k with
  | Own u => Some (VStr u)
  | Inherited => Some (VInherited k)
  | Missing => None
  end.

(** [f.name] of the member of [Object.prototype] called [k], as a template
    literal prints it: the constructor is the function [Object], [__proto__]
    is an object without a name, the others are functions named as their key. *)
Definition inherited_name (k : string) : string :=
  if String.eqb k "constructor" then "Object"
  else if String.eqb k "__proto__" then "undefined"
  else k.

Definition knownImageUrl (coinId : string) : option string :=
  match object_get knownImageMapping coinId with
  | Own (id, name) =>
      Some ("https://assets.coingecko.com/coins/images/" ++ JsString.of_Z id
            ++ "/small/" ++ name ++ ".png")
  | Inherited =>
      Some ("https://assets.coingecko.com/coins/images/undefined/small/"
            ++ inherited_name coinId ++ ".png")
  | Missing => None
  end.

Definition guessUrl (coinId : string) : string :=
  "https://assets.coingecko.com/coins/images/1000/small/" ++ coinId ++ ".png?1684385264".

Definition fallbackUrl (coinId : string) : string :=
  "https://assets.coingecko.com/coins/images/search_fallback/" ++ coinId ++ ".png".

Definition altFallbackUrl (coinId : string) : string :=
  "https://assets.coingecko.com/coins/images/search_fallback/"
  ++ JsString.replace_first_dash coinId ++ ".png".

Definition svgPlaceholder (coinId : string) : jsval :=
  let letter := JsString.toUpperCase (JsString.charAt0 coinId) in
  string_of_units
    (JsString.units "data:image/svg+xml,%3Csvg xmlns='http://www.w3.org/2000/svg' width='32' height='32' viewBox='0 0 32 32'%3E%3Ccircle cx='16' cy='16' r='16' fill='%23555'/%3E%3Ctext x='16' y='22' font-size='18' text-anchor='middle' fill='white'%3E"
     ++ letter ++ JsString.units "%3C/text%3E%3C/svg%3E")%list.

(** What [fetch] gives the detail lookup. *)
Inductive json_body :=
| JsonInvalid                              (* [response.json()] rejects *)
| JsonImageSmall (small : option string).  (* [data.image.small], if any *)

Record Response := {
  status : Z;
  ratelimit_reset : option string;   (* [headers.get('x-ratelimit-reset')] *)
  json : json_body
}.

Inductive fetch_result :=
| Responded (r : Response)
| FetchFailed.

Definition response_ok (r : Response) : bool :=
  (200 <=? status r) && (status r <=? 299).

Fixpoint remove_one {A} `{EqDecision A} (x : A) (l : list A) : list A :=
  match l with
  | [] => []
  | y :: r => if decide (x = y) then r else y :: remove_one x r
  end.

Section Images.
Import JsString.

(** [import.meta.env.VITE_COINGECKO_API_KEY || ''] *)
Variable COINGECKO_API_KEY : string.

(** [tryFetchCoinData()] up to its first [await]: this part runs inside
    the call of [getCryptoImageUrl] that starts it. *)
Definition tryFetchCoinData_start (coinId : string) (w : World) : World :=
  if bool_decide (coinId ∈ problemCoins) then
    with_cache (Cache.addToBlacklist coinId) w
  else
    add_inflight coinId
      (emit (EvRequest (GetCoinDetail coinId))
         (with_cache (Cache.markApiCallAttempt (now w) coinId) w)).

(** [tryFetchCoinData()] from the response on. *)
Definition tryFetchCoinData_resume (coinId : string) (r : fetch_result) (w : World) : World :=
  match r with
  | FetchFailed => with_cache (Cache.addToBlacklist coinId) w
  | Responded response =>
      if status response =? 429 then
        let waitTime :=
          match ratelimit_reset response with
          | Some resetTime =>
              if truthy resetTime then parseInt resetTime else Some (Binary64.Finite 60)
          | None => Some (Binary64.Finite 60)
          end in
        with_cache (Cache.setRateLimited (now w) true waitTime) w
      else if (status response =? 400) || (status response =? 404) then
        with_cache (Cache.addToBlacklist coinId) w
      else if negb (response_ok response) then
        with_cache (Cache.addToBlacklist coinId) w
      else
        match json response with
        | JsonInvalid => with_cache (Cache.addToBlacklist coinId) w
        | JsonImageSmall (Some imageUrl) =>
            if truthy imageUrl
            then with_cache (Cache.setImageUrl coinId (VStr imageUrl)) w
            else w
        | JsonImageSmall None => w
        end
  end.

(** The part of [getCryptoImageUrl] after the cache lookup. *)
Definition resolveImageUrl (coinId : string) (w : World) : jsval * World :=
  let cached url := (url, with_cache (Cache.setImageUrl coinId url) w) in
  if String.eqb coinId "godd" then cached (VStr "/src/images/main.png")
  else
    match if_truthy (table_get localImageMap coinId) with
    | Some url => cached url
    | None =>
        match knownImageUrl coinId with
        | Some url => cached (VStr url)
        | None =>
            let w1 :=
              if truthy COINGECKO_API_KEY
                 && Cache.shouldTryApiCall (now w) coinId (cache w)
              then
                if negb (Cache.isRateLimited (now w) (cache w))
                then tryFetchCoinData_start coinId w
                else w
              else w in
            let url := guessUrl coinId in
            let w2 := with_cache (Cache.setImageUrl coinId (VStr url)) w1 in
            let w3 := emit (EvImage url) w2 in
            (VStr url, set_probing (probing w3 ++ [(coinId, 0%nat)]) w3)
        end
    end.

Definition getCryptoImageUrl (code : string) (w : World) : jsval * World :=
  if negb (truthy code) then (VStr DEFAULT_PLACEHOLDER, w)
  else
    let coinId := toLowerCase code in
    match if_truthy (Cache.getImageUrl coinId (cache w)) with
    | Some cachedUrl => (cachedUrl, w)
    | None => resolveImageUrl coinId w
    end.

(** The handlers of the preloaded images: stage 0 is [img], stage 1 is
    [fallbackImg], stage 2 is [altFallbackImg]; [loaded] tells [onload]
    from [onerror]. *)
Definition onImageEvent (coinId : string) (stage : nat) (loaded : bool) (w : World) : World :=
  match stage, loaded with
  | 0%nat, true => w
  | 0%nat, false =>
      let w1 := emit (EvImage (fallbackUrl coinId)) w in
      set_probing (probing w1 ++ [(coinId, 1%nat)]) w1
  | 1%nat, true => with_cache (Cache.setImageUrl coinId (VStr (fallbackUrl coinId))) w
  | 1%nat, false =>
      let w1 := emit (EvImage (altFallbackUrl coinId)) w in
      set_probing (probing w1 ++ [(coinId, 2%nat)]) w1
  | 2%nat, true => with_cache (Cache.setImageUrl coinId (VStr (altFallbackUrl coinId))) w
  | 2%nat, false => with_cache (Cache.setImageUrl coinId (svgPlaceholder coinId)) w
  | _, _ => w
  end.

End Images.

(** ** Requests, retries and the listing operations *)

Section Client.
Import JsString JsNumber.
Local Open Scope js_scope.

Variable COINGECKO_API_KEY : string.
Variable net : Network.

Local Abbreviation getCryptoImageUrl := (getCryptoImageUrl COINGECKO_API_KEY).

(** [await axios.get(...)]: the request is sent, time passes, and the
    promise settles; a rejection is thrown at the [await]. *)
Definition axios_get {T} (r : request) (answer : nat -> reply T) : M T := fun w =>
  let i := length (trace w) in
  let w' := elapse (Z.of_N (latency net i)) (emit (EvRequest r) w) in
  match answer i with
  | Resolved data => (Returned data, w')
  | Rejected st => (Thrown (AxiosError st), w')
  end.

(** [await new Promise(resolve => setTimeout(resolve, ms))] *)
Definition sleep (ms : Z) : M unit :=
  update (fun w => elapse ms (emit (EvTimer ms) w)).

(** [fetchWithRetry(url, options, retries)]: the recursion is on
    [remaining], which callers set to [MAX_RETRIES - retries], so that it
    reaches zero exactly when [retries < MAX_RETRIES] fails. *)
Fixpoint fetchWithRetry_loop {T} (remaining : nat) (r : request)
    (answer : nat -> reply T) (retries : nat) : M T :=
  try_catch (axios_get r answer)
    (fun error =>
       if is_rate_limit_error error then
         match remaining with
         | S remaining' =>
             if (retries <? MAX_RETRIES)%nat then
               sleep API_BACKOFF_MS ;;;
               fetchWithRetry_loop remaining' r answer (retries + 1)
             else throw error
         | O => throw error
         end
       else throw error).

Definition fetchWithRetry {T} (r : request) (answer : nat -> reply T)
    (retries : nat) : M T :=
  fetchWithRetry_loop (MAX_RETRIES - retries) r answer retries.

Definition getApiData (key : string) : M (option (list CoinData)) := fun w =>
  (Returned (Cache.getApiData (now w) key (cache w)), w).

Definition setApiData (key : string) (data : list CoinData) : M unit :=
  update (fun w => with_cache (Cache.setApiData (now w) key data) w).

Definition fromCoinGecko (coin : CoinGeckoMarketData) : M CoinData :=
  image <- lift (getCryptoImageUrl (cg_id coin)) ;;
  ret {| coin_id := cg_id coin;
         coin_symbol := cg_symbol coin;
         coin_name := cg_name coin;
         coin_image := image;
         coin_current_price := cg_current_price coin;
         coin_price_change_percentage_24h := cg_price_change_percentage_24h coin;
         coin_market_cap := cg_market_cap coin;
         coin_market_cap_rank := cg_market_cap_rank coin;
         coin_total_volume := cg_total_volume coin;
         coin_high_24h := cg_high_24h coin;
         coin_low_24h := cg_low_24h coin |}.

Definition fromMoonPay (coin : MoonPayCurrency) : M CoinData :=
  image <- lift (getCryptoImageUrl (mp_code coin)) ;;
  ret {| coin_id := mp_code coin;
         coin_symbol := mp_code coin;
         coin_name := mp_name coin;
         coin_image := image;
         coin_current_price := or_zero (mp_price coin);
         coin_price_change_percentage_24h := or_zero (mp_change24Hour coin);
         coin_market_cap := or_zero (mp_marketCap coin);
         coin_market_cap_rank := or_zero (mp_rank coin);
         coin_total_volume := or_zero (mp_volume24Hour coin);
         coin_high_24h := None;
         coin_low_24h := None |}.

Definition fallbackCoin (id symbol name : string)
    (price change cap rank volume high low : float) : M CoinData :=
  image <- lift (getCryptoImageUrl id) ;;
  ret {| coin_id := id; coin_symbol := symbol; coin_name := name;
         coin_image := image;
         coin_current_price := price;
         coin_price_change_percentage_24h := change;
         coin_market_cap := cap;
         coin_market_cap_rank := rank;
         coin_total_volume := volume;
         coin_high_24h := Some high;
         coin_low_24h := Some low |}.

Definition getFallbackCoins : M (list CoinData) :=
  c1 <- fallbackCoin "bitcoin" "btc" "Bitcoin"
          57832.45 2.34 1134578945623 1 32456789012 58950.25 56784.12 ;;
  c2 <- fallbackCoin "ethereum" "eth" "Ethereum"
          2947.83 1.56 354789012345 2 15678901234 3025.75 2895.62 ;;
  c3 <- fallbackCoin "solana" "sol" "Solana"
          143.56 3.45 56789012345 4 4567890123 148.92 139.45 ;;
  c4 <- fallbackCoin "cardano" "ada" "Cardano"
          0.48 (-1.23) 16789012345 5 789012345 0.51 0.47 ;;
  c5 <- fallbackCoin "godsdollar" "godd" "Gods Dollar"
          2.75 5.67 12345678901 6 123456789 2.91 2.65 ;;
  ret [c1; c2; c3; c4; c5].

Definition topCoinsKey (currency : string) (limit : Z) : string :=
  "top_coins_" ++ currency ++ "_" ++ of_Z limit.

Definition fetchTopCoins (currency : string) (limit : Z) : M (list CoinData) :=
  try_catch
    (let cacheKey := topCoinsKey currency limit in
     cachedData <- getApiData cacheKey ;;
     match cachedData with
     | Some cachedData => ret cachedData
     | None =>
         try_catch
           (data <- fetchWithRetry (GetMarkets currency limit)
                      (fun i => markets_reply net i currency limit) 0 ;;
            coins <- mapM fromCoinGecko data ;;
            setApiData cacheKey coins ;;;
            ret coins)
           (fun coingeckoError =>
              data <- axios_get (GetCurrencies limit)
                        (fun i => currencies_reply net i limit) ;;
              coins <- mapM fromMoonPay data ;;
              setApiData cacheKey coins ;;;
              ret coins)
     end)
    (fun error => getFallbackCoins).

Definition withImages (coin : SearchResultItem) : M SearchResultItem :=
  thumb <- lift (getCryptoImageUrl (sr_id coin)) ;;
  small <- lift (getCryptoImageUrl (sr_id coin)) ;;
  ret {| sr_id := sr_id coin; sr_name := sr_name coin; sr_symbol := sr_symbol coin;
         sr_thumb := Some thumb; sr_small := Some small;
         sr_market_cap_rank := sr_market_cap_rank coin |}.

Definition searchCryptocurrencies (query : string) : M (list SearchResultItem) :=
  if negb (JsString.truthy query) || all_space query then ret []
  else
    try_catch
      (data <- axios_get (GetSearch query) (fun i => search_reply net i query) ;;
       match data with
       | Some coins => mapM withImages (take 15 coins)
       | None => ret []
       end)
      (fun error => ret []).

(** *** The asynchronous operations, cut at their awaits

    [fetchTopCoins] and [searchCryptocurrencies] above are the calls run
    from start to end, with nothing else happening while they wait. In a
    session a call runs up to an [await], is suspended there, and goes on
    when what it waits for has come; in between, anything else may run.
    The definitions below are the same code in these pieces. The reply to
    a request is the one the network has for its position in the trace. *)

(** The request of [fetchWithRetry] is sent and awaited. *)
Definition send_markets (currency : string) (limit : Z) (retries : nat) (w : World) : World :=
  add_call (ListingCall currency limit (AwaitMarkets retries (length (trace w))))
    (emit (EvRequest (GetMarkets currency limit)) w).

(** The request of the inner [catch] is sent and awaited. *)
Definition send_currencies (currency : string) (limit : Z) (w : World) : World :=
  add_call (ListingCall currency limit (AwaitCurrencies (length (trace w))))
    (emit (EvRequest (GetCurrencies limit)) w).

(** [await] of a promise that has settled. *)
Definition settled {T} (r : reply T) : M T :=
  match r with
  | Resolved data => ret data
  | Rejected st => throw (AxiosError st)
  end.

(** [fetchTopCoins] up to its first [await]; [None] when it is suspended. *)
Definition fetchTopCoins_start (currency : string) (limit : Z) (w : World)
    : option (outcome (list CoinData)) * World :=
  let cacheKey := topCoinsKey currency limit in
  match Cache.getApiData (now w) cacheKey (cache w) with
  | Some cachedData => (Some (Returned cachedData), w)
  | None => (None, send_markets currency limit 0 w)
  end.

(** [fetchTopCoins] from the [await] it was suspended at to the next one,
    or to its end. *)
Definition fetchTopCoins_resume (currency : string) (limit : Z) (a : listing_await)
    (w : World) : option (outcome (list CoinData)) * World :=
  let cacheKey := topCoinsKey currency limit in
  match a with
  | AwaitMarkets retries sent =>
      match markets_reply net sent currency limit with
      | Resolved data =>
          match (coins <- mapM fromCoinGecko data ;;
                 setApiData cacheKey coins ;;;
                 ret coins) w with
          | (Returned coins, w') => (Some (Returned coins), w')
          | (Thrown coingeckoError, w') => (None, send_currencies currency limit w')
          end
      | Rejected st =>
          if is_rate_limit_error (AxiosError st) && (retries <? MAX_RETRIES)%nat then
            (None,
             add_call (ListingCall currency limit
                         (AwaitBackoff retries (now w + API_BACKOFF_MS)))
               (emit (EvTimer API_BACKOFF_MS) w))
          else (None, send_currencies currency limit w)
      end
  | AwaitBackoff retries due => (None, send_markets currency limit (retries + 1) w)
  | AwaitCurrencies sent =>
      let '(o, w') :=
        try_catch
          (data <- settled (currencies_reply net sent limit) ;;
           coins <- mapM fromMoonPay data ;;
           setApiData cacheKey coins ;;;
           ret coins)
          (fun error => getFallbackCoins) w in
      (Some o, w')
  end.

(** Whether what a suspended call waits for can have come: a timer does
    not fire before it is due. *)
Definition ready (a : listing_await) (t : Z) : Prop :=
  match a with
  | AwaitBackoff _ due => due <= t
  | _ => True
  end.

(** [searchCryptocurrencies] up to its [await]. *)
Definition searchCryptocurrencies_start (query : string) (w : World)
    : option (outcome (list SearchResultItem)) * World :=
  if negb (JsString.truthy query) || all_space query then (Some (Returned []), w)
  else
    (None,
     add_call (SearchCall query (length (trace w))) (emit (EvRequest (GetSearch query)) w)).

(** [searchCryptocurrencies] from its [await] on. *)
Definition searchCryptocurrencies_resume (query : string) (sent : nat)
    : M (list SearchResultItem) :=
  try_catch
    (data <- settled (search_reply net sent query) ;;
     match data with
     | Some coins => mapM withImages (take 15 coins)
     | None => ret []
     end)
    (fun error => ret []).

End Client.

(** ** The session as a transition system

    One step is one thing that happens to the module state during a page
    session: a call of [getCryptoImageUrl]; a call of [fetchTopCoins] or
    [searchCryptocurrencies] up to its first [await]; a suspended call
    among those in flight, any of them, going on to its next [await] or
    to its end; the arrival of the response of a detail lookup; the load
    or error event of a preloaded image; the periodic sweep; or time
    passing. Calls may overlap: between two steps of one call any other
    step may happen. The other two exported operations,
    [fetchTrendingCoins] and [fetchCoinData], touch what is modelled here
    only by sending their own requests, by waiting between retries and by
    calling [getCryptoImageUrl] (their cache entries live under keys of
    their own): each of these is a step. *)

Section Session.
Variable COINGECKO_API_KEY : string.
Variable net : Network.

Inductive step : World -> World -> Prop :=
| step_getCryptoImageUrl code w :
    step w (snd (getCryptoImageUrl COINGECKO_API_KEY code w))
| step_detail_response coinId r w :
    coinId ∈ inflight w ->
    step w (tryFetchCoinData_resume coinId r
              (set_inflight (remove_one coinId (inflight w)) w))
| step_image_event coinId stage loaded w :
    (coinId, stage) ∈ probing w ->
    step w (onImageEvent coinId stage loaded
              (set_probing (remove_one (coinId, stage) (probing w)) w))
| step_fetchTopCoins currency limit w :
    step w (snd (fetchTopCoins_start currency limit w))
| step_fetchTopCoins_resume currency limit a l1 l2 w :
    calls w = (l1 ++ ListingCall currency limit a :: l2)%list ->
    ready a (now w) ->
    step w (snd (fetchTopCoins_resume COINGECKO_API_KEY net currency limit a
                   (set_calls (l1 ++ l2) w)))
| step_searchCryptocurrencies query w :
    step w (snd (searchCryptocurrencies_start query w))
| step_searchCryptocurrencies_resume query sent l1 l2 w :
    calls w = (l1 ++ SearchCall query sent :: l2)%list ->
    step w (snd (searchCryptocurrencies_resume COINGECKO_API_KEY net query sent
                   (set_calls (l1 ++ l2) w)))
| step_clearExpired w :
    step w (with_cache (Cache.clearExpired (now w)) w)
| step_time d w :
    0 <= d ->
    step w (elapse d w)
| step_other_request r d w :
    sent_by_other_operations r = true ->
    0 <= d ->
    step w (elapse d (emit (EvRequest r) w))
| step_other_backoff w :
    step w (elapse API_BACKOFF_MS (emit (EvTimer API_BACKOFF_MS) w)).

Definition reachable (w : World) : Prop :=
  exists t0, rtc step (initial t0) w.

End Session.

(** ** Notions used by the statements *)

(** Every run of [c] relates the world before to the world after. *)
Definition preserves {A} (R : World -> World -> Prop) (c : M A) : Prop :=
  forall w o w', c w = (o, w') -> R w w'.

(** A computation that always returns. *)
Definition total {A} (c : M A) : Prop :=
  forall w, exists a w', c w = (Returned a, w').

(** The URL of an identifier that is resolved without any guess: the
    special case of the site's own coin, the local table, then the table of
    known CDN images. *)
Definition static_url (coinId : string) : option jsval :=
  if String.eqb coinId "godd" then Some (VStr "/src/images/main.png")
  else
    match if_truthy (table_get localImageMap coinId) with
    | Some url => Some url
    | None => VStr <$> knownImageUrl coinId
    end.

(** What every reachable world satisfies: an identifier that has a static
    URL is cached under that URL or not at all, and neither a detail
    lookup nor an image preload is ever in progress for it. *)
Definition image_inv (w : World) : Prop :=
  (forall k v u, imageCache (cache w) !! k = Some v -> static_url k = Some u -> v = u)
  /\ (forall coinId, coinId ∈ inflight w -> static_url (JsString.toLowerCase coinId) = None)
  /\ (forall coinId stage, (coinId, stage) ∈ probing w ->
        static_url (JsString.toLowerCase coinId) = None).

(** The world after the dynamic branch of [getCryptoImageUrl]: the detail
    lookup is started if it may be, the guessed URL is cached and its
    preload begins. *)
Definition after_guess (COINGECKO_API_KEY : string) (coinId : string) (w : World) : World :=
  let w1 :=
    if JsString.truthy COINGECKO_API_KEY
       && Cache.shouldTryApiCall (now w) coinId (cache w)
    then
      if negb (Cache.isRateLimited (now w) (cache w))
      then tryFetchCoinData_start coinId w
      else w
    else w in
  let w3 := emit (EvImage (guessUrl coinId))
              (with_cache (Cache.setImageUrl coinId (VStr (guessUrl coinId))) w1) in
  set_probing (probing w3 ++ [(coinId, 0%nat)]) w3.

(** The three ways a call of [getCryptoImageUrl] ends for a non-empty
    identifier: with the cached value, with the static URL, or with the
    guessed URL after the dynamic branch. *)
Inductive resolution (COINGECKO_API_KEY : string) (code : string) (w : World) :
    jsval -> World -> Prop :=
| res_cached url :
    Cache.getImageUrl (JsString.toLowerCase code) (cache w) = Some url ->
    jsval_truthy url = true ->
    resolution COINGECKO_API_KEY code w url w
| res_static url :
    static_url (JsString.toLowerCase code) = Some url ->
    resolution COINGECKO_API_KEY code w url
      (with_cache (Cache.setImageUrl (JsString.toLowerCase code) url) w)
| res_guess :
    static_url (JsString.toLowerCase code) = None ->
    resolution COINGECKO_API_KEY code w (VStr (guessUrl (JsString.toLowerCase code)))
      (after_guess COINGECKO_API_KEY (JsString.toLowerCase code) w).

Definition blacklist_grows (w w' : World) : Prop :=
  coinBlacklist (cache w) ⊆ coinBlacklist (cache w').

Definition clock_advances (w w' : World) : Prop := now w <= now w'.

Definition keeps_entry (key : string) (w w' : World) : Prop :=
  apiCache (cache w') !! key = apiCache (cache w) !! key.

Definition keeps_inv (w w' : World) : Prop := image_inv w -> image_inv w'.

(** A provider is down when every request to it is rejected. *)
Definition primary_down (net : Network) (currency : string) (limit : Z) : Prop :=
  forall i, exists st, markets_reply net i currency limit = Rejected st.

Definition secondary_down (net : Network) (limit : Z) : Prop :=
  forall i, exists st, currencies_reply net i limit = Rejected st.

(** Sample providers and worlds. *)
Definition net_down : Network :=
  {| markets_reply := fun _ _ _ => Rejected (Some 500);
     currencies_reply := fun _ _ => Rejected None;
     search_reply := fun _ _ => Rejected None;
     latency := fun _ => 100%N |}.

Definition net_limited : Network :=
  {| markets_reply := fun _ _ _ => Rejected (Some 429);
     currencies_reply := fun _ _ => Rejected (Some 503);
     search_reply := fun _ _ => Rejected (Some 429);
     latency := fun _ => 100%N |}.

(** A primary provider that answers 429 once and 500 from then on. *)
Definition net_flaky : Network :=
  {| markets_reply := fun i _ _ =>
       match i with O => Rejected (Some 429) | S _ => Rejected (Some 500) end;
     currencies_reply := fun _ _ => Rejected None;
     search_reply := fun _ _ => Rejected None;
     latency := fun _ => 100%N |}.

Definition sample_quote : CoinGeckoMarketData :=
  {| cg_id := "Tron"; cg_symbol := "trx"; cg_name := "TRON";
     cg_image := "https://example.org/tron.png";
     cg_current_price := 0.12; cg_price_change_percentage_24h := 1.5;
     cg_market_cap := 11000000000; cg_market_cap_rank := 10;
     cg_total_volume := 500000000;
     cg_high_24h := Some 0.13%float; cg_low_24h := None |}.

Definition net_up : Network :=
  {| markets_reply := fun _ _ _ => Resolved [sample_quote];
     currencies_reply := fun _ _ => Rejected None;
     search_reply := fun _ _ => Resolved None;
     latency := fun _ => 100%N |}.

Definition trace_extends (w w' : World) : Prop :=
  exists rest, trace w' = (trace w ++ rest)%list.

(** The tail shared by the two provider branches of [fetchTopCoins]: the
    records are converted, stored under the key and returned. *)
Definition cacheCoins {A} (cacheKey : string) (convert : A -> M CoinData)
    (data : list A) : M (list CoinData) :=
  (coins <- mapM convert data ;; setApiData cacheKey coins ;;; ret coins)%js.

(** The identifying fields of a quote, the image left out. *)
Definition coin_listing (c : CoinData) : string * string * string * float :=
  (coin_id c, coin_symbol c, coin_name c, coin_market_cap_rank c).

Definition not_found : Response :=
  {| status := 404; ratelimit_reset := None; json := JsonInvalid |}.

Definition too_many_requests (reset : option string) : Response :=
  {| status := 429; ratelimit_reset := reset; json := JsonInvalid |}.

(** A successful fetch: [w1] is the world in which a call of
    [fetchTopCoins] ends that got data from one of the two providers, and
    [coins] is what it returns. The call was suspended at a request, the
    reply to that request has data, and from [w0] the call goes on to its
    end. *)
Definition fetched (key : string) (net : Network) (currency : string) (limit : Z)
    (coins : list CoinData) (w1 : World) : Prop :=
  exists a w0,
    match a with
    | AwaitMarkets _ sent =>
        exists data, markets_reply net sent currency limit = Resolved data
    | AwaitCurrencies sent =>
        exists data, currencies_reply net sent limit = Resolved data
    | AwaitBackoff _ _ => False
    end
    /\ fetchTopCoins_resume key net currency limit a w0 = (Some (Returned coins), w1).

(** A call of [fetchTopCoins] with these parameters is suspended. *)
Definition listing_in_flight (currency : string) (limit : Z) (w : World) : Prop :=
  exists a, ListingCall currency limit a ∈ calls w.

Definition same_calls (w w' : World) : Prop := calls w' = calls w.

(** The image cached under a key stays the same. *)
Definition keeps_value (k : string) (v : jsval) (w w' : World) : Prop :=
  imageCache (cache w) !! k = Some v -> imageCache (cache w') !! k = Some v.

Definition same_clock (w w' : World) : Prop := now w' = now w.

(** A provider whose listing changes: the first request of the session
    is answered with one record, every later one with none. *)
Definition net_moving : Network :=
  {| markets_reply := fun i _ _ =>
       match i with O => Resolved [sample_quote] | S _ => Resolved [] end;
     currencies_reply := fun _ _ => Rejected None;
     search_reply := fun _ _ => Resolved None;
     latency := fun _ => 100%N |}.

(** A session in which a detail lookup for an unlisted identifier has just
    been answered: the page asked for the image of "moon-cat" at time 1000
    with an API key configured, and the response arrives. *)
Definition awaiting_detail : World :=
  snd (getCryptoImageUrl "k" "moon-cat" (initial 1000)).

Definition after_detail (r : fetch_result) : World :=
  tryFetchCoinData_resume "moon-cat" r
    (set_inflight (remove_one "moon-cat" (inflight awaiting_detail)) awaiting_detail).

(** ** Notions used by the further properties *)

(** The identifier has a cached image that passes the test [if (cachedUrl)]. *)
Definition cached_truthy (k : string) (w : World) : Prop :=
  exists v, imageCache (cache w) !! k = Some v /\ jsval_truthy v = true.

Definition keeps_cached (k : string) (w w' : World) : Prop :=
  cached_truthy k w -> cached_truthy k w'.

(** How many detail lookups for an identifier a trace holds. *)
Definition is_lookup_of (coinId : string) (e : event) : bool :=
  match e with
  | EvRequest (GetCoinDetail c) => String.eqb c coinId
  | _ => false
  end.

Definition detail_lookups (coinId : string) (tr : list event) : nat :=
  length (List.filter (is_lookup_of coinId) tr).

Definition is_detail_lookup (e : event) : bool :=
  match e with
  | EvRequest (GetCoinDetail _) => true
  | _ => false
  end.

(** What holds of the detail lookups in every reachable world: whatever
    is cached passes the truthiness test, no identifier has been looked up
    twice, and an identifier that has been looked up is cached, has no
    static URL, is not one of the known problem coins, is in lower case,
    and was looked up with an API key configured. *)
Definition lookup_inv (COINGECKO_API_KEY : string) (w : World) : Prop :=
  (forall k v, imageCache (cache w) !! k = Some v -> jsval_truthy v = true)
  /\ (forall coinId, (detail_lookups coinId (trace w) <= 1)%nat)
  /\ (forall coinId,
        (1 <= detail_lookups coinId (trace w))%nat ->
        is_Some (imageCache (cache w) !! coinId)
        /\ static_url coinId = None
        /\ (coinId ∉ problemCoins)
        /\ JsString.toLowerCase coinId = coinId
        /\ JsString.truthy COINGECKO_API_KEY = true).

Definition keeps_lookup_inv (COINGECKO_API_KEY : string) (w w' : World) : Prop :=
  lookup_inv COINGECKO_API_KEY w -> lookup_inv COINGECKO_API_KEY w'.

(** What a call of [fetchWithRetry] that retries [n] times leaves on the
    trace: [n + 1] requests with a wait of [API_BACKOFF_MS] before each retry. *)
Fixpoint attempts (r : request) (n : nat) : list event :=
  match n with
  | O => [EvRequest r]
  | S k => EvRequest r :: EvTimer API_BACKOFF_MS :: attempts r k
  end.

(** The fields of a quote other than its image. *)
Definition quote_fields (c : CoinData)
    : string * string * string * (float * float * float * float * float)
      * (option float * option float) :=
  (coin_id c, coin_symbol c, coin_name c,
   (coin_current_price c, coin_price_change_percentage_24h c, coin_market_cap c,
    coin_market_cap_rank c, coin_total_volume c),
   (coin_high_24h c, coin_low_24h c)).

(** The same fields as a record of the primary provider gives them. *)
Definition primary_fields (c : CoinGeckoMarketData)
    : string * string * string * (float * float * float * float * float)
      * (option float * option float) :=
  (cg_id c, cg_symbol c, cg_name c,
   (cg_current_price c, cg_price_change_percentage_24h c, cg_market_cap c,
    cg_market_cap_rank c, cg_total_volume c),
   (cg_high_24h c, cg_low_24h c)).

(** A number that is not [NaN]. *)
Definition is_number (x : float) : bool :=
  match Prim2SF x with
  | S754_nan => false
  | _ => true
  end.

(** The numeric fields of a quote that the conversions fill in all cases. *)
Definition quote_numbers (c : CoinData) : list float :=
  [ coin_current_price c; coin_price_change_percentage_24h c; coin_market_cap c;
    coin_market_cap_rank c; coin_total_volume c ].

(** The optional numbers of a record of the secondary provider, in the
    order of [quote_numbers]. *)
Definition record_numbers (r : MoonPayCurrency) : list (option float) :=
  [ mp_price r; mp_change24Hour r; mp_marketCap r; mp_rank r; mp_volume24Hour r ].

(** A quote agrees with the record of the secondary provider it was made
    from: the code is both identifier and symbol, every missing, zero or
    [NaN] number is zero, and there is no daily high or low. *)
Definition made_from_record (c : CoinData) (r : MoonPayCurrency) : Prop :=
  coin_id c = mp_code r
  /\ coin_symbol c = mp_code r
  /\ coin_name c = mp_name r
  /\ quote_numbers c = map JsNumber.or_zero (record_numbers r)
  /\ forallb is_number (quote_numbers c) = true
  /\ coin_high_24h c = None
  /\ coin_low_24h c = None.

(** A search record as the provider gave it, the two images left out. *)
Definition search_fields (c : SearchResultItem) : string * string * string * option float :=
  (sr_id c, sr_name c, sr_symbol c, sr_market_cap_rank c).

(** A secondary provider that answers, with a record that lacks most
    numbers and gives one as [NaN], behind a primary provider that is down;
    and a provider whose search answers with two records. *)
Definition sample_currency : MoonPayCurrency :=
  {| mp_code := "sol"; mp_name := "Solana"; mp_logoUrl := None;
     mp_price := Some 143.56%float; mp_change24Hour := Some nan;
     mp_marketCap := None; mp_rank := Some 0%float; mp_volume24Hour := None;
     mp_btcRate := None |}.

Definition sample_matches : list SearchResultItem :=
  [ {| sr_id := "Moon-Cat"; sr_name := "Moon Cat"; sr_symbol := "MCAT";
       sr_thumb := None; sr_small := None;
       sr_market_cap_rank := Some 321%float |};
    {| sr_id := "bitcoin"; sr_name := "Bitcoin"; sr_symbol := "BTC";
       sr_thumb := Some (VStr "https://example.org/b.png");
       sr_small := None;
       sr_market_cap_rank := Some 1%float |} ].

Definition net_secondary : Network :=
  {| markets_reply := fun _ _ _ => Rejected (Some 500);
     currencies_reply := fun _ _ => Resolved [sample_currency];
     search_reply := fun _ _ => Resolved (Some sample_matches);
     latency := fun _ => 100%N |}.

(** The outcomes of a detail lookup that the code treats as a failure of
    the identifier: the request itself fails, or the response has a status
    other than 429 that is not a success, or its body is not JSON. *)
Definition lookup_failed (r : fetch_result) : bool :=
  match r with
  | FetchFailed => true
  | Responded response =>
      negb (status response =? 429)
      && (negb (response_ok response)
          || match json response with JsonInvalid => true | JsonImageSmall _ => false end)
  end.

Definition server_error : Response :=
  {| status := 503; ratelimit_reset := None; json := JsonInvalid |}.

(** Notions about the characters of a formatted number. *)
Fixpoint chars_in (P : ascii -> bool) (s : string) : bool :=
  match s with
  | EmptyString => true
  | String c r => P c && chars_in P r
  end.

Fixpoint count_char (c : ascii) (s : string) : nat :=
  match s with
  | EmptyString => O
  | String c' r => ((if Ascii.eqb c c' then 1 else 0) + count_char c r)%nat
  end.

Fixpoint strip_commas (s : string) : string :=
  match s with
  | EmptyString => EmptyString
  | String c r => if Ascii.eqb c "," then strip_commas r else String c (strip_commas r)
  end.

Definition digit_or_point (c : ascii) : bool :=
  JsString.is_digit c || Ascii.eqb c ".".

(** ** On-ramp helpers *)

(** [moonPayCodeMap], the same table in the service and in the widget. *)
Definition moonPayCodeMap : list (string * string) :=
  [ ("bitcoin", "btc"); ("ethereum", "eth"); ("litecoin", "ltc");
    ("bitcoin-cash", "bch"); ("dogecoin", "doge"); ("ripple", "xrp");
    ("cardano", "ada"); ("polkadot", "dot"); ("solana", "sol");
    ("avalanche-2", "avax") ].

(** [getMoonPayCurrencyCode]: [moonPayCodeMap[coinId] || coinId]. *)
Definition getMoonPayCurrencyCode (coinId : string) : jsval :=
  match if_truthy (table_get moonPayCodeMap coinId) with
  | Some v => v
  | None => VStr coinId
  end.

Record MoonPayWidgetOptions := {
  wo_apiKey : string;
  wo_currencyCode : option string;
  wo_baseCurrencyCode : option string;
  wo_baseCurrencyAmount : option float;
  wo_email : option string;
  wo_walletAddress : option string;
  wo_colorCode : option string;
  wo_redirectURL : option string;
  wo_showOnlyCurrencies : option (list string);
  wo_language : option string
}.

(** A [URLSearchParams] object: the name-value pairs in the order they
    were appended. *)
Definition URLSearchParams := list (string * string).

Definition append (name value : string) (p : URLSearchParams) : URLSearchParams :=
  (p ++ [(name, value)])%list.

(** [if (v) k(v)] on an optional member: [k] runs when the member is there
    and truthy. *)
Definition if_set {A : Type} (is_truthy : A -> bool) (v : option A)
    (k : A -> URLSearchParams -> URLSearchParams) (p : URLSearchParams) : URLSearchParams :=
  match v with
  | Some a => if is_truthy a then k a p else p
  | None => p
  end.

Definition hex_digit (n : nat) : ascii :=
  ascii_of_nat (if (n <? 10)%nat then 48 + n else 55 + n).

(** The [application/x-www-form-urlencoded] byte serializer: a space is a
    plus sign, letters, digits and [*-._] stand for themselves, any other
    byte is a percent sign and two upper-case hexadecimal digits.  Strings
    are taken as their bytes. *)
Definition urlencode_byte (c : ascii) : string :=
  if Ascii.eqb c " " then "+"
  else if JsString.is_upper c || JsString.is_lower c || JsString.is_digit c
          || JsString.has_char c "*-._"
  then String c EmptyString
  else String "%" (String (hex_digit (JsString.code c / 16))
                     (String (hex_digit (JsString.code c mod 16)) EmptyString)).

Fixpoint urlencode (s : string) : string :=
  match s with
  | EmptyString => EmptyString
  | String c r => urlencode_byte c ++ urlencode r
  end.

(** [URLSearchParams.prototype.toString] *)
Fixpoint URLSearchParams_toString (p : URLSearchParams) : string :=
  match p with
  | [] => EmptyString
  | [(name, value)] => urlencode name ++ "=" ++ urlencode value
  | (name, value) :: r =>
      urlencode name ++ "=" ++ urlencode value ++ "&" ++ URLSearchParams_toString r
  end.

Section WidgetURL.
Variable Number_toString : float -> string.

(** The parameters [createMoonPayWidgetURL] has appended when it returns. *)
Definition urlParams (options : MoonPayWidgetOptions) : URLSearchParams :=
  let p := append "apiKey" (wo_apiKey options) [] in
  let p := if_set JsString.truthy (wo_currencyCode options) (append "currencyCode") p in
  let p := if_set JsString.truthy (wo_baseCurrencyCode options) (append "baseCurrencyCode") p in
  let p := if_set JsNumber.truthy (wo_baseCurrencyAmount options)
             (fun a => append "baseCurrencyAmount" (Number_toString a)) p in
  let p := if_set JsString.truthy (wo_email options) (append "email") p in
  let p := if_set JsString.truthy (wo_walletAddress options) (append "walletAddress") p in
  let p := if_set JsString.truthy (wo_colorCode options) (append "colorCode") p in
  let p := if_set JsString.truthy (wo_redirectURL options) (append "redirectURL") p in
  let p := if_set (fun _ => true) (wo_showOnlyCurrencies options)
             (fun l => append "showOnlyCurrencies" (String.concat "," l)) p in
  let p := if_set JsString.truthy (wo_language options) (append "language") p in
  p.

Definition createMoonPayWidgetURL (options : MoonPayWidgetOptions) : string :=
  "https://buy.moonpay.com" ++ "?" ++ URLSearchParams_toString (urlParams options).
End WidgetURL.

(** The names [createMoonPayWidgetURL] can append, in the order of its
    statements. *)
Definition widget_parameter_names : list string :=
  [ "apiKey"; "currencyCode"; "baseCurrencyCode"; "baseCurrencyAmount"; "email";
    "walletAddress"; "colorCode"; "redirectURL"; "showOnlyCurrencies"; "language" ].

(** ** The on-ramp service's image table *)

Module MoonpayService.
Definition localImageMap : list (string * string) :=
  [ ("btc", "/src/images/crypto/bitcoin.png");
    ("eth", "/src/images/crypto/ethereum.png");
    ("sol", "/src/images/crypto/solana.png");
    ("usdc", "/src/images/crypto/usdc.png") ].

Definition getCryptoImageUrl (code : string) : jsval :=
  if String.eqb (JsString.toLowerCase code) "godd" then VStr "/src/images/main.png"
  else
    match if_truthy (table_get localImageMap (JsString.toLowerCase code)) with
    | Some v => v
    | None => VStr "/public/placeholder.svg"
    end.
End MoonpayService.

(** ** The widget's favourites and recent transactions *)

(** The transaction of a message of the on-ramp widget. *)
Record MoonPayTransaction := {
  mt_id : string;
  mt_baseCurrencyCode : string;
  mt_baseCurrencyAmount : float;
  mt_status : string
}.

(** An entry of the stored list; [tx_date] is the instant whose ISO text
    the code stores. *)
Record Transaction := {
  tx_id : string;
  tx_type : string;
  tx_crypto : string;
  tx_amount : float;
  tx_status : string;
  tx_date : Z
}.

Definition with_status (status : string) (t : Transaction) : Transaction :=
  {| tx_id := tx_id t; tx_type := tx_type t; tx_crypto := tx_crypto t;
     tx_amount := tx_amount t; tx_status := status; tx_date := tx_date t |}.

(** The two items of [localStorage] the widget uses: absent, or the list
    that was serialized into them. *)
Record LocalStorage := {
  compactCryptoFavorites : option (list string);
  compactCryptoTransactions : option (list Transaction)
}.

Record CompactCrypto := {
  favorites : list string;
  localStorage : LocalStorage
}.

(** [l.indexOf(x)], [None] for -1. *)
Fixpoint indexOf (l : list string) (x : string) : option nat :=
  match l with
  | [] => None
  | y :: r => if String.eqb y x then Some O else S <$> indexOf r x
  end.

(** [l.findIndex(p)], [None] for -1. *)
Fixpoint findIndex {A : Type} (p : A -> bool) (l : list A) : option nat :=
  match l with
  | [] => None
  | y :: r => if p y then Some O else S <$> findIndex p r
  end.

Definition getFavoritesFromStorage (s : LocalStorage) : list string :=
  default [] (compactCryptoFavorites s).

Definition saveFavoritesToStorage (w : CompactCrypto) : CompactCrypto :=
  {| favorites := favorites w;
     localStorage :=
       {| compactCryptoFavorites := Some (favorites w);
          compactCryptoTransactions := compactCryptoTransactions (localStorage w) |} |}.

(** The widget as its constructor leaves it. *)
Definition construct (s : LocalStorage) : CompactCrypto :=
  {| favorites := getFavoritesFromStorage s; localStorage := s |}.

Definition toggleFavorite (coinId : string) (w : CompactCrypto) : CompactCrypto :=
  let favorites' :=
    match indexOf (favorites w) coinId with
    | Some index => delete index (favorites w)
    | None => (favorites w ++ [coinId])%list
    end in
  saveFavoritesToStorage {| favorites := favorites'; localStorage := localStorage w |}.

Definition getTransactionsFromStorage (s : LocalStorage) : list Transaction :=
  default [] (compactCryptoTransactions s).

Definition saveTransactionsToStorage (transactions : list Transaction)
    (s : LocalStorage) : LocalStorage :=
  {| compactCryptoFavorites := compactCryptoFavorites s;
     compactCryptoTransactions := Some transactions |}.

(** [handleTransactionCreated] at the instant [date]. *)
Definition handleTransactionCreated (date : Z) (transaction : MoonPayTransaction)
    (s : LocalStorage) : LocalStorage :=
  let transactions := getTransactionsFromStorage s in
  let transactions :=
    {| tx_id := mt_id transaction; tx_type := "buy";
       tx_crypto := mt_baseCurrencyCode transaction;
       tx_amount := mt_baseCurrencyAmount transaction;
       tx_status := mt_status transaction; tx_date := date |} :: transactions in
  let transactions :=
    if (10 <? length transactions)%nat then take 10 transactions else transactions in
  saveTransactionsToStorage transactions s.

Definition handleTransactionUpdated (transaction : MoonPayTransaction)
    (s : LocalStorage) : LocalStorage :=
  let transactions := getTransactionsFromStorage s in
  match findIndex (fun t => String.eqb (tx_id t) (mt_id transaction)) transactions with
  | Some index =>
      saveTransactionsToStorage
        (alter (with_status (mt_status transaction)) index transactions) s
  | None => s
  end.

(** [s.includes(sub)] *)
Fixpoint includes (s sub : string) : bool :=
  String.prefix sub s
  || match s with
     | EmptyString => false
     | String _ r => includes r sub
     end.

(** What a message carries once it is parsed: one of the three types the
    handler knows with its transaction, some other type, or data the
    handler throws on (text that is not JSON, no transaction), which its
    [catch] absorbs. *)
Inductive MessageData :=
| moonpay_transaction_created (transaction : MoonPayTransaction)
| moonpay_transaction_updated (transaction : MoonPayTransaction)
| moonpay_widget_close
| other_type
| malformed.

Record MessageEvent := {
  origin : string;
  data : MessageData
}.

(** [handleMoonPayMessage] at the instant [date]. *)
Definition handleMoonPayMessage (date : Z) (event : MessageEvent)
    (s : LocalStorage) : LocalStorage :=
  if includes (origin event) "moonpay.com" then
    match data event with
    | moonpay_transaction_created transaction => handleTransactionCreated date transaction s
    | moonpay_transaction_updated transaction => handleTransactionUpdated transaction s
    | moonpay_widget_close | other_type | malformed => s
    end
  else s.

(** The messages of a session, each with the instant it arrives at. *)
Fixpoint handleMessages (events : list (Z * MessageEvent)) (s : LocalStorage) : LocalStorage :=
  match events with
  | [] => s
  | (date, event) :: r => handleMessages r (handleMoonPayMessage date event s)
  end.

(** * Properties *)

(** ** Format helpers *)

(** C9: the format helpers on the sample values: a price of 1234.5 is
    printed without decimals and with a thousands separator, 2.5 with two
    decimals, 0.0000456 with six; a change of -1.234 keeps its own sign and
    two decimals; 1.5e9 is printed in billions. This holds whatever the
    host prints for the numbers [toFixed] does not format itself. *)
Theorem format_helpers_samples (Number_toString : float -> string) :
  formatPrice Number_toString (Some 1234.5%float) = "$1,235"
  /\ formatPrice Number_toString (Some 2.5%float) = "$2.50"
  /\ formatPrice Number_toString (Some 0.0000456%float) = "$0.000046"
  /\ formatPriceChange Number_toString (Some (-1.234)%float) = "-1.23%"
  /\ formatCompactNumber Number_toString (Some 1.5e9%float) = "1.50B".
Proof. repeat split; vm_compute; reflexivity. Qed.

Lemma has_char_append c s1 s2 :
  JsString.has_char c (s1 ++ s2) = JsString.has_char c s1 || JsString.has_char c s2.
Proof.
  induction s1 as [| c1 r IH]; simpl; [done |].
  by rewrite IH, orb_assoc.
Qed.

Lemma digits_have_no_point (d : Decimal.uint) :
  JsString.has_char "." (NilEmpty.string_of_uint d) = false.
Proof. induction d; simpl; done. Qed.

Lemma of_Z_has_no_point z : 0 <= z -> JsString.has_char "." (JsString.of_Z z) = false.
Proof.
  intros Hz. unfold JsString.of_Z. destruct z as [| p | p]; [done | | lia].
  simpl. unfold NilZero.string_of_uint.
  pose proof (digits_have_no_point (Pos.to_uint p)) as H.
  by destruct (Pos.to_uint p).
Qed.

Lemma insert_group_commas_no_point prev s :
  JsString.has_char "." s = false ->
  JsString.has_char "." (JsNumber.insert_group_commas prev s) = false.
Proof.
  revert prev. induction s as [| c r IH]; intros prev Hs.
  - simpl. by destruct (JsNumber.group_boundary prev EmptyString).
  - simpl in Hs. apply orb_false_elim in Hs as [Hc Hr].
    cbn [JsNumber.insert_group_commas].
    destruct (JsNumber.group_boundary prev (String c r)); simpl;
      rewrite Hc, (IH (Some c) Hr); done.
Qed.

Lemma round_scaled_nonneg m e f : 0 <= JsNumber.round_scaled m e f.
Proof.
  unfold JsNumber.round_scaled.
  assert (0 <= Z.pos m * 10 ^ Z.of_nat f) by (apply Z.mul_nonneg_nonneg; lia).
  destruct (0 <=? e) eqn:E.
  - apply Z.mul_nonneg_nonneg; [done |]. apply Z.pow_nonneg. lia.
  - assert (0 < 2 ^ (- e)) by (apply Z.pow_pos_nonneg; lia).
    apply Z.div_pos; lia.
Qed.

(** A finite price of at least 1000, below the magnitude from which the
    host prints an exponent, is printed without a decimal point. *)
Lemma formatPrice_whole_from_1000 Number_toString price m e :
  Prim2SF price = S754_finite false m e ->
  PrimFloat.leb 1000 price = true ->
  PrimFloat.leb 1e21 (PrimFloat.abs price) = false ->
  formatPrice Number_toString (Some price)
  = "$" ++ JsNumber.insert_group_commas None (JsString.of_Z (JsNumber.round_scaled m e 0))
  /\ JsString.has_char "." (formatPrice Number_toString (Some price)) = false.
Proof.
  intros Hfin Hge Hlt.
  assert (E : formatPrice Number_toString (Some price)
              = "$" ++ JsNumber.insert_group_commas None
                         (JsString.of_Z (JsNumber.round_scaled m e 0))).
  { unfold formatPrice, JsNumber.toFixed. by rewrite Hge, Hfin, Hlt. }
  split; [exact E |]. rewrite E. simpl.
  apply insert_group_commas_no_point, of_Z_has_no_point, round_scaled_nonneg.
Qed.

(** ** Reasoning about computations *)

Section Preserves.
Context (R : World -> World -> Prop) `{!PreOrder R}.

Lemma preserves_ret {A} (a : A) : preserves R (ret a).
Proof. intros w o w' [= <- <-]. reflexivity. Qed.

Lemma preserves_throw {A} e : preserves R (@throw A e).
Proof. intros w o w' [= <- <-]. reflexivity. Qed.

Lemma preserves_bind {A B} (c : M A) (k : A -> M B) :
  preserves R c -> (forall a, preserves R (k a)) -> preserves R (bind c k).
Proof.
  intros Hc Hk w o w' Hrun. unfold bind in Hrun.
  destruct (c w) as [[a | e] w1] eqn:Hcw.
  - transitivity w1; [eapply Hc | eapply Hk]; eauto.
  - injection Hrun as <- <-. eapply Hc; eauto.
Qed.

Lemma preserves_try_catch {A} (c : M A) (h : exn -> M A) :
  preserves R c -> (forall e, preserves R (h e)) -> preserves R (try_catch c h).
Proof.
  intros Hc Hh w o w' Hrun. unfold try_catch in Hrun.
  destruct (c w) as [[a | e] w1] eqn:Hcw.
  - injection Hrun as <- <-. eapply Hc; eauto.
  - transitivity w1; [eapply Hc | eapply Hh]; eauto.
Qed.

Lemma preserves_lift {A} (f : World -> A * World) :
  (forall w, R w (snd (f w))) -> preserves R (lift f).
Proof.
  intros Hf w o w' Hrun. unfold lift in Hrun.
  specialize (Hf w). destruct (f w) as [a w1].
  injection Hrun as <- <-. exact Hf.
Qed.

Lemma preserves_update (f : World -> World) :
  (forall w, R w (f w)) -> preserves R (update f).
Proof. intros Hf w o w' [= <- <-]. apply Hf. Qed.

Lemma preserves_mapM {A B} (f : A -> M B) (xs : list A) :
  (forall x, preserves R (f x)) -> preserves R (mapM f xs).
Proof.
  intros Hf. induction xs as [| x r IH]; simpl.
  - apply preserves_ret.
  - apply preserves_bind; [apply Hf |]. intros y.
    apply preserves_bind; [apply IH |]. intros ys. apply preserves_ret.
Qed.

End Preserves.

Lemma total_ret {A} (a : A) : total (ret a).
Proof. intros w. eexists _, _. reflexivity. Qed.

Lemma total_bind {A B} (c : M A) (k : A -> M B) :
  total c -> (forall a, total (k a)) -> total (bind c k).
Proof.
  intros Hc Hk w. destruct (Hc w) as (a & w1 & Hcw).
  destruct (Hk a w1) as (b & w2 & Hkw).
  exists b, w2. unfold bind. rewrite Hcw. exact Hkw.
Qed.

Lemma total_lift {A} (f : World -> A * World) : total (lift f).
Proof. intros w. unfold lift. destruct (f w) as [a w1]. eexists _, _. reflexivity. Qed.

Lemma total_update (f : World -> World) : total (update f).
Proof. intros w. eexists _, _. reflexivity. Qed.

Lemma total_mapM {A B} (f : A -> M B) (xs : list A) :
  (forall x, total (f x)) -> total (mapM f xs).
Proof.
  intros Hf. induction xs as [| x r IH]; simpl.
  - apply total_ret.
  - apply total_bind; [apply Hf |]. intros y.
    apply total_bind; [apply IH |]. intros ys. apply total_ret.
Qed.

Lemma total_try_catch {A} (c : M A) (h : exn -> M A) :
  (forall e, total (h e)) -> total (try_catch c h).
Proof.
  intros Hh w. unfold try_catch.
  destruct (c w) as [[a | e] w1]; [eexists _, _; reflexivity | apply Hh].
Qed.

(** ** Strings *)

Lemma lower_char_idem c : JsString.lower_char (JsString.lower_char c) = JsString.lower_char c.
Proof. destruct c as [[] [] [] [] [] [] [] []]; reflexivity. Qed.

Lemma toLowerCase_idem s : JsString.toLowerCase (JsString.toLowerCase s) = JsString.toLowerCase s.
Proof.
  induction s as [| c r IH]; simpl; [reflexivity |].
  by rewrite lower_char_idem, IH.
Qed.

Lemma truthy_toLowerCase s : JsString.truthy (JsString.toLowerCase s) = JsString.truthy s.
Proof. by destruct s. Qed.

(** The letters of the Latin-1 supplement are folded as well, the
    multiplication sign between them is not. *)
Example toLowerCase_folds_latin1 :
  JsString.toLowerCase (String (ascii_of_nat 201) "CU") = String (ascii_of_nat 233) "cu"
  /\ JsString.toLowerCase (String (ascii_of_nat 215) "") = String (ascii_of_nat 215) "".
Proof. split; reflexivity. Qed.

(** The upper case of a letter may lie outside the one-byte code units,
    or be two letters. *)
Example toUpperCase_beyond_latin1 :
  JsString.toUpperCase (String (ascii_of_nat 233) "a") = [201%N; 65%N]
  /\ JsString.toUpperCase (String (ascii_of_nat 255) "") = [376%N]
  /\ JsString.toUpperCase (String (ascii_of_nat 181) "") = [924%N]
  /\ JsString.toUpperCase (String (ascii_of_nat 223) "") = [83%N; 83%N].
Proof. repeat split; reflexivity. Qed.

(** ** Image resolution *)

Section ImageFacts.
Variable key : string.

Lemma resolveImageUrl_static coinId url w :
  static_url coinId = Some url ->
  resolveImageUrl key coinId w = (url, with_cache (Cache.setImageUrl coinId url) w).
Proof.
  unfold static_url, resolveImageUrl. intros H.
  destruct (String.eqb coinId "godd"); [by injection H as <- |].
  destruct (if_truthy (table_get localImageMap coinId)); [by injection H as <- |].
  destruct (knownImageUrl coinId); [by injection H as <- | discriminate].
Qed.

Lemma resolveImageUrl_dynamic coinId w :
  static_url coinId = None ->
  resolveImageUrl key coinId w = (VStr (guessUrl coinId), after_guess key coinId w).
Proof.
  unfold static_url, resolveImageUrl. intros H.
  destruct (String.eqb coinId "godd"); [discriminate |].
  destruct (if_truthy (table_get localImageMap coinId)); [discriminate |].
  destruct (knownImageUrl coinId); [discriminate | reflexivity].
Qed.

Lemma if_truthy_Some v x : if_truthy v = Some x -> v = Some x /\ jsval_truthy x = true.
Proof.
  destruct v as [y |]; simpl; [| discriminate].
  destruct (jsval_truthy y) eqn:E; [| discriminate]. by intros [= <-].
Qed.

Lemma static_url_truthy coinId url : static_url coinId = Some url -> jsval_truthy url = true.
Proof.
  unfold static_url.
  destruct (String.eqb coinId "godd"); [by intros [= <-] |].
  destruct (if_truthy (table_get localImageMap coinId)) as [u |] eqn:E.
  - intros [= <-]. by apply if_truthy_Some in E as [_ ?].
  - unfold knownImageUrl.
    destruct (object_get knownImageMapping coinId) as [[id name] | |]; simpl;
      intros [= <-]; reflexivity.
Qed.

Lemma getCryptoImageUrl_empty code w :
  JsString.truthy code = false ->
  getCryptoImageUrl key code w = (VStr DEFAULT_PLACEHOLDER, w).
Proof. unfold getCryptoImageUrl. by intros ->. Qed.

Lemma getCryptoImageUrl_resolution code w :
  JsString.truthy code = true ->
  resolution key code w (fst (getCryptoImageUrl key code w))
    (snd (getCryptoImageUrl key code w)).
Proof.
  intros Hc. unfold getCryptoImageUrl. rewrite Hc. simpl.
  destruct (if_truthy _) as [u |] eqn:E.
  - apply if_truthy_Some in E as [??]. by apply res_cached.
  - destruct (static_url (JsString.toLowerCase code)) as [u |] eqn:Hs.
    + rewrite (resolveImageUrl_static _ _ _ Hs). by apply res_static.
    + rewrite (resolveImageUrl_dynamic _ _ Hs). by apply res_guess.
Qed.

End ImageFacts.

(** ** What the operations leave alone

    A relation between worlds that is a preorder and that every primitive
    effect respects is respected by the composite operations. *)

Section Frame.
Context (R : World -> World -> Prop) `{!PreOrder R}.
Variable key : string.
Variable net : Network.
Variable writable : string -> Prop.

Hypothesis R_image : forall code w, R w (snd (getCryptoImageUrl key code w)).
Hypothesis R_emit : forall e w, R w (emit e w).
Hypothesis R_elapse : forall d w, 0 <= d -> R w (elapse d w).
Hypothesis R_setApiData : forall k data w,
  writable k -> R w (with_cache (Cache.setApiData (now w) k data) w).

Lemma frame_axios_get {T} r (answer : nat -> reply T) :
  preserves R (axios_get net r answer).
Proof.
  intros w o w' Hrun. unfold axios_get in Hrun.
  assert (R w (elapse (Z.of_N (latency net (length (trace w)))) (emit (EvRequest r) w))).
  { etransitivity; [apply R_emit | apply R_elapse; lia]. }
  destruct (answer _); by injection Hrun as <- <-.
Qed.

Lemma frame_sleep ms : 0 <= ms -> preserves R (sleep ms).
Proof.
  intros Hms. apply preserves_update. intros w.
  etransitivity; [apply R_emit | by apply R_elapse].
Qed.

Lemma frame_fetchWithRetry_loop {T} remaining r (answer : nat -> reply T) retries :
  preserves R (fetchWithRetry_loop net remaining r answer retries).
Proof.
  revert retries. induction remaining as [| n IH]; intros retries; simpl;
    (apply preserves_try_catch; [exact _ | apply frame_axios_get |]);
    intros e; destruct (is_rate_limit_error e); try by apply preserves_throw.
  destruct (retries <? MAX_RETRIES)%nat; [| by apply preserves_throw].
  apply preserves_bind; [exact _ | by apply frame_sleep |]. intros _. apply IH.
Qed.

Lemma frame_image code : preserves R (lift (getCryptoImageUrl key code)).
Proof. apply preserves_lift. apply R_image. Qed.

Lemma frame_getFallbackCoins : preserves R (getFallbackCoins key).
Proof.
  unfold getFallbackCoins, fallbackCoin.
  repeat (apply preserves_bind; [exact _ | | intros ?]);
    try apply preserves_ret; try apply frame_image; done.
Qed.

Lemma frame_setApiData k data : writable k -> preserves R (setApiData k data).
Proof. intros Hk. apply preserves_update. intros w. by apply R_setApiData. Qed.

Lemma frame_fetchTopCoins currency limit :
  writable (topCoinsKey currency limit) ->
  preserves R (fetchTopCoins key net currency limit).
Proof.
  intros Hk. unfold fetchTopCoins.
  apply preserves_try_catch; [exact _ | | intros _; apply frame_getFallbackCoins].
  apply preserves_bind; [exact _ | |].
  { intros w o w' [= <- <-]. reflexivity. }
  intros [cached |]; [by apply preserves_ret |].
  apply preserves_try_catch; [exact _ | |].
  - apply preserves_bind; [exact _ | apply frame_fetchWithRetry_loop |]. intros data.
    apply preserves_bind; [exact _ | |].
    { apply preserves_mapM; [exact _ |]. intros c. unfold fromCoinGecko.
      apply preserves_bind; [exact _ | apply frame_image |]. intros ?. by apply preserves_ret. }
    intros coins. apply preserves_bind; [exact _ | by apply frame_setApiData |].
    intros _. by apply preserves_ret.
  - intros _. apply preserves_bind; [exact _ | apply frame_axios_get |]. intros data.
    apply preserves_bind; [exact _ | |].
    { apply preserves_mapM; [exact _ |]. intros c. unfold fromMoonPay.
      apply preserves_bind; [exact _ | apply frame_image |]. intros ?. by apply preserves_ret. }
    intros coins. apply preserves_bind; [exact _ | by apply frame_setApiData |].
    intros _. by apply preserves_ret.
Qed.

Lemma frame_searchCryptocurrencies query :
  preserves R (searchCryptocurrencies key net query).
Proof.
  unfold searchCryptocurrencies.
  destruct (_ || _); [by apply preserves_ret |].
  apply preserves_try_catch; [exact _ | | intros _; by apply preserves_ret].
  apply preserves_bind; [exact _ | apply frame_axios_get |].
  intros [coins |]; [| by apply preserves_ret].
  apply preserves_mapM; [exact _ |]. intros c. unfold withImages.
  apply preserves_bind; [exact _ | apply frame_image |]. intros ?.
  apply preserves_bind; [exact _ | apply frame_image |]. intros ?.
  by apply preserves_ret.
Qed.

End Frame.

(** The same for the pieces a session runs a call in. The relation need
    not hold for the sending of a detail lookup, which the listing and
    the search never do themselves, and it must not depend on which calls
    are suspended. *)
Section PieceFrame.
Context (R : World -> World -> Prop) `{!PreOrder R}.
Variable key : string.
Variable net : Network.
Variable writable : string -> Prop.

Hypothesis R_image : forall code w, R w (snd (getCryptoImageUrl key code w)).
Hypothesis R_emit : forall e w, is_detail_lookup e = false -> R w (emit e w).
Hypothesis R_setApiData : forall k data w,
  writable k -> R w (with_cache (Cache.setApiData (now w) k data) w).
Hypothesis R_calls : forall l w, R w (set_calls l w).

Lemma piece_send_markets currency limit retries w :
  R w (send_markets currency limit retries w).
Proof.
  unfold send_markets, add_call.
  transitivity (emit (EvRequest (GetMarkets currency limit)) w);
    [by apply R_emit | apply R_calls].
Qed.

Lemma piece_send_currencies currency limit w :
  R w (send_currencies currency limit w).
Proof.
  unfold send_currencies, add_call.
  transitivity (emit (EvRequest (GetCurrencies limit)) w);
    [by apply R_emit | apply R_calls].
Qed.

Lemma piece_settled {T} (r : reply T) : preserves R (settled r).
Proof. destruct r; [apply preserves_ret | apply preserves_throw]; exact _. Qed.

Lemma piece_store {A} cacheKey (convert : A -> M CoinData) data :
  writable cacheKey ->
  (forall x, preserves R (convert x)) ->
  preserves R (cacheCoins cacheKey convert data).
Proof.
  intros Hk Hconv. unfold cacheCoins.
  apply preserves_bind; [exact _ | apply preserves_mapM; [exact _ | exact Hconv] |].
  intros coins.
  apply preserves_bind; [exact _ | | intros _; apply preserves_ret; exact _].
  apply preserves_update. intros w. by apply R_setApiData.
Qed.

Lemma piece_convert code (k : jsval -> M CoinData) :
  (forall image, preserves R (k image)) ->
  preserves R (bind (lift (getCryptoImageUrl key code)) k).
Proof.
  intros Hk. apply preserves_bind; [exact _ | | exact Hk].
  apply preserves_lift. apply R_image.
Qed.

Lemma piece_fetchTopCoins_start currency limit w :
  R w (snd (fetchTopCoins_start currency limit w)).
Proof.
  unfold fetchTopCoins_start. destruct (Cache.getApiData _ _ _); [reflexivity |].
  apply piece_send_markets.
Qed.

Lemma piece_fetchTopCoins_resume currency limit a w :
  writable (topCoinsKey currency limit) ->
  R w (snd (fetchTopCoins_resume key net currency limit a w)).
Proof.
  intros Hk. destruct a as [retries sent | retries due | sent]; cbn [fetchTopCoins_resume].
  - destruct (markets_reply net sent currency limit) as [data | st].
    + pose proof (piece_store (topCoinsKey currency limit) (fromCoinGecko key) data Hk) as Hs.
      unfold cacheCoins in Hs.
      destruct (bind _ _ w) as [[coins | e] w'] eqn:E; cbn [snd].
      * eapply Hs; [| exact E]. intros c. apply piece_convert. intros image.
        apply preserves_ret. exact _.
      * transitivity w'; [| apply piece_send_currencies].
        eapply Hs; [| exact E]. intros c. apply piece_convert. intros image.
        apply preserves_ret. exact _.
    + destruct (_ && _); cbn [snd]; [| apply piece_send_currencies].
      unfold add_call. transitivity (emit (EvTimer API_BACKOFF_MS) w);
        [by apply R_emit | apply R_calls].
  - apply piece_send_markets.
  - destruct (try_catch _ _ w) as [o w'] eqn:E. cbn [snd].
    revert E. apply preserves_try_catch; [exact _ | |].
    + apply preserves_bind; [exact _ | apply piece_settled |]. intros data.
      apply (piece_store (topCoinsKey currency limit) (fromMoonPay key) data Hk).
      intros c. apply piece_convert. intros image. apply preserves_ret. exact _.
    + intros _. by apply (frame_getFallbackCoins _ key).
Qed.

Lemma piece_searchCryptocurrencies_start query w :
  R w (snd (searchCryptocurrencies_start query w)).
Proof.
  unfold searchCryptocurrencies_start. destruct (_ || _); [reflexivity |].
  cbn [snd]. unfold add_call.
  transitivity (emit (EvRequest (GetSearch query)) w); [by apply R_emit | apply R_calls].
Qed.

Lemma piece_searchCryptocurrencies_resume query sent :
  preserves R (searchCryptocurrencies_resume key net query sent).
Proof.
  unfold searchCryptocurrencies_resume.
  apply preserves_try_catch; [exact _ | | intros _; apply preserves_ret; exact _].
  apply preserves_bind; [exact _ | apply piece_settled |].
  intros [coins |]; [| apply preserves_ret; exact _].
  apply preserves_mapM; [exact _ |]. intros c. unfold withImages.
  apply preserves_bind; [exact _ | apply preserves_lift, R_image |]. intros ?.
  apply preserves_bind; [exact _ | apply preserves_lift, R_image |]. intros ?.
  apply preserves_ret. exact _.
Qed.

(** A suspended call is taken off the list and goes on. *)
Lemma piece_listing_goes_on currency limit a l w :
  writable (topCoinsKey currency limit) ->
  R w (snd (fetchTopCoins_resume key net currency limit a (set_calls l w))).
Proof.
  intros Hk. transitivity (set_calls l w);
    [apply R_calls | by apply piece_fetchTopCoins_resume].
Qed.

Lemma piece_search_goes_on query sent l w :
  R w (snd (searchCryptocurrencies_resume key net query sent (set_calls l w))).
Proof.
  transitivity (set_calls l w); [apply R_calls |].
  destruct (searchCryptocurrencies_resume _ _ _ _ _) as [o w'] eqn:E. cbn [snd].
  eapply piece_searchCryptocurrencies_resume, E.
Qed.

End PieceFrame.

(** ** The relations that the session respects *)

#[local] Instance blacklist_grows_preorder : PreOrder blacklist_grows.
Proof.
  split.
  - intros w. unfold blacklist_grows. set_solver.
  - intros w1 w2 w3. unfold blacklist_grows. set_solver.
Qed.

#[local] Instance clock_advances_preorder : PreOrder clock_advances.
Proof. split; unfold clock_advances; [intros w | intros w1 w2 w3]; lia. Qed.

#[local] Instance keeps_entry_preorder k : PreOrder (keeps_entry k).
Proof.
  split; unfold keeps_entry; [intros w | intros w1 w2 w3]; [done |].
  intros -> ->. done.
Qed.

#[local] Instance keeps_inv_preorder : PreOrder keeps_inv.
Proof. split; unfold keeps_inv; [intros w | intros w1 w2 w3]; tauto. Qed.

Section ImageFrame.
Variable key : string.

(** The fields of the world after the dynamic branch. *)
Lemma after_guess_now coinId w : now (after_guess key coinId w) = now w.
Proof.
  unfold after_guess, tryFetchCoinData_start.
  repeat (case_match; simpl); reflexivity.
Qed.

Lemma after_guess_imageCache coinId w :
  imageCache (cache (after_guess key coinId w))
  = <[JsString.toLowerCase coinId := VStr (guessUrl coinId)]> (imageCache (cache w)).
Proof.
  unfold after_guess, tryFetchCoinData_start.
  repeat (case_match; simpl); reflexivity.
Qed.

Lemma after_guess_apiCache coinId w :
  apiCache (cache (after_guess key coinId w)) = apiCache (cache w).
Proof.
  unfold after_guess, tryFetchCoinData_start.
  repeat (case_match; simpl); reflexivity.
Qed.

Lemma after_guess_rateLimitedUntil coinId w :
  rateLimitedUntil (cache (after_guess key coinId w)) = rateLimitedUntil (cache w).
Proof.
  unfold after_guess, tryFetchCoinData_start.
  repeat (case_match; simpl); reflexivity.
Qed.

Lemma after_guess_blacklist coinId w :
  coinBlacklist (cache w) ⊆ coinBlacklist (cache (after_guess key coinId w)).
Proof.
  unfold after_guess, tryFetchCoinData_start.
  repeat (case_match; simpl); set_solver.
Qed.

Lemma after_guess_inflight coinId w :
  inflight (after_guess key coinId w) = inflight w
  \/ inflight (after_guess key coinId w) = (inflight w ++ [coinId])%list.
Proof.
  unfold after_guess, tryFetchCoinData_start.
  repeat (case_match; simpl); auto.
Qed.

Lemma after_guess_probing coinId w :
  probing (after_guess key coinId w) = (probing w ++ [(coinId, 0%nat)])%list.
Proof.
  unfold after_guess, tryFetchCoinData_start.
  repeat (case_match; simpl); reflexivity.
Qed.

(** A call either leaves the world as it is, or caches a static URL, or
    takes the dynamic branch. *)
Lemma getCryptoImageUrl_world code w :
  snd (getCryptoImageUrl key code w) = w
  \/ (exists url, static_url (JsString.toLowerCase code) = Some url
        /\ snd (getCryptoImageUrl key code w)
           = with_cache (Cache.setImageUrl (JsString.toLowerCase code) url) w)
  \/ (static_url (JsString.toLowerCase code) = None
        /\ snd (getCryptoImageUrl key code w)
           = after_guess key (JsString.toLowerCase code) w).
Proof.
  destruct (JsString.truthy code) eqn:Hc.
  - destruct (getCryptoImageUrl_resolution key code w Hc); eauto.
  - left. by rewrite getCryptoImageUrl_empty.
Qed.

Lemma image_blacklist_grows code w :
  blacklist_grows w (snd (getCryptoImageUrl key code w)).
Proof.
  destruct (getCryptoImageUrl_world code w) as [-> | [(url & _ & ->) | [_ ->]]].
  - reflexivity.
  - unfold blacklist_grows. simpl. set_solver.
  - apply after_guess_blacklist.
Qed.

Lemma image_now code w : now (snd (getCryptoImageUrl key code w)) = now w.
Proof.
  destruct (getCryptoImageUrl_world code w) as [-> | [(url & _ & ->) | [_ ->]]];
    [done | done | apply after_guess_now].
Qed.

Lemma image_clock_advances code w :
  clock_advances w (snd (getCryptoImageUrl key code w)).
Proof. unfold clock_advances. rewrite image_now. lia. Qed.

Lemma image_keeps_entry k code w :
  keeps_entry k w (snd (getCryptoImageUrl key code w)).
Proof.
  unfold keeps_entry.
  destruct (getCryptoImageUrl_world code w) as [-> | [(url & _ & ->) | [_ ->]]];
    [done | done | by rewrite after_guess_apiCache].
Qed.

Lemma image_rateLimitedUntil code w :
  rateLimitedUntil (cache (snd (getCryptoImageUrl key code w))) = rateLimitedUntil (cache w).
Proof.
  destruct (getCryptoImageUrl_world code w) as [-> | [(url & _ & ->) | [_ ->]]];
    [done | done | apply after_guess_rateLimitedUntil].
Qed.

Lemma image_keeps_inv code w :
  keeps_inv w (snd (getCryptoImageUrl key code w)).
Proof.
  intros (Ha & Hb & Hc).
  destruct (getCryptoImageUrl_world code w) as [-> | [(url & Hs & ->) | [Hs ->]]].
  - done.
  - split; [| done]. simpl. intros k v u Hk Hu.
    rewrite toLowerCase_idem in Hk.
    destruct (decide (JsString.toLowerCase code = k)) as [<- | Hne].
    + rewrite lookup_insert_eq in Hk. congruence.
    + rewrite lookup_insert_ne in Hk by done. eauto.
  - split; [| split].
    + rewrite after_guess_imageCache, toLowerCase_idem. intros k v u Hk Hu.
      destruct (decide (JsString.toLowerCase code = k)) as [<- | Hne].
      * congruence.
      * rewrite lookup_insert_ne in Hk by done. eauto.
    + intros coinId Hin.
      destruct (after_guess_inflight (JsString.toLowerCase code) w) as [E | E];
        rewrite E in Hin; [eauto |].
      apply elem_of_app in Hin as [Hin | Hin]; [eauto |].
      apply list_elem_of_singleton in Hin as ->. by rewrite toLowerCase_idem.
    + intros coinId stage Hin. rewrite after_guess_probing in Hin.
      apply elem_of_app in Hin as [Hin | Hin]; [eauto |].
      apply list_elem_of_singleton in Hin as [= -> ->]. by rewrite toLowerCase_idem.
Qed.

End ImageFrame.

Lemma elem_of_remove_one {A} `{EqDecision A} (x y : A) (l : list A) :
  x ∈ remove_one y l -> x ∈ l.
Proof.
  induction l as [| z r IH]; simpl; [done |].
  destruct (decide (y = z)); rewrite ?elem_of_cons; [auto |].
  intros [-> | Hin]; auto.
Qed.

Lemma preserves_snd {A} (R : World -> World -> Prop) (c : M A) w :
  preserves R c -> R w (snd (c w)).
Proof. intros Hc. destruct (c w) as [o w'] eqn:E. simpl. eapply Hc, E. Qed.

Section SessionFacts.
Variable key : string.
Variable net : Network.

Lemma resume_blacklist_grows coinId r w :
  blacklist_grows w (tryFetchCoinData_resume coinId r w).
Proof.
  unfold blacklist_grows, tryFetchCoinData_resume.
  repeat (case_match; simpl); set_solver.
Qed.

Lemma resume_now coinId r w : now (tryFetchCoinData_resume coinId r w) = now w.
Proof. unfold tryFetchCoinData_resume. repeat (case_match; simpl); reflexivity. Qed.

Lemma resume_pending coinId r w :
  inflight (tryFetchCoinData_resume coinId r w) = inflight w
  /\ probing (tryFetchCoinData_resume coinId r w) = probing w.
Proof. unfold tryFetchCoinData_resume. repeat (case_match; simpl); done. Qed.

Lemma resume_imageCache coinId r w :
  imageCache (cache (tryFetchCoinData_resume coinId r w)) = imageCache (cache w)
  \/ exists url,
       imageCache (cache (tryFetchCoinData_resume coinId r w))
       = <[JsString.toLowerCase coinId := url]> (imageCache (cache w)).
Proof. unfold tryFetchCoinData_resume. repeat (case_match; simpl); eauto. Qed.

Lemma event_blacklist coinId stage loaded w :
  coinBlacklist (cache (onImageEvent coinId stage loaded w)) = coinBlacklist (cache w).
Proof. unfold onImageEvent. repeat (case_match; simpl); reflexivity. Qed.

Lemma event_now coinId stage loaded w : now (onImageEvent coinId stage loaded w) = now w.
Proof. unfold onImageEvent. repeat (case_match; simpl); reflexivity. Qed.

Lemma event_imageCache coinId stage loaded w :
  imageCache (cache (onImageEvent coinId stage loaded w)) = imageCache (cache w)
  \/ exists url,
       imageCache (cache (onImageEvent coinId stage loaded w))
       = <[JsString.toLowerCase coinId := url]> (imageCache (cache w)).
Proof. unfold onImageEvent. repeat (case_match; simpl); eauto. Qed.

Lemma event_pending coinId stage loaded w :
  inflight (onImageEvent coinId stage loaded w) = inflight w
  /\ (probing (onImageEvent coinId stage loaded w) = probing w
      \/ exists stage',
           probing (onImageEvent coinId stage loaded w)
           = (probing w ++ [(coinId, stage')])%list).
Proof. unfold onImageEvent. repeat (case_match; simpl); eauto. Qed.

(** Writing one key of the image cache keeps the invariant when the
    identifier has no static URL. *)
Lemma inv_insert_dynamic (m m' : gmap string jsval) coinId :
  static_url (JsString.toLowerCase coinId) = None ->
  (m' = m \/ exists url, m' = <[JsString.toLowerCase coinId := url]> m) ->
  (forall k v u, m !! k = Some v -> static_url k = Some u -> v = u) ->
  forall k v u, m' !! k = Some v -> static_url k = Some u -> v = u.
Proof.
  intros Hs [-> | [url ->]] Hm k v u Hk Hu; [eauto |].
  destruct (decide (JsString.toLowerCase coinId = k)) as [<- | Hne]; [congruence |].
  rewrite lookup_insert_ne in Hk by done. eauto.
Qed.

Lemma step_blacklist_grows w w' : step key net w w' -> blacklist_grows w w'.
Proof.
  destruct 1.
  - apply image_blacklist_grows.
  - etransitivity; [| apply resume_blacklist_grows]. by unfold blacklist_grows.
  - unfold blacklist_grows. by rewrite event_blacklist.
  - apply piece_fetchTopCoins_start; try (by intros; unfold blacklist_grows); exact _.
  - apply (piece_listing_goes_on _ key net (fun _ => True));
      try (by intros; unfold blacklist_grows).
    apply image_blacklist_grows.
  - apply piece_searchCryptocurrencies_start;
      try (by intros; unfold blacklist_grows); exact _.
  - apply (piece_search_goes_on _ key net);
      try (by intros; unfold blacklist_grows).
    apply image_blacklist_grows.
  - by unfold blacklist_grows.
  - by unfold blacklist_grows.
  - by unfold blacklist_grows.
  - by unfold blacklist_grows.
Qed.

Lemma step_clock_advances w w' : step key net w w' -> clock_advances w w'.
Proof.
  destruct 1.
  - apply image_clock_advances.
  - unfold clock_advances. rewrite resume_now. simpl. lia.
  - unfold clock_advances. rewrite event_now. simpl. lia.
  - apply piece_fetchTopCoins_start;
      try exact _; unfold clock_advances; simpl; intros; lia.
  - apply (piece_listing_goes_on _ key net (fun _ => True));
      try done; unfold clock_advances; simpl; intros; try lia.
    apply image_clock_advances.
  - apply piece_searchCryptocurrencies_start;
      try exact _; unfold clock_advances; simpl; intros; lia.
  - apply (piece_search_goes_on _ key net);
      try done; unfold clock_advances; simpl; intros; try lia.
    apply image_clock_advances.
  - unfold clock_advances. simpl. lia.
  - unfold clock_advances. simpl. lia.
  - unfold clock_advances. simpl. lia.
  - unfold clock_advances, API_BACKOFF_MS. simpl. lia.
Qed.

Lemma step_keeps_inv w w' : step key net w w' -> keeps_inv w w'.
Proof.
  destruct 1 as [code w | coinId r w Hin | coinId stage loaded w Hin
                | currency limit w | currency limit a l1 l2 w Hcalls Hready
                | query w | query sent l1 l2 w Hcalls
                | w | d w Hd | r d w Hr Hd | w].
  - apply image_keeps_inv.
  - intros (Ha & Hb & Hc).
    set (w0 := set_inflight (remove_one coinId (inflight w)) w).
    destruct (resume_pending coinId r w0) as [Ei Ep].
    split; [| split].
    + eapply inv_insert_dynamic; [by apply Hb | apply resume_imageCache | exact Ha].
    + rewrite Ei. simpl. intros c Hc'. apply Hb. by eapply elem_of_remove_one.
    + rewrite Ep. exact Hc.
  - intros (Ha & Hb & Hc).
    set (w0 := set_probing (remove_one (coinId, stage) (probing w)) w).
    destruct (event_pending coinId stage loaded w0) as [Ei Ep].
    split; [| split].
    + eapply inv_insert_dynamic; [by eapply Hc | apply event_imageCache | exact Ha].
    + rewrite Ei. exact Hb.
    + intros c st Hin'. destruct Ep as [Ep | [stage' Ep]]; rewrite Ep in Hin'.
      * simpl in Hin'. eapply Hc. by eapply elem_of_remove_one.
      * apply elem_of_app in Hin' as [Hin' | Hin'].
        -- simpl in Hin'. eapply Hc. by eapply elem_of_remove_one.
        -- apply list_elem_of_singleton in Hin' as [= -> ->]. by eapply Hc.
  - apply piece_fetchTopCoins_start;
      try (by intros; unfold keeps_inv, image_inv); exact _.
  - apply (piece_listing_goes_on _ key net (fun _ => True));
      try (by intros; unfold keeps_inv, image_inv).
    apply image_keeps_inv.
  - apply piece_searchCryptocurrencies_start;
      try (by intros; unfold keeps_inv, image_inv); exact _.
  - apply (piece_search_goes_on _ key net);
      try (by intros; unfold keeps_inv, image_inv).
    apply image_keeps_inv.
  - by unfold keeps_inv, image_inv.
  - by unfold keeps_inv, image_inv.
  - by unfold keeps_inv, image_inv.
  - by unfold keeps_inv, image_inv.
Qed.

Lemma initial_inv t0 : image_inv (initial t0).
Proof.
  split; [| split]; simpl.
  - intros k v u Hk. by rewrite lookup_empty in Hk.
  - intros c Hc. by apply elem_of_nil in Hc.
  - intros c st Hc. by apply elem_of_nil in Hc.
Qed.

Lemma rtc_keeps_inv w w' : rtc (step key net) w w' -> image_inv w -> image_inv w'.
Proof.
  induction 1 as [| w1 w2 w3 Hstep _ IH]; [done |].
  intros Hinv. apply IH. by apply (step_keeps_inv _ _ Hstep).
Qed.

Lemma reachable_inv w : reachable key net w -> image_inv w.
Proof. intros [t0 Hrun]. eapply rtc_keeps_inv; [exact Hrun | apply initial_inv]. Qed.

Lemma rtc_blacklist_grows w w' : rtc (step key net) w w' -> blacklist_grows w w'.
Proof.
  induction 1 as [| w1 w2 w3 Hstep _ IH]; [reflexivity |].
  etransitivity; [by apply step_blacklist_grows | exact IH].
Qed.

Lemma rtc_clock_advances w w' : rtc (step key net) w w' -> clock_advances w w'.
Proof.
  induction 1 as [| w1 w2 w3 Hstep _ IH]; [reflexivity |].
  etransitivity; [by apply step_clock_advances | exact IH].
Qed.

End SessionFacts.

(** ** Image resolution: the claims *)

Lemma getImageUrl_after_call key code w :
  JsString.truthy code = true ->
  Cache.getImageUrl code (cache (snd (getCryptoImageUrl key code w)))
    = Some (fst (getCryptoImageUrl key code w))
  /\ jsval_truthy (fst (getCryptoImageUrl key code w)) = true.
Proof.
  intros Hc. unfold Cache.getImageUrl.
  destruct (getCryptoImageUrl_resolution key code w Hc) as [url Hu Ht | url Hs | Hs].
  - unfold Cache.getImageUrl in Hu. by rewrite toLowerCase_idem in Hu.
  - simpl. rewrite toLowerCase_idem, lookup_insert_eq.
    split; [done | by eapply static_url_truthy].
  - rewrite after_guess_imageCache, toLowerCase_idem, lookup_insert_eq. done.
Qed.

Lemma getCryptoImageUrl_hit key code url w :
  JsString.truthy code = true ->
  Cache.getImageUrl code (cache w) = Some url ->
  jsval_truthy url = true ->
  getCryptoImageUrl key code w = (url, w).
Proof.
  intros Hc Hu Ht. unfold getCryptoImageUrl, Cache.getImageUrl in *.
  rewrite Hc, toLowerCase_idem, Hu. simpl. by rewrite Ht.
Qed.





(** C8: in every world a session can reach, [getCryptoImageUrl('bitcoin')]
    returns the path of the local table, and it does so at once: no
    request is sent, no detail lookup and no image preload is started, and
    no time passes. *)
Theorem bitcoin_resolves_from_local_table key net w :
  reachable key net w ->
  let result := getCryptoImageUrl key "bitcoin" w in
  fst result = VStr "/src/images/crypto/bitcoin.png"
  /\ trace (snd result) = trace w
  /\ inflight (snd result) = inflight w
  /\ probing (snd result) = probing w
  /\ now (snd result) = now w.
Proof.
  intros Hreach result. subst result.
  destruct (reachable_inv _ _ _ Hreach) as (Ha & _ & _).
  assert (Hs : static_url "bitcoin" = Some (VStr "/src/images/crypto/bitcoin.png"))
    by reflexivity.
  assert (El : JsString.toLowerCase "bitcoin" = "bitcoin") by reflexivity.
  destruct (getCryptoImageUrl_resolution key "bitcoin" w eq_refl) as [url Hu Ht | url Hs' | Hs'].
  - split; [| done]. unfold Cache.getImageUrl in Hu. rewrite !El in Hu.
    eapply Ha; [exact Hu | exact Hs].
  - rewrite El, Hs in Hs'. injection Hs' as <-. done.
  - rewrite El, Hs in Hs'. discriminate.
Qed.

Lemma api_requests_app (l1 l2 : list event) :
  api_requests (l1 ++ l2) = (api_requests l1 ++ api_requests l2)%list.
Proof. unfold api_requests. apply List.filter_app. Qed.

Lemma shouldTryApiCall_blacklisted t code c :
  JsString.toLowerCase code ∈ coinBlacklist c ->
  Cache.shouldTryApiCall t code c = false.
Proof.
  intros Hin. unfold Cache.shouldTryApiCall, Cache.isBlacklisted.
  rewrite toLowerCase_idem, (bool_decide_eq_true_2 _ Hin).
  by rewrite orb_true_r.
Qed.

Lemma shouldTryApiCall_rate_limited t code c :
  Cache.isRateLimited t c = true ->
  Cache.shouldTryApiCall t code c = false.
Proof. intros Hg. unfold Cache.shouldTryApiCall. by rewrite Hg. Qed.

(** When the provider may not be called for an identifier, resolving its
    image sends no provider request and starts no detail lookup. *)
Lemma getCryptoImageUrl_no_request key code w :
  Cache.shouldTryApiCall (now w) (JsString.toLowerCase code) (cache w) = false ->
  api_requests (trace (snd (getCryptoImageUrl key code w))) = api_requests (trace w)
  /\ inflight (snd (getCryptoImageUrl key code w)) = inflight w.
Proof.
  intros Hno.
  destruct (getCryptoImageUrl_world key code w) as [-> | [(url & _ & ->) | [_ ->]]];
    [done | done |].
  unfold after_guess. rewrite Hno, andb_false_r. simpl.
  rewrite api_requests_app. simpl. by rewrite app_nil_r.
Qed.

(** C6: a not-found response (404 or 400) to the detail lookup of an
    identifier puts the identifier on the blacklist; whatever happens in the
    session afterwards, it stays there, [shouldTryApiCall] is false for it
    (in any letter case), and resolving its image sends no provider request
    and starts no detail lookup. *)
Theorem not_found_blacklists_for_the_session key net coinId response w w' code :
  status response = 404 \/ status response = 400 ->
  rtc (step key net) (tryFetchCoinData_resume coinId (Responded response) w) w' ->
  JsString.toLowerCase code = JsString.toLowerCase coinId ->
  Cache.isBlacklisted coinId
    (cache (tryFetchCoinData_resume coinId (Responded response) w)) = true
  /\ Cache.isBlacklisted code (cache w') = true
  /\ Cache.shouldTryApiCall (now w') code (cache w') = false
  /\ api_requests (trace (snd (getCryptoImageUrl key code w'))) = api_requests (trace w')
  /\ inflight (snd (getCryptoImageUrl key code w')) = inflight w'.
Proof.
  intros Hst Hrun Hcode.
  assert (Hadd : JsString.toLowerCase coinId
                 ∈ coinBlacklist (cache (tryFetchCoinData_resume coinId (Responded response) w))).
  { unfold tryFetchCoinData_resume.
    destruct Hst as [-> | ->]; simpl; set_solver. }
  assert (Hlater : JsString.toLowerCase code ∈ coinBlacklist (cache w')).
  { rewrite Hcode. by apply (rtc_blacklist_grows _ _ _ _ Hrun). }
  split; [by apply bool_decide_eq_true_2 |].
  split; [by apply bool_decide_eq_true_2 |].
  split; [by apply shouldTryApiCall_blacklisted |].
  apply getCryptoImageUrl_no_request.
  apply shouldTryApiCall_blacklisted. by rewrite toLowerCase_idem.
Qed.

Lemma not_found_blacklists_for_the_session_witness :
  let w1 := after_detail (Responded not_found) in
  let w' := elapse 3600000 w1 in
  Cache.isBlacklisted "moon-cat" (cache w1) = true
  /\ Cache.isBlacklisted "MOON-cat" (cache w') = true
  /\ Cache.shouldTryApiCall (now w') "MOON-cat" (cache w') = false
  /\ api_requests (trace (snd (getCryptoImageUrl "k" "MOON-cat" w'))) = api_requests (trace w')
  /\ inflight (snd (getCryptoImageUrl "k" "MOON-cat" w')) = inflight w'.
Proof.
  apply (not_found_blacklists_for_the_session "k" net_down "moon-cat" not_found
           (set_inflight (remove_one "moon-cat" (inflight awaiting_detail)) awaiting_detail)).
  - left. reflexivity.
  - apply rtc_once. apply step_time. lia.
  - reflexivity.
Defined.

(** ** The rate-limit gate *)





(** The hint of the amended claim at work: 120 seconds. *)
Example gate_follows_the_hint :
  let w := initial 1000 in
  let w' := tryFetchCoinData_resume "moon-cat"
              (Responded (too_many_requests (Some "120"))) w in
  JsString.parseInt "120" = Some (Binary64.Finite 120)
  /\ rateLimitedUntil (cache w') = Binary64.Finite (1000 + 120 * 1000).
Proof. split; reflexivity. Qed.

(** Beyond 2^53 the deadline is what binary64 rounds to, not the sum. *)
Example gate_deadline_is_rounded :
  let w := initial 1000 in
  let w' := tryFetchCoinData_resume "moon-cat"
              (Responded (too_many_requests (Some "9007199254740993"))) w in
  rateLimitedUntil (cache w') = Binary64.Finite 9007199254740993024.
Proof. vm_compute. reflexivity. Qed.

(** ** Retries *)

Section Retry.
Variable net : Network.
Local Open Scope js_scope.

(** The recursion on [remaining] computes the function the source defines
    by recursion on [retries]. *)
Lemma fetchWithRetry_unfold {T} r (answer : nat -> reply T) retries w :
  fetchWithRetry net r answer retries w
  = try_catch (axios_get net r answer)
      (fun error =>
         if is_rate_limit_error error then
           if (retries <? MAX_RETRIES)%nat then
             sleep API_BACKOFF_MS ;;; fetchWithRetry net r answer (retries + 1)
           else throw error
         else throw error) w.
Proof.
  unfold fetchWithRetry.
  destruct (MAX_RETRIES - retries)%nat as [| n] eqn:E; simpl; unfold try_catch.
  - destruct (axios_get net r answer w) as [[a | e] w1]; [done |].
    destruct (is_rate_limit_error e); [| done].
    destruct (Nat.ltb_spec retries MAX_RETRIES); [lia | done].
  - destruct (axios_get net r answer w) as [[a | e] w1]; [done |].
    destruct (is_rate_limit_error e); [| done].
    destruct (Nat.ltb_spec retries MAX_RETRIES); [| done].
    replace (MAX_RETRIES - (retries + 1))%nat with n by lia. done.
Qed.

(** A reply that is data ends the call at the first attempt. *)
Lemma fetchWithRetry_resolved {T} r (answer : nat -> reply T) retries w data :
  answer (length (trace w)) = Resolved data ->
  fetchWithRetry net r answer retries w
  = (Returned data, elapse (Z.of_N (latency net (length (trace w)))) (emit (EvRequest r) w)).
Proof.
  intros H. rewrite fetchWithRetry_unfold. unfold try_catch, axios_get. by rewrite H.
Qed.

(** A rejection that is not a 429 is thrown at once: one request, no timer. *)
Lemma fetchWithRetry_not_retried {T} r (answer : nat -> reply T) retries w st :
  answer (length (trace w)) = Rejected st ->
  st <> Some 429 ->
  fetchWithRetry net r answer retries w
  = (Thrown (AxiosError st),
     elapse (Z.of_N (latency net (length (trace w)))) (emit (EvRequest r) w)).
Proof.
  intros H Hst. rewrite fetchWithRetry_unfold. unfold try_catch, axios_get. rewrite H.
  destruct st as [s |]; simpl; [| done].
  destruct (Z.eqb_spec s 429); [congruence | done].
Qed.

(** Under permanent 429 replies the call makes four attempts, two seconds
    apart, and then throws. *)
Lemma fetchWithRetry_rate_limited {T} r (answer : nat -> reply T) w :
  (forall i, answer i = Rejected (Some 429)) ->
  exists w',
    fetchWithRetry net r answer 0 w = (Thrown (AxiosError (Some 429)), w')
    /\ trace w' = (trace w ++ [ EvRequest r; EvTimer 2000; EvRequest r; EvTimer 2000;
                               EvRequest r; EvTimer 2000; EvRequest r ])%list.
Proof.
  intros H. eexists. split.
  - unfold fetchWithRetry. simpl.
    unfold try_catch, axios_get, bind, sleep, update.
    repeat (rewrite H; simpl). reflexivity.
  - simpl. by rewrite <- !app_assoc.
Qed.

(** Whatever the replies, the call sends its first request at once. *)
Lemma fetchWithRetry_first_request {T} r (answer : nat -> reply T) retries w :
  exists rest,
    trace (snd (fetchWithRetry net r answer retries w))
    = (trace w ++ EvRequest r :: rest)%list.
Proof.
  assert (Hx : preserves trace_extends
                 (fetchWithRetry net r answer (retries + 1))).
  { unfold fetchWithRetry. apply frame_fetchWithRetry_loop.
    - split; [intros x; exists []; by rewrite app_nil_r |].
      intros x y z [r1 H1] [r2 H2]. exists (r1 ++ r2)%list. by rewrite H2, H1, app_assoc.
    - intros e w0. by exists [e].
    - intros d w0 _. exists []. by rewrite app_nil_r. }
  rewrite fetchWithRetry_unfold. unfold try_catch, axios_get.
  set (w1 := elapse _ (emit (EvRequest r) w)).
  destruct (answer (length (trace w))) as [data | st]; [by exists [] |].
  destruct (is_rate_limit_error (AxiosError st)); [| by exists []].
  destruct (retries <? MAX_RETRIES)%nat; [| by exists []].
  unfold bind, sleep, update.
  destruct (fetchWithRetry net r answer (retries + 1) _) as [o w2] eqn:E.
  apply Hx in E as [rest E]. simpl in *. rewrite E.
  exists (EvTimer API_BACKOFF_MS :: rest). by rewrite <- !app_assoc.
Qed.

(** A call to a provider that is down throws. *)
Lemma fetchWithRetry_down {T} r (answer : nat -> reply T) retries w :
  (forall i, exists st, answer i = Rejected st) ->
  exists e w', fetchWithRetry net r answer retries w = (Thrown e, w').
Proof.
  intros Hdown. unfold fetchWithRetry.
  generalize (MAX_RETRIES - retries)%nat as n. intros n.
  revert retries w. induction n as [| n IH]; intros retries w; simpl;
    unfold try_catch, axios_get;
    destruct (Hdown (length (trace w))) as [st ->];
    destruct (is_rate_limit_error _); try (eexists _, _; reflexivity).
  destruct (retries <? MAX_RETRIES)%nat; [| eexists _, _; reflexivity].
  unfold bind, sleep, update. apply IH.
Qed.

Lemma is_rate_limit_error_429 st :
  is_rate_limit_error (AxiosError st) = true <-> st = Some 429.
Proof.
  destruct st as [s |]; simpl; [| done].
  destruct (Z.eqb_spec s 429); split; congruence.
Qed.

(** The attempts of a call, whatever the replies: every retry follows a
    reply 429, and the attempt that ends the call got data, or a failure
    that is not a 429, or a 429 when no retry is left. The reply to the
    attempt number [j] is the one at [length (trace w) + 2 * j], two
    events, a timer and a request, being added by each retry. *)
Lemma fetchWithRetry_attempts {T} r (answer : nat -> reply T) left : forall retries w,
  (retries + left = MAX_RETRIES)%nat ->
  let run := fetchWithRetry net r answer retries w in
  exists n,
    (retries + n <= MAX_RETRIES)%nat
    /\ trace (snd run) = (trace w ++ attempts r n)%list
    /\ (forall j, (j < n)%nat ->
          answer (length (trace w) + 2 * j)%nat = Rejected (Some 429))
    /\ match fst run with
       | Returned data => answer (length (trace w) + 2 * n)%nat = Resolved data
       | Thrown e =>
           exists st,
             e = AxiosError st
             /\ answer (length (trace w) + 2 * n)%nat = Rejected st
             /\ (st = Some 429 -> (retries + n)%nat = MAX_RETRIES)
       end.
Proof.
  assert (Hzero : forall retries w (o : outcome T) u,
            (retries <= MAX_RETRIES)%nat ->
            trace u = (trace w ++ [EvRequest r])%list ->
            match o with
            | Returned data => answer (length (trace w)) = Resolved data
            | Thrown e =>
                exists st, e = AxiosError st /\ answer (length (trace w)) = Rejected st
                           /\ (st = Some 429 -> retries = MAX_RETRIES)
            end ->
            exists n,
              (retries + n <= MAX_RETRIES)%nat
              /\ trace (snd (o, u)) = (trace w ++ attempts r n)%list
              /\ (forall j, (j < n)%nat ->
                    answer (length (trace w) + 2 * j)%nat = Rejected (Some 429))
              /\ match fst (o, u) with
                 | Returned data => answer (length (trace w) + 2 * n)%nat = Resolved data
                 | Thrown e =>
                     exists st,
                       e = AxiosError st
                       /\ answer (length (trace w) + 2 * n)%nat = Rejected st
                       /\ (st = Some 429 -> (retries + n)%nat = MAX_RETRIES)
                 end).
  { intros retries w o u Hr Htr Ho. exists 0%nat. cbn [fst snd Nat.mul attempts].
    rewrite !Nat.add_0_r. split; [lia |]. split; [exact Htr |].
    split; [intros j Hj; lia | exact Ho]. }
  induction left as [| left IH]; intros retries w Hleft run; subst run;
    rewrite fetchWithRetry_unfold; unfold try_catch, axios_get;
    destruct (answer (length (trace w))) as [data | st] eqn:Er.
  - apply Hzero; [lia | done | done].
  - destruct (Nat.ltb_spec retries MAX_RETRIES) as [Hlt | Hge]; [lia |].
    destruct (is_rate_limit_error (AxiosError st)); unfold throw;
      (apply Hzero; [lia | done |]); exists st; (split; [done |]); (split; [done |]);
      intros _; lia.
  - apply Hzero; [lia | done | done].
  - destruct (is_rate_limit_error (AxiosError st)) eqn:Hrl.
    2: { unfold throw. apply Hzero; [lia | done |]. exists st.
         split; [done |]. split; [done |]. intros Hst. apply is_rate_limit_error_429 in Hst. congruence. }
    apply is_rate_limit_error_429 in Hrl as ->.
    destruct (Nat.ltb_spec retries MAX_RETRIES) as [Hlt | Hge]; [| lia].
    unfold bind, sleep, update.
    set (w2 := elapse API_BACKOFF_MS (emit (EvTimer API_BACKOFF_MS) (elapse _ (emit (EvRequest r) w)))).
    destruct (IH (retries + 1)%nat w2 ltac:(lia)) as (n & Hn & Htr & Hall & Hlast).
    assert (Hlen : length (trace w2) = (length (trace w) + 2)%nat).
    { subst w2. simpl. rewrite !length_app. simpl. lia. }
    exists (S n). split; [lia |]. split; [| split].
    + rewrite Htr. subst w2. simpl. by rewrite <- !app_assoc.
    + intros [| j] Hj; [by rewrite Nat.add_0_r |].
      rewrite <- (Hall j) by lia. f_equal. lia.
    + rewrite Hlen in Hlast.
      replace (length (trace w) + 2 * S n)%nat with (length (trace w) + 2 + 2 * n)%nat by lia.
      destruct (fst (fetchWithRetry net r answer (retries + 1) w2)) as [data | e];
        [exact Hlast |].
      destruct Hlast as (st & -> & Hst & Hmax). exists st. repeat split; [done |].
      intros H. specialize (Hmax H). lia.
Qed.

End Retry.

(** C3, as the code has it: a failure that is not a 429 (here a 500) is
    not retried. The call throws after one request and no delay, and
    [fetchTopCoins] goes to the secondary provider right after that one
    request. *)
Lemma server_error_is_not_retried :
  fetchWithRetry net_down (GetMarkets "usd" 5)
    (fun i => markets_reply net_down i "usd" 5) 0 (initial 0)
  = (Thrown (AxiosError (Some 500)),
     elapse 100 (emit (EvRequest (GetMarkets "usd" 5)) (initial 0)))
  /\ api_requests (trace (snd (fetchTopCoins EmptyString net_down "usd" 5 (initial 0))))
     = [EvRequest (GetMarkets "usd" 5); EvRequest (GetCurrencies 5)].
Proof. split; vm_compute; reflexivity. Qed.

(** ** The listing *)

#[local] Instance trace_extends_preorder : PreOrder trace_extends.
Proof.
  split.
  - intros w. exists []. by rewrite app_nil_r.
  - intros x y z [r1 H1] [r2 H2]. exists (r1 ++ r2)%list. by rewrite H2, H1, app_assoc.
Qed.

Section Listing.
Variable key : string.
Variable net : Network.

Lemma image_trace_extends code w :
  trace_extends w (snd (getCryptoImageUrl key code w)).
Proof.
  destruct (getCryptoImageUrl_world key code w) as [-> | [(url & _ & ->) | [_ ->]]].
  - reflexivity.
  - exists []. simpl. by rewrite app_nil_r.
  - unfold trace_extends, after_guess, tryFetchCoinData_start.
    repeat (case_match; simpl); eexists; rewrite <- ?app_assoc; reflexivity.
Qed.

Lemma total_image code : total (lift (getCryptoImageUrl key code)).
Proof. apply total_lift. Qed.

Lemma total_fromCoinGecko coin : total (fromCoinGecko key coin).
Proof. apply total_bind; [apply total_lift | intros; apply total_ret]. Qed.

Lemma total_fromMoonPay coin : total (fromMoonPay key coin).
Proof. apply total_bind; [apply total_lift | intros; apply total_ret]. Qed.

Lemma total_getFallbackCoins : total (getFallbackCoins key).
Proof.
  unfold getFallbackCoins, fallbackCoin.
  repeat (apply total_bind; [| intros ?]);
    try apply total_lift; apply total_ret.
Qed.

(** Converting and storing always returns, and what it returns is what
    the cache then holds under the key, stamped with the time of the store. *)
Lemma cacheCoins_stores {A} cacheKey (convert : A -> M CoinData) data w :
  (forall x, total (convert x)) ->
  exists coins w',
    cacheCoins cacheKey convert data w = (Returned coins, w')
    /\ apiCache (cache w') !! cacheKey = Some (coins, now w')
    /\ length coins = length data.
Proof.
  intros Hconv. unfold cacheCoins.
  assert (Hlen : forall xs w0, exists ys w1,
            mapM convert xs w0 = (Returned ys, w1) /\ length ys = length xs).
  { induction xs as [| x xs IH]; intros w0; simpl.
    - by eexists _, _.
    - unfold bind. destruct (Hconv x w0) as (y & w1 & ->).
      destruct (IH w1) as (ys & w2 & -> & Hl). eexists _, _. split; [done |].
      simpl. by rewrite Hl. }
  destruct (Hlen data w) as (coins & w1 & E & Hl).
  unfold bind. rewrite E. simpl.
  eexists _, _. split; [reflexivity |]. split; [| done].
  simpl. apply lookup_insert_eq.
Qed.

Lemma fetchTopCoins_hit currency limit w data :
  Cache.getApiData (now w) (topCoinsKey currency limit) (cache w) = Some data ->
  fetchTopCoins key net currency limit w = (Returned data, w).
Proof.
  intros H. unfold fetchTopCoins, try_catch, bind, getApiData. by rewrite H.
Qed.

(** On a cache miss: the primary provider, then the secondary one, then
    the built-in list. *)
Lemma fetchTopCoins_miss currency limit w :
  Cache.getApiData (now w) (topCoinsKey currency limit) (cache w) = None ->
  fetchTopCoins key net currency limit w
  = match fetchWithRetry net (GetMarkets currency limit)
            (fun i => markets_reply net i currency limit) 0 w with
    | (Returned data, w1) =>
        cacheCoins (topCoinsKey currency limit) (fromCoinGecko key) data w1
    | (Thrown _, w1) =>
        match axios_get net (GetCurrencies limit)
                (fun i => currencies_reply net i limit) w1 with
        | (Returned data, w2) =>
            cacheCoins (topCoinsKey currency limit) (fromMoonPay key) data w2
        | (Thrown _, w2) => getFallbackCoins key w2
        end
    end.
Proof.
  intros H. unfold fetchTopCoins, getApiData.
  unfold try_catch at 1. unfold bind at 1. rewrite H.
  unfold try_catch at 1. unfold bind at 1.
  destruct (fetchWithRetry _ _ _ _ w) as [[data | e] w1].
  - destruct (cacheCoins_stores (topCoinsKey currency limit) (fromCoinGecko key) data w1
                total_fromCoinGecko) as (coins & w' & E & _).
    unfold cacheCoins in E. rewrite E. unfold cacheCoins. by rewrite E.
  - unfold bind at 1.
    destruct (axios_get _ _ _ w1) as [[data | e2] w2]; [| done].
    destruct (cacheCoins_stores (topCoinsKey currency limit) (fromMoonPay key) data w2
                total_fromMoonPay) as (coins & w' & E & _).
    unfold cacheCoins in E. rewrite E. unfold cacheCoins. by rewrite E.
Qed.

(** [fetchTopCoins] never throws. *)
Lemma total_fetchTopCoins currency limit : total (fetchTopCoins key net currency limit).
Proof.
  unfold fetchTopCoins. apply total_try_catch. intros _. apply total_getFallbackCoins.
Qed.

Lemma getFallbackCoins_listing w :
  exists coins w',
    getFallbackCoins key w = (Returned coins, w')
    /\ map coin_listing coins
       = [ ("bitcoin", "btc", "Bitcoin", 1%float);
           ("ethereum", "eth", "Ethereum", 2%float);
           ("solana", "sol", "Solana", 4%float);
           ("cardano", "ada", "Cardano", 5%float);
           ("godsdollar", "godd", "Gods Dollar", 6%float) ].
Proof.
  unfold getFallbackCoins, fallbackCoin, bind, lift, ret.
  destruct (getCryptoImageUrl key "bitcoin" w) as [i1 w1].
  destruct (getCryptoImageUrl key "ethereum" w1) as [i2 w2].
  destruct (getCryptoImageUrl key "solana" w2) as [i3 w3].
  destruct (getCryptoImageUrl key "cardano" w3) as [i4 w4].
  destruct (getCryptoImageUrl key "godsdollar" w4) as [i5 w5].
  eexists _, _. split; reflexivity.
Qed.

End Listing.

(** ** A call that runs alone

    The operations as they are defined for a whole call are what the
    session does when nothing else happens while the call waits: the time
    that passes is the latency of the network and the two seconds of each
    timer. *)

Section Alone.
Variable key : string.
Variable net : Network.

Lemma set_calls_add_call c w : set_calls (calls w ++ []) (add_call c w) = w.
Proof. rewrite app_nil_r. by destruct w. Qed.

(** The call suspended last goes on. *)
Lemma step_listing_goes_on currency limit a w :
  ready a (now w) ->
  step key net (add_call (ListingCall currency limit a) w)
    (snd (fetchTopCoins_resume key net currency limit a w)).
Proof.
  intros Hr.
  pose proof (step_fetchTopCoins_resume key net currency limit a (calls w) []
                (add_call (ListingCall currency limit a) w) eq_refl Hr) as H.
  by rewrite set_calls_add_call in H.
Qed.

Lemma step_search_goes_on query sent w :
  step key net (add_call (SearchCall query sent) w)
    (snd (searchCryptocurrencies_resume key net query sent w)).
Proof.
  pose proof (step_searchCryptocurrencies_resume key net query sent (calls w) []
                (add_call (SearchCall query sent) w) eq_refl) as H.
  by rewrite set_calls_add_call in H.
Qed.

Lemma step_latency i w : step key net w (elapse (Z.of_N (latency net i)) w).
Proof. apply step_time. lia. Qed.

(** The requests and timers of [fetchWithRetry], one await at a time. *)
Lemma fetchWithRetry_alone currency limit n : forall retries u,
  (retries + n = MAX_RETRIES)%nat ->
  let run := fetchWithRetry net (GetMarkets currency limit)
               (fun i => markets_reply net i currency limit) retries u in
  exists retries' sent,
    rtc (step key net) (send_markets currency limit retries u)
      (add_call (ListingCall currency limit (AwaitMarkets retries' sent)) (snd run))
    /\ match fst run with
       | Returned data => markets_reply net sent currency limit = Resolved data
       | Thrown e =>
           exists st,
             markets_reply net sent currency limit = Rejected st
             /\ is_rate_limit_error (AxiosError st) && (retries' <? MAX_RETRIES)%nat = false
       end.
Proof.
  induction n as [| n IH]; intros retries u Hn run; subst run;
    rewrite fetchWithRetry_unfold; unfold try_catch, axios_get;
    set (i := length (trace u));
    set (w' := elapse (Z.of_N (latency net i))
                 (emit (EvRequest (GetMarkets currency limit)) u));
    assert (Hwait : rtc (step key net) (send_markets currency limit retries u)
                      (add_call (ListingCall currency limit (AwaitMarkets retries i)) w'))
      by (apply rtc_once, (step_latency i));
    destruct (markets_reply net i currency limit) as [data | st] eqn:Er.
  - exists retries, i. by split.
  - destruct (Nat.ltb_spec retries MAX_RETRIES) as [Hlt | Hge]; [lia |].
    destruct (is_rate_limit_error (AxiosError st)) eqn:Hrl; unfold throw;
      cbn [fst snd]; exists retries, i; (split; [exact Hwait |]); exists st;
      (split; [done |]); rewrite ?Hrl, (proj2 (Nat.ltb_ge _ _) Hge); done.
  - exists retries, i. by split.
  - destruct (is_rate_limit_error (AxiosError st)) eqn:Hrl.
    2: { exists retries, i. split; [exact Hwait |]. exists st. split; [done |].
         by rewrite Hrl. }
    destruct (Nat.ltb_spec retries MAX_RETRIES) as [Hlt | Hge]; [| lia].
    set (u2 := elapse API_BACKOFF_MS (emit (EvTimer API_BACKOFF_MS) w')).
    destruct (IH (retries + 1)%nat u2 ltac:(lia)) as (retries' & sent & Hrun & Hout).
    exists retries', sent. split; [| exact Hout].
    etransitivity; [exact Hwait |].
    eapply rtc_l; [apply step_listing_goes_on; exact I |].
    cbn [fetchTopCoins_resume]. rewrite Er, Hrl.
    rewrite (proj2 (Nat.ltb_lt _ _) Hlt). cbn [andb snd].
    eapply rtc_l; [apply (step_time key net API_BACKOFF_MS); by unfold API_BACKOFF_MS |].
    eapply rtc_l; [| exact Hrun].
    apply (step_listing_goes_on currency limit
             (AwaitBackoff retries (now w' + API_BACKOFF_MS)) u2).
    simpl. lia.
Qed.

(** A call of [fetchTopCoins] that runs alone is a session. *)
Lemma fetchTopCoins_alone currency limit w :
  rtc (step key net) w (snd (fetchTopCoins key net currency limit w)).
Proof.
  destruct (Cache.getApiData (now w) (topCoinsKey currency limit) (cache w))
    as [cached |] eqn:Hc.
  { by rewrite (fetchTopCoins_hit key net _ _ _ _ Hc). }
  rewrite (fetchTopCoins_miss key net _ _ _ Hc).
  eapply rtc_l; [apply (step_fetchTopCoins key net currency limit) |].
  unfold fetchTopCoins_start. rewrite Hc. cbn [snd].
  destruct (fetchWithRetry_alone currency limit MAX_RETRIES 0%nat w eq_refl)
    as (retries' & sent & Hrun & Hout).
  destruct (fetchWithRetry _ _ _ _ w) as [[data | e] w1]; cbn [fst snd] in Hrun, Hout.
  - etransitivity; [exact Hrun |]. apply rtc_once.
    pose proof (step_listing_goes_on currency limit (AwaitMarkets retries' sent) w1 I) as H.
    cbn [fetchTopCoins_resume] in H. rewrite Hout in H.
    destruct (cacheCoins_stores (topCoinsKey currency limit) (fromCoinGecko key) data w1
                (total_fromCoinGecko key)) as (coins & w2 & E & _).
    rewrite E. unfold cacheCoins in E. by rewrite E in H.
  - destruct Hout as (st & Er & Hno).
    etransitivity; [exact Hrun |].
    eapply rtc_l; [apply (step_listing_goes_on currency limit (AwaitMarkets retries' sent) w1 I) |].
    cbn [fetchTopCoins_resume]. rewrite Er, Hno. cbn [snd].
    unfold axios_get. set (j := length (trace w1)).
    set (w2 := elapse (Z.of_N (latency net j)) (emit (EvRequest (GetCurrencies limit)) w1)).
    eapply rtc_l; [apply (step_latency j) |].
    apply rtc_once.
    pose proof (step_listing_goes_on currency limit (AwaitCurrencies j) w2 I) as H.
    cbn [fetchTopCoins_resume] in H. unfold try_catch, settled in H.
    destruct (currencies_reply net j limit) as [data | st2].
    + destruct (cacheCoins_stores (topCoinsKey currency limit) (fromMoonPay key) data w2
                  (total_fromMoonPay key)) as (coins & w3 & E & _).
      rewrite E. unfold cacheCoins in E. unfold bind at 1 in H. unfold ret at 1 in H.
      by rewrite E in H.
    + unfold bind at 1, throw in H.
      by destruct (getFallbackCoins key w2).
Qed.

Lemma searchCryptocurrencies_alone query w :
  rtc (step key net) w (snd (searchCryptocurrencies key net query w)).
Proof.
  unfold searchCryptocurrencies.
  destruct (negb (JsString.truthy query) || JsString.all_space query) eqn:Hq; [done |].
  eapply rtc_l; [apply (step_searchCryptocurrencies key net query) |].
  unfold searchCryptocurrencies_start. rewrite Hq. cbn [snd].
  eapply rtc_l; [apply (step_latency (length (trace w))) |].
  apply rtc_once.
  pose proof (step_search_goes_on query (length (trace w))
                (elapse (Z.of_N (latency net (length (trace w))))
                   (emit (EvRequest (GetSearch query)) w))) as H.
  unfold searchCryptocurrencies_resume, try_catch, settled in H.
  unfold try_catch. unfold bind at 1. unfold axios_get.
  destruct (search_reply net (length (trace w)) query) as [data | st].
  - unfold bind at 1, ret at 1 in H. exact H.
  - unfold bind at 1, throw at 1 in H. exact H.
Qed.

End Alone.

Lemma bitcoin_resolves_from_local_table_witness :
  let w := snd (fetchTopCoins "k" net_down "usd" 5 (initial 0)) in
  let result := getCryptoImageUrl "k" "bitcoin" w in
  fst result = VStr "/src/images/crypto/bitcoin.png"
  /\ trace (snd result) = trace w
  /\ inflight (snd result) = inflight w
  /\ probing (snd result) = probing w
  /\ now (snd result) = now w.
Proof.
  apply (bitcoin_resolves_from_local_table "k" net_down).
  exists 0. apply fetchTopCoins_alone.
Defined.


Section ListingClaims.
Variable key : string.
Variable net : Network.

Lemma cacheCoins_trace_extends {A} cacheKey (convert : A -> M CoinData) data :
  (forall x, preserves trace_extends (convert x)) ->
  preserves trace_extends (cacheCoins cacheKey convert data).
Proof.
  intros Hconv. unfold cacheCoins.
  apply preserves_bind; [exact _ | apply preserves_mapM; [exact _ | exact Hconv] |]. intros coins.
  apply preserves_bind; [exact _ | | intros _; apply preserves_ret; exact _].
  apply preserves_update. intros w. exists []. simpl. by rewrite app_nil_r.
Qed.

Lemma convert_trace_extends code (k : jsval -> M CoinData) :
  (forall image, preserves trace_extends (k image)) ->
  preserves trace_extends (bind (lift (getCryptoImageUrl key code)) k).
Proof.
  intros Hk. apply preserves_bind; [exact _ | | exact Hk].
  apply preserves_lift. apply image_trace_extends.
Qed.

Lemma getFallbackCoins_trace_extends : preserves trace_extends (getFallbackCoins key).
Proof.
  apply (frame_getFallbackCoins _ key). apply image_trace_extends.
Qed.

(** Once the primary call has failed, the next thing sent is the request
    to the secondary provider. *)
Lemma fetchTopCoins_secondary_after_failure currency limit w e w1 :
  Cache.getApiData (now w) (topCoinsKey currency limit) (cache w) = None ->
  fetchWithRetry net (GetMarkets currency limit)
    (fun i => markets_reply net i currency limit) 0 w = (Thrown e, w1) ->
  exists rest,
    trace (snd (fetchTopCoins key net currency limit w))
    = (trace w1 ++ EvRequest (GetCurrencies limit) :: rest)%list.
Proof.
  intros Hmiss E. rewrite (fetchTopCoins_miss key net _ _ _ Hmiss), E.
  unfold axios_get.
  set (w2 := elapse _ (emit (EvRequest (GetCurrencies limit)) w1)).
  assert (Hw2 : trace w2 = (trace w1 ++ [EvRequest (GetCurrencies limit)])%list) by done.
  destruct (currencies_reply net (length (trace w1)) limit) as [data | st].
  - destruct (cacheCoins _ _ data w2) as [o w3] eqn:E3.
    apply cacheCoins_trace_extends in E3 as [rest E3].
    + exists rest. simpl. by rewrite E3, Hw2, <- app_assoc.
    + intros c. unfold fromMoonPay. apply convert_trace_extends.
      intros image. apply preserves_ret. exact _.
  - destruct (getFallbackCoins key w2) as [o w3] eqn:E3.
    apply getFallbackCoins_trace_extends in E3 as [rest E3].
    exists rest. simpl. by rewrite E3, Hw2, <- app_assoc.
Qed.

(** On a cache miss the first thing sent is the request to the primary
    provider. *)
Lemma fetchTopCoins_miss_first_request currency limit w :
  Cache.getApiData (now w) (topCoinsKey currency limit) (cache w) = None ->
  exists rest,
    trace (snd (fetchTopCoins key net currency limit w))
    = (trace w ++ EvRequest (GetMarkets currency limit) :: rest)%list.
Proof.
  intros Hmiss.
  destruct (fetchWithRetry_first_request net (GetMarkets currency limit)
              (fun i => markets_reply net i currency limit) 0 w) as [rest1 H1].
  destruct (fetchWithRetry net (GetMarkets currency limit)
              (fun i => markets_reply net i currency limit) 0 w) as [[data | e] w1] eqn:E.
  - rewrite (fetchTopCoins_miss key net _ _ _ Hmiss), E.
    destruct (cacheCoins _ _ data w1) as [o w2] eqn:E2.
    apply cacheCoins_trace_extends in E2 as [rest2 E2].
    + exists (rest1 ++ rest2)%list. simpl in *. rewrite E2, H1.
      by rewrite <- app_assoc.
    + intros c. unfold fromCoinGecko. apply convert_trace_extends.
      intros image. apply preserves_ret. exact _.
  - destruct (fetchTopCoins_secondary_after_failure _ _ _ _ _ Hmiss E) as [rest2 ->].
    simpl in H1. rewrite H1.
    exists (rest1 ++ EvRequest (GetCurrencies limit) :: rest2)%list.
    by rewrite <- app_assoc.
Qed.

(** C3, amended: on a cache miss the primary call of [fetchTopCoins] is
    retried after a response 429 only, and at most three times, each time
    after a delay of two seconds. Whatever the provider answers, what the
    call sends is one request and then, for every retry, a timer of two
    seconds and the request again; the reply to every attempt that was
    retried is a 429; and when the last attempt fails, be it the first
    one or one that follows retries, the request to the secondary provider
    comes right after it, at once when the failure is not a 429 and only
    after the fourth attempt when it is one. *)
Theorem primary_call_retries_on_429_only currency limit w :
  Cache.getApiData (now w) (topCoinsKey currency limit) (cache w) = None ->
  let primary := GetMarkets currency limit in
  let secondary := EvRequest (GetCurrencies limit) in
  let sent := trace (snd (fetchTopCoins key net currency limit w)) in
  let reply j := markets_reply net (length (trace w) + 2 * j)%nat currency limit in
  exists retries rest,
    (retries <= 3)%nat
    /\ sent = (trace w ++ attempts primary retries ++ rest)%list
    /\ (forall j, (j < retries)%nat -> reply j = Rejected (Some 429))
    /\ (forall st,
          reply retries = Rejected st ->
          (st = Some 429 -> retries = 3%nat)
          /\ exists rest', rest = secondary :: rest').
Proof.
  intros Hmiss primary secondary sent reply. subst sent primary.
  destruct (fetchWithRetry_attempts net (GetMarkets currency limit)
              (fun i => markets_reply net i currency limit) MAX_RETRIES 0%nat w eq_refl)
    as (n & Hn & Htr & Hall & Hlast).
  destruct (fetchWithRetry net (GetMarkets currency limit)
              (fun i => markets_reply net i currency limit) 0 w)
    as [[data | e] w1] eqn:E; cbn [fst snd] in Htr, Hlast.
  - rewrite (fetchTopCoins_miss key net _ _ _ Hmiss), E.
    destruct (cacheCoins _ _ data w1) as [o w2] eqn:E2.
    apply cacheCoins_trace_extends in E2 as [rest E2].
    2: { intros c. unfold fromCoinGecko. apply convert_trace_extends.
         intros image. apply preserves_ret. exact _. }
    exists n, rest. split; [exact Hn |]. split; [| split; [exact Hall |]].
    + cbn [snd]. by rewrite E2, Htr, <- app_assoc.
    + intros st Hst. subst reply. cbv beta in Hst. congruence.
  - destruct Hlast as (st & -> & Hst & Hmax).
    destruct (fetchTopCoins_secondary_after_failure _ _ _ _ _ Hmiss E) as [rest Hrest].
    exists n, (secondary :: rest). split; [exact Hn |]. split; [| split; [exact Hall |]].
    + by rewrite Hrest, Htr, <- app_assoc.
    + intros st' Hst'. subst reply. cbv beta in Hst'. rewrite Hst in Hst'.
      injection Hst' as <-. split; [| by eexists]. intros H. by apply Hmax in H.
Qed.

End ListingClaims.

Lemma primary_call_retries_on_429_only_witness :
  let w := initial 0 in
  let primary := GetMarkets "usd" 5 in
  let secondary := EvRequest (GetCurrencies 5) in
  let sent := trace (snd (fetchTopCoins "k" net_flaky "usd" 5 w)) in
  let reply j := markets_reply net_flaky (length (trace w) + 2 * j)%nat "usd" 5 in
  exists retries rest,
    (retries <= 3)%nat
    /\ sent = (trace w ++ attempts primary retries ++ rest)%list
    /\ (forall j, (j < retries)%nat -> reply j = Rejected (Some 429))
    /\ (forall st,
          reply retries = Rejected st ->
          (st = Some 429 -> retries = 3%nat)
          /\ exists rest', rest = secondary :: rest').
Proof.
  apply (primary_call_retries_on_429_only "k" net_flaky "usd" 5 (initial 0)).
  reflexivity.
Defined.

(** A failure that is not a 429 is not retried when it follows a retry
    either: after a 429 and then a 500 the call has made two attempts, two
    seconds apart, and goes to the secondary provider. *)
Example failure_after_a_retry_is_not_retried :
  firstn 4 (trace (snd (fetchTopCoins "k" net_flaky "usd" 5 (initial 0))))
  = [ EvRequest (GetMarkets "usd" 5); EvTimer 2000; EvRequest (GetMarkets "usd" 5);
      EvRequest (GetCurrencies 5) ].
Proof. vm_compute. reflexivity. Qed.

(** ** The gate and the listing *)

(** C4, as the code has it: a detail lookup is answered 429 with a reset
    hint of 899 seconds at time 1000, so the gate is closed until 900000.
    With nothing cached, [fetchTopCoins] called right then still sends its
    request to the primary provider. *)
Lemma listing_ignores_the_gate :
  let w := after_detail (Responded (too_many_requests (Some "899"))) in
  rateLimitedUntil (cache w) = Binary64.Finite 900000
  /\ Cache.isRateLimited (now w) (cache w) = true
  /\ requests_to CoinGecko (trace w) = [EvRequest (GetCoinDetail "moon-cat")]
  /\ requests_to CoinGecko (trace (snd (fetchTopCoins "k" net_down "usd" 5 w)))
     = [EvRequest (GetCoinDetail "moon-cat"); EvRequest (GetMarkets "usd" 5)].
Proof. repeat split; vm_compute; reflexivity. Qed.

(** C4, amended: while the gate is closed, image resolution sends no
    provider request and starts no detail lookup, for any identifier. The
    listing does not look at the gate: on a cache miss it sends its request
    to the primary provider first, and once that call has failed the
    request to the secondary provider follows at once. *)
Theorem gate_stops_image_lookups_only key net w :
  Cache.isRateLimited (now w) (cache w) = true ->
  (forall code,
     api_requests (trace (snd (getCryptoImageUrl key code w))) = api_requests (trace w)
     /\ inflight (snd (getCryptoImageUrl key code w)) = inflight w)
  /\ (forall currency limit,
        Cache.getApiData (now w) (topCoinsKey currency limit) (cache w) = None ->
        (exists rest,
           trace (snd (fetchTopCoins key net currency limit w))
           = (trace w ++ EvRequest (GetMarkets currency limit) :: rest)%list)
        /\ (forall e w1,
              fetchWithRetry net (GetMarkets currency limit)
                (fun i => markets_reply net i currency limit) 0 w = (Thrown e, w1) ->
              exists rest,
                trace (snd (fetchTopCoins key net currency limit w))
                = (trace w1 ++ EvRequest (GetCurrencies limit) :: rest)%list)).
Proof.
  intros Hgate. split.
  - intros code. apply getCryptoImageUrl_no_request.
    by apply shouldTryApiCall_rate_limited.
  - intros currency limit Hmiss. split.
    + by apply fetchTopCoins_miss_first_request.
    + intros e w1 E. by eapply fetchTopCoins_secondary_after_failure.
Qed.

Lemma gate_stops_image_lookups_only_witness :
  let w := after_detail (Responded (too_many_requests (Some "899"))) in
  (forall code,
     api_requests (trace (snd (getCryptoImageUrl "k" code w))) = api_requests (trace w)
     /\ inflight (snd (getCryptoImageUrl "k" code w)) = inflight w)
  /\ (forall currency limit,
        Cache.getApiData (now w) (topCoinsKey currency limit) (cache w) = None ->
        (exists rest,
           trace (snd (fetchTopCoins "k" net_down currency limit w))
           = (trace w ++ EvRequest (GetMarkets currency limit) :: rest)%list)
        /\ (forall e w1,
              fetchWithRetry net_down (GetMarkets currency limit)
                (fun i => markets_reply net_down i currency limit) 0 w = (Thrown e, w1) ->
              exists rest,
                trace (snd (fetchTopCoins "k" net_down currency limit w))
                = (trace w1 ++ EvRequest (GetCurrencies limit) :: rest)%list)).
Proof.
  apply (gate_stops_image_lookups_only "k" net_down
           (after_detail (Responded (too_many_requests (Some "899"))))).
  reflexivity.
Defined.

(** ** The built-in list *)

(** C1: when nothing is cached and both providers are down,
    [fetchTopCoins] returns the built-in list: five quotes, bitcoin,
    ethereum, solana, cardano and godsdollar in this order, each with its
    fixed symbol, name and rank. The list is not empty, and the call does not
    throw, here or in any other world. The same holds for every currency and
    limit, 'usd' and 5 among them. *)
Theorem fallback_list_when_both_providers_fail key net currency limit w :
  Cache.getApiData (now w) (topCoinsKey currency limit) (cache w) = None ->
  primary_down net currency limit ->
  secondary_down net limit ->
  (exists coins w' w2,
     fetchTopCoins key net currency limit w = (Returned coins, w')
     /\ getFallbackCoins key w2 = (Returned coins, w')
     /\ map coin_id coins = ["bitcoin"; "ethereum"; "solana"; "cardano"; "godsdollar"]
     /\ map coin_listing coins
        = [ ("bitcoin", "btc", "Bitcoin", 1%float);
            ("ethereum", "eth", "Ethereum", 2%float);
            ("solana", "sol", "Solana", 4%float);
            ("cardano", "ada", "Cardano", 5%float);
            ("godsdollar", "godd", "Gods Dollar", 6%float) ]
     /\ length coins = 5%nat
     /\ coins <> [])
  /\ (forall w0, exists coins w', fetchTopCoins key net currency limit w0 = (Returned coins, w')).
Proof.
  intros Hmiss Hp Hs. split; [| apply total_fetchTopCoins].
  rewrite (fetchTopCoins_miss key net _ _ _ Hmiss).
  destruct (fetchWithRetry_down net (GetMarkets currency limit)
              (fun i => markets_reply net i currency limit) 0 w Hp) as (e & w1 & ->).
  unfold axios_get. destruct (Hs (length (trace w1))) as [st ->].
  set (w2 := elapse _ _).
  destruct (getFallbackCoins_listing key w2) as (coins & w' & E & Hl).
  exists coins, w', w2. split; [exact E |]. split; [exact E |].
  assert (Hid : map coin_id coins = map (fun x => fst (fst (fst x))) (map coin_listing coins)).
  { rewrite map_map. reflexivity. }
  split; [by rewrite Hid, Hl |]. split; [exact Hl |].
  assert (Hlen : length coins = 5%nat).
  { rewrite <- (length_map coin_listing), Hl. reflexivity. }
  split; [exact Hlen |]. intros ->. discriminate.
Qed.

Lemma fallback_list_when_both_providers_fail_witness :
  (exists coins w' w2,
     fetchTopCoins "k" net_down "usd" 5 (initial 0) = (Returned coins, w')
     /\ getFallbackCoins "k" w2 = (Returned coins, w')
     /\ map coin_id coins = ["bitcoin"; "ethereum"; "solana"; "cardano"; "godsdollar"]
     /\ map coin_listing coins
        = [ ("bitcoin", "btc", "Bitcoin", 1%float);
            ("ethereum", "eth", "Ethereum", 2%float);
            ("solana", "sol", "Solana", 4%float);
            ("cardano", "ada", "Cardano", 5%float);
            ("godsdollar", "godd", "Gods Dollar", 6%float) ]
     /\ length coins = 5%nat
     /\ coins <> [])
  /\ (forall w0, exists coins w', fetchTopCoins "k" net_down "usd" 5 w0 = (Returned coins, w')).
Proof.
  apply (fallback_list_when_both_providers_fail "k" net_down "usd" 5 (initial 0)).
  - reflexivity.
  - intros i. exists (Some 500). reflexivity.
  - intros i. exists None. reflexivity.
Defined.

(** ** Cache keys *)

Lemma digits_have_no_underscore (d : Decimal.uint) :
  JsString.has_char "_" (NilEmpty.string_of_uint d) = false.
Proof. induction d; simpl; done. Qed.

Lemma of_Z_has_no_underscore z : JsString.has_char "_" (JsString.of_Z z) = false.
Proof.
  unfold JsString.of_Z. destruct z as [| p | p]; [done | |]; simpl;
    unfold NilZero.string_of_uint;
    pose proof (digits_have_no_underscore (Pos.to_uint p)) as H;
    by destruct (Pos.to_uint p).
Qed.

Lemma of_Z_inj z1 z2 : JsString.of_Z z1 = JsString.of_Z z2 -> z1 = z2.
Proof.
  unfold JsString.of_Z. intros H.
  apply DecimalZ.to_int_inj.
  assert (Hn : forall z, Z.to_int z <> Decimal.Pos Decimal.Nil
                         /\ Z.to_int z <> Decimal.Neg Decimal.Nil).
  { intros [| p | p]; simpl; split; try discriminate;
      intros [= Hp]; by apply (DecimalPos.Unsigned.to_uint_nonnil p). }
  assert (Hs : forall z, NilZero.int_of_string (NilZero.string_of_int (Z.to_int z))
                         = Some (Z.to_int z)).
  { intros z. apply NilZero.isi; apply Hn. }
  pose proof (Hs z1) as H1. rewrite H, Hs in H1. by injection H1.
Qed.

Lemma append_split_at_last_underscore (s1 s2 d1 d2 : string) :
  JsString.has_char "_" d1 = false ->
  JsString.has_char "_" d2 = false ->
  s1 ++ String "_" d1 = s2 ++ String "_" d2 ->
  s1 = s2 /\ d1 = d2.
Proof.
  intros H1 H2. revert s2.
  induction s1 as [| c r IH]; intros [| c' r']; cbn [String.append]; intros H.
  - by injection H.
  - injection H as _ H. rewrite H, has_char_append in H1. simpl in H1.
    by rewrite orb_true_r in H1.
  - injection H as _ H. rewrite <- H, has_char_append in H2. simpl in H2.
    by rewrite orb_true_r in H2.
  - injection H as -> H. destruct (IH _ H) as [-> ->]. done.
Qed.

Lemma topCoinsKey_inj c1 l1 c2 l2 :
  topCoinsKey c1 l1 = topCoinsKey c2 l2 -> c1 = c2 /\ l1 = l2.
Proof.
  unfold topCoinsKey. intros H. simpl in H. injection H as H.
  apply append_split_at_last_underscore in H as [-> H];
    try apply of_Z_has_no_underscore.
  split; [done | by apply of_Z_inj].
Qed.

(** ** The cache window *)

#[local] Instance same_calls_preorder : PreOrder same_calls.
Proof.
  split; unfold same_calls; [intros w | intros w1 w2 w3]; [done |].
  intros -> ->. done.
Qed.

#[local] Instance same_clock_preorder : PreOrder same_clock.
Proof.
  split; unfold same_clock; [intros w | intros w1 w2 w3]; [done |].
  intros -> ->. done.
Qed.

Section CacheWindow.
Variable key : string.
Variable net : Network.

Lemma resume_apiCache coinId r w :
  apiCache (cache (tryFetchCoinData_resume coinId r w)) = apiCache (cache w).
Proof. unfold tryFetchCoinData_resume. repeat (case_match; simpl); reflexivity. Qed.

Lemma event_apiCache coinId stage loaded w :
  apiCache (cache (onImageEvent coinId stage loaded w)) = apiCache (cache w).
Proof. unfold onImageEvent. repeat (case_match; simpl); reflexivity. Qed.

Lemma resume_calls coinId r w : calls (tryFetchCoinData_resume coinId r w) = calls w.
Proof. unfold tryFetchCoinData_resume. repeat (case_match; simpl); reflexivity. Qed.

Lemma event_calls coinId stage loaded w :
  calls (onImageEvent coinId stage loaded w) = calls w.
Proof. unfold onImageEvent. repeat (case_match; simpl); reflexivity. Qed.

Lemma image_calls code w : same_calls w (snd (getCryptoImageUrl key code w)).
Proof.
  unfold same_calls.
  destruct (getCryptoImageUrl_world key code w) as [-> | [(url & _ & ->) | [_ ->]]];
    [done | done |].
  unfold after_guess, tryFetchCoinData_start. repeat (case_match; simpl); reflexivity.
Qed.

Lemma image_same_clock code w : same_clock w (snd (getCryptoImageUrl key code w)).
Proof. apply image_now. Qed.

Lemma getApiData_fresh t k c data ts :
  apiCache c !! k = Some (data, ts) ->
  t - ts < cacheExpiry ->
  Cache.getApiData t k c = Some data.
Proof.
  intros H Hage. unfold Cache.getApiData. rewrite H.
  destruct (Z.ltb_spec (t - ts) cacheExpiry); [done | lia].
Qed.

Lemma getApiData_expired t k c data ts :
  apiCache c !! k = Some (data, ts) ->
  cacheExpiry <= t - ts ->
  Cache.getApiData t k c = None.
Proof.
  intros H Hage. unfold Cache.getApiData. rewrite H.
  destruct (Z.ltb_spec (t - ts) cacheExpiry); [lia | done].
Qed.

(** Converting and storing, whatever the relation. *)
Lemma fromCoinGecko_store (R : World -> World -> Prop) `{!PreOrder R} cacheKey data :
  (forall c w, R w (snd (getCryptoImageUrl key c w))) ->
  (forall kk d w, R w (with_cache (Cache.setApiData (now w) kk d) w)) ->
  preserves R (cacheCoins cacheKey (fromCoinGecko key) data).
Proof.
  intros Himg Hset.
  apply (piece_store R (fun _ => True)); [by intros | done |].
  intros x. unfold fromCoinGecko. apply (piece_convert R key Himg). intros image.
  apply preserves_ret. exact _.
Qed.

Lemma fromMoonPay_store (R : World -> World -> Prop) `{!PreOrder R} cacheKey data :
  (forall c w, R w (snd (getCryptoImageUrl key c w))) ->
  (forall kk d w, R w (with_cache (Cache.setApiData (now w) kk d) w)) ->
  preserves R (cacheCoins cacheKey (fromMoonPay key) data).
Proof.
  intros Himg Hset.
  apply (piece_store R (fun _ => True)); [by intros | done |].
  intros x. unfold fromMoonPay. apply (piece_convert R key Himg). intros image.
  apply preserves_ret. exact _.
Qed.

(** The tail of the secondary branch with the built-in list behind it. *)
Lemma currencies_tail (R : World -> World -> Prop) `{!PreOrder R} currency limit sent :
  (forall c w, R w (snd (getCryptoImageUrl key c w))) ->
  (forall kk d w, R w (with_cache (Cache.setApiData (now w) kk d) w)) ->
  forall w, R w (snd (fetchTopCoins_resume key net currency limit (AwaitCurrencies sent) w)).
Proof.
  intros Himg Hset w. cbn [fetchTopCoins_resume].
  destruct (try_catch _ _ w) as [o w'] eqn:E. cbn [snd]. revert E.
  apply preserves_try_catch; [exact _ | |].
  - apply preserves_bind; [exact _ | apply piece_settled; exact _ |]. intros data.
    by apply (fromMoonPay_store R (topCoinsKey currency limit) data).
  - intros _. by apply (frame_getFallbackCoins _ key).
Qed.

(** What a call that goes on does to the suspended calls: at most it
    suspends itself again. *)
Lemma listing_resume_calls currency limit a w :
  calls (snd (fetchTopCoins_resume key net currency limit a w)) = calls w
  \/ exists a',
       calls (snd (fetchTopCoins_resume key net currency limit a w))
       = (calls w ++ [ListingCall currency limit a'])%list.
Proof.
  destruct a as [retries sent | retries due | sent].
  - cbn [fetchTopCoins_resume].
    destruct (markets_reply net sent currency limit) as [data | st].
    + pose proof (fromCoinGecko_store same_calls (topCoinsKey currency limit) data
                    image_calls ltac:(done)) as Hs.
      unfold cacheCoins in Hs.
      destruct (bind _ _ w) as [[coins | e] w'] eqn:E; cbn [snd].
      * left. exact (Hs _ _ _ E).
      * right. eexists. cbn. by rewrite (Hs _ _ _ E).
    + right. destruct (_ && _); eexists; reflexivity.
  - right. eexists. reflexivity.
  - left. apply (currencies_tail same_calls); [apply image_calls | done].
Qed.

Lemma listing_resume_clock currency limit a w :
  now (snd (fetchTopCoins_resume key net currency limit a w)) = now w.
Proof.
  apply (piece_fetchTopCoins_resume same_clock key net (fun _ => True));
    try done. apply image_same_clock.
Qed.

(** What it does to the entry of its own key: nothing, or it stores a
    payload stamped with the time of that moment. *)
Lemma listing_resume_entry currency limit a w :
  let w' := snd (fetchTopCoins_resume key net currency limit a w) in
  apiCache (cache w') !! topCoinsKey currency limit
  = apiCache (cache w) !! topCoinsKey currency limit
  \/ exists coins,
       apiCache (cache w') !! topCoinsKey currency limit = Some (coins, now w).
Proof.
  intros w'. subst w'. destruct a as [retries sent | retries due | sent].
  - cbn [fetchTopCoins_resume].
    destruct (markets_reply net sent currency limit) as [data | st].
    + destruct (cacheCoins_stores (topCoinsKey currency limit) (fromCoinGecko key) data w
                  (total_fromCoinGecko key)) as (coins & w1 & E & Hst & _).
      pose proof (fromCoinGecko_store same_clock (topCoinsKey currency limit) data
                    image_same_clock ltac:(done) _ _ _ E) as Hnow.
      unfold cacheCoins in E. rewrite E. cbn [snd]. right. exists coins.
      by rewrite Hst, Hnow.
    + left. by destruct (_ && _).
  - by left.
  - destruct (currencies_reply net sent limit) as [data | st] eqn:Er.
    + destruct (cacheCoins_stores (topCoinsKey currency limit) (fromMoonPay key) data w
                  (total_fromMoonPay key)) as (coins & w1 & E & Hst & _).
      pose proof (fromMoonPay_store same_clock (topCoinsKey currency limit) data
                    image_same_clock ltac:(done) _ _ _ E) as Hnow.
      assert (Hres : fetchTopCoins_resume key net currency limit (AwaitCurrencies sent) w
                     = (Some (Returned coins), w1)).
      { cbn [fetchTopCoins_resume]. unfold try_catch, settled. rewrite Er.
        unfold cacheCoins in E. unfold bind at 1, ret at 1. by rewrite E. }
      rewrite Hres. cbn [snd]. right. exists coins. by rewrite Hst, Hnow.
    + left.
      pose proof (frame_getFallbackCoins (keeps_entry (topCoinsKey currency limit)) key
                    (image_keeps_entry key _)) as Hf.
      destruct (getFallbackCoins key w) as [o w1] eqn:E.
      assert (Hres : fetchTopCoins_resume key net currency limit (AwaitCurrencies sent) w
                     = (Some o, w1)).
      { cbn [fetchTopCoins_resume]. unfold try_catch, settled. rewrite Er.
        unfold bind at 1, throw at 1. by rewrite E. }
      rewrite Hres. exact (Hf _ _ _ E).
Qed.

(** A successful fetch leaves its payload in the cache, stamped with the
    time at which the call ends. *)
Lemma fetched_stores currency limit coins w1 :
  fetched key net currency limit coins w1 ->
  apiCache (cache w1) !! topCoinsKey currency limit = Some (coins, now w1).
Proof.
  intros (a & w0 & Hreply & Hrun).
  destruct a as [retries sent | retries due | sent]; [| done |].
  - destruct Hreply as [data Er]. cbn [fetchTopCoins_resume] in Hrun. rewrite Er in Hrun.
    destruct (cacheCoins_stores (topCoinsKey currency limit) (fromCoinGecko key) data w0
                (total_fromCoinGecko key)) as (coins' & w' & E & Hst & _).
    unfold cacheCoins in E. rewrite E in Hrun. by injection Hrun as <- <-.
  - destruct Hreply as [data Er]. cbn [fetchTopCoins_resume] in Hrun.
    unfold try_catch, settled in Hrun. rewrite Er in Hrun.
    destruct (cacheCoins_stores (topCoinsKey currency limit) (fromMoonPay key) data w0
                (total_fromMoonPay key)) as (coins' & w' & E & Hst & _).
    unfold cacheCoins in E. unfold bind at 1, ret at 1 in Hrun. rewrite E in Hrun.
    by injection Hrun as <- <-.
Qed.

(** An entry of the key that is stamped at or after [t1] stays one, as
    long as less than five minutes have passed since [t1]. *)
Lemma step_keeps_window w w' k t1 :
  step key net w w' ->
  now w' - t1 < cacheExpiry ->
  (exists payload t, apiCache (cache w) !! k = Some (payload, t) /\ t1 <= t <= now w) ->
  exists payload t, apiCache (cache w') !! k = Some (payload, t) /\ t1 <= t <= now w'.
Proof.
  intros Hstep Hage (payload & t & Hk & Ht).
  pose proof (step_clock_advances _ _ _ _ Hstep) as Hclock. unfold clock_advances in Hclock.
  assert (Hkeep : keeps_entry k w w' ->
            exists payload t, apiCache (cache w') !! k = Some (payload, t) /\ t1 <= t <= now w').
  { unfold keeps_entry. intros E. exists payload, t. rewrite E. split; [done | lia]. }
  destruct Hstep as [code w | coinId r w Hin | coinId stage loaded w Hin
                    | currency limit w | currency limit a l1 l2 w Hcalls Hready
                    | query w | query sent l1 l2 w Hcalls
                    | w | d w Hd | r d w Hr Hd | w].
  - apply Hkeep, image_keeps_entry.
  - apply Hkeep. unfold keeps_entry. by rewrite resume_apiCache.
  - apply Hkeep. unfold keeps_entry. by rewrite event_apiCache.
  - apply Hkeep. apply piece_fetchTopCoins_start; try (by intros; unfold keeps_entry); exact _.
  - destruct (decide (topCoinsKey currency limit = k)) as [<- | Hne].
    + destruct (listing_resume_entry currency limit a (set_calls (l1 ++ l2) w))
        as [E | [coins E]].
      * apply Hkeep. exact E.
      * exists coins, (now w). split; [exact E |]. simpl in *. lia.
    + apply Hkeep.
      apply (piece_listing_goes_on _ key net (fun k' => k' <> k));
        try (by intros; unfold keeps_entry); try apply image_keeps_entry.
      intros k' d w0 Hk'. unfold keeps_entry. simpl. by rewrite lookup_insert_ne.
  - apply Hkeep.
    apply piece_searchCryptocurrencies_start; try (by intros; unfold keeps_entry); exact _.
  - apply Hkeep.
    apply (piece_search_goes_on _ key net);
      try (by intros; unfold keeps_entry). apply image_keeps_entry.
  - exists payload, t. split; [| simpl in *; lia].
    simpl in *. apply map_lookup_filter_Some. split; [done |]. simpl.
    destruct (Z.ltb_spec cacheExpiry (now w - t)); [lia | done].
  - by apply Hkeep.
  - by apply Hkeep.
  - by apply Hkeep.
Qed.

Lemma rtc_keeps_window w w' k t1 :
  rtc (step key net) w w' ->
  now w' - t1 < cacheExpiry ->
  (exists payload t, apiCache (cache w) !! k = Some (payload, t) /\ t1 <= t <= now w) ->
  exists payload t, apiCache (cache w') !! k = Some (payload, t) /\ t1 <= t <= now w'.
Proof.
  induction 1 as [| w1 w2 w3 Hstep Hrest IH]; [done |].
  intros Hage Hk. apply IH; [done |].
  eapply step_keeps_window; [exact Hstep | | exact Hk].
  pose proof (rtc_clock_advances _ _ _ _ Hrest) as Hclock.
  unfold clock_advances in Hclock. lia.
Qed.

(** With no call for the parameters in flight, the entry stays as it is
    and no such call gets in flight: one that starts finds the entry. *)
Lemma step_keeps_payload w w' currency limit coins t1 :
  step key net w w' ->
  now w' - t1 < cacheExpiry ->
  apiCache (cache w) !! topCoinsKey currency limit = Some (coins, t1)
  /\ ~ listing_in_flight currency limit w ->
  apiCache (cache w') !! topCoinsKey currency limit = Some (coins, t1)
  /\ ~ listing_in_flight currency limit w'.
Proof.
  intros Hstep Hage [Hk Hnone].
  pose proof (step_clock_advances _ _ _ _ Hstep) as Hclock. unfold clock_advances in Hclock.
  assert (Hkeep : keeps_entry (topCoinsKey currency limit) w w' -> same_calls w w' ->
            apiCache (cache w') !! topCoinsKey currency limit = Some (coins, t1)
            /\ ~ listing_in_flight currency limit w').
  { unfold keeps_entry, same_calls, listing_in_flight. intros E Ec.
    rewrite E, Ec. by split. }
  assert (Hadd : forall c l, keeps_entry (topCoinsKey currency limit) w w' ->
            (forall a, c <> ListingCall currency limit a) ->
            (forall x, x ∈ l -> x ∈ calls w) ->
            (calls w' = l \/ calls w' = (l ++ [c])%list) ->
            apiCache (cache w') !! topCoinsKey currency limit = Some (coins, t1)
            /\ ~ listing_in_flight currency limit w').
  { unfold keeps_entry, listing_in_flight. intros c l E Hc Hl Hcalls.
    rewrite E. split; [done |]. intros [a Hin]. apply Hnone. exists a.
    destruct Hcalls as [Ec | Ec]; rewrite Ec in Hin; [by apply Hl |].
    apply elem_of_app in Hin as [Hin | Hin]; [by apply Hl |].
    apply list_elem_of_singleton in Hin. by destruct (Hc a). }
  destruct Hstep as [code w | coinId r w Hin | coinId stage loaded w Hin
                    | currency' limit' w | currency' limit' a l1 l2 w Hcalls Hready
                    | query w | query sent l1 l2 w Hcalls
                    | w | d w Hd | r d w Hr Hd | w].
  - apply Hkeep; [apply image_keeps_entry | apply image_calls].
  - apply Hkeep; unfold keeps_entry, same_calls;
      [by rewrite resume_apiCache | by rewrite resume_calls].
  - apply Hkeep; unfold keeps_entry, same_calls;
      [by rewrite event_apiCache | by rewrite event_calls].
  - unfold fetchTopCoins_start in *.
    destruct (Cache.getApiData (now w) (topCoinsKey currency' limit') (cache w)) eqn:Hc;
      [by split |].
    apply (Hadd (ListingCall currency' limit' (AwaitMarkets 0 (length (trace w)))) (calls w));
      [done | | done | by right].
    intros a [= -> -> _]. simpl in Hage.
    by rewrite (getApiData_fresh _ _ _ _ _ Hk Hage) in Hc.
  - assert (Hne : topCoinsKey currency' limit' <> topCoinsKey currency limit).
    { intros E. apply topCoinsKey_inj in E as [-> ->]. apply Hnone. exists a.
      rewrite Hcalls. apply elem_of_app. right. by left. }
    assert (Hentry : keeps_entry (topCoinsKey currency limit) w
                       (snd (fetchTopCoins_resume key net currency' limit' a
                               (set_calls (l1 ++ l2) w)))).
    { apply (piece_listing_goes_on _ key net (fun k' => k' <> topCoinsKey currency limit));
        try (by intros; unfold keeps_entry); try apply image_keeps_entry.
      intros k' d w0 Hk'. unfold keeps_entry. simpl. by rewrite lookup_insert_ne. }
    assert (Hl : forall x, x ∈ (l1 ++ l2)%list -> x ∈ calls w).
    { intros x Hx. rewrite Hcalls. apply elem_of_app in Hx as [Hx | Hx];
        apply elem_of_app; [by left | right; by right]. }
    destruct (listing_resume_calls currency' limit' a (set_calls (l1 ++ l2) w))
      as [Ec | [a' Ec]].
    + apply (Hadd (SearchCall EmptyString 0) (l1 ++ l2)%list); [done | done | done | by left].
    + apply (Hadd (ListingCall currency' limit' a') (l1 ++ l2)%list);
        [done | | done | by right].
      intros a0 [= -> -> _]. done.
  - unfold searchCryptocurrencies_start in *.
    destruct (_ || _); [by split |].
    apply (Hadd (SearchCall query (length (trace w))) (calls w)); [done | done | done | by right].
  - assert (Hl : forall x, x ∈ (l1 ++ l2)%list -> x ∈ calls w).
    { intros x Hx. rewrite Hcalls. apply elem_of_app in Hx as [Hx | Hx];
        apply elem_of_app; [by left | right; by right]. }
    apply (Hadd (SearchCall EmptyString 0) (l1 ++ l2)%list); [| done | done | left].
    + apply (piece_search_goes_on _ key net);
        try (by intros; unfold keeps_entry). apply image_keeps_entry.
    + change (same_calls (set_calls (l1 ++ l2) w)
                (snd (searchCryptocurrencies_resume key net query sent
                        (set_calls (l1 ++ l2) w)))).
      destruct (searchCryptocurrencies_resume _ _ _ _ _) as [o w1] eqn:E. cbn [snd].
      revert E. apply piece_searchCryptocurrencies_resume; try done; try exact _.
      apply image_calls.
  - split; [| done]. simpl in *. apply map_lookup_filter_Some. split; [done |]. simpl.
    destruct (Z.ltb_spec cacheExpiry (now w - t1)); [lia | done].
  - by split.
  - by split.
  - by split.
Qed.

Lemma rtc_keeps_payload w w' currency limit coins t1 :
  rtc (step key net) w w' ->
  now w' - t1 < cacheExpiry ->
  apiCache (cache w) !! topCoinsKey currency limit = Some (coins, t1)
  /\ ~ listing_in_flight currency limit w ->
  apiCache (cache w') !! topCoinsKey currency limit = Some (coins, t1)
  /\ ~ listing_in_flight currency limit w'.
Proof.
  induction 1 as [| w1 w2 w3 Hstep Hrest IH]; [done |].
  intros Hage Hk. apply IH; [done |].
  eapply step_keeps_payload; [exact Hstep | | exact Hk].
  pose proof (rtc_clock_advances _ _ _ _ Hrest) as Hclock.
  unfold clock_advances in Hclock. lia.
Qed.

(** C2, amended: a call of [fetchTopCoins] made less than five minutes
    after a successful fetch with the same currency and limit ended,
    whatever happened in the session in between, returns at once the
    payload the cache then holds for these parameters and changes
    nothing: no request is sent. That payload was stored by that fetch or
    by one that ended after it; it is the payload of that fetch itself
    when no other call with these parameters was in flight when it ended.
    An entry that is five minutes old or older counts as absent: the read
    gives nothing and the call starts with a new request to the primary
    provider. *)
Theorem listing_cache_window currency limit :
  (forall coins w1 w2,
     fetched key net currency limit coins w1 ->
     rtc (step key net) w1 w2 ->
     now w2 - now w1 < 5 * 60 * 1000 ->
     exists payload stored,
       apiCache (cache w2) !! topCoinsKey currency limit = Some (payload, stored)
       /\ now w1 <= stored <= now w2
       /\ fetchTopCoins_start currency limit w2 = (Some (Returned payload), w2)
       /\ fetchTopCoins key net currency limit w2 = (Returned payload, w2)
       /\ (~ listing_in_flight currency limit w1 -> payload = coins /\ stored = now w1))
  /\ (forall w data timestamp,
        apiCache (cache w) !! topCoinsKey currency limit = Some (data, timestamp) ->
        5 * 60 * 1000 <= now w - timestamp ->
        Cache.getApiData (now w) (topCoinsKey currency limit) (cache w) = None
        /\ fetchTopCoins_start currency limit w = (None, send_markets currency limit 0 w)
        /\ exists rest,
             trace (snd (fetchTopCoins key net currency limit w))
             = (trace w ++ EvRequest (GetMarkets currency limit) :: rest)%list).
Proof.
  split.
  - intros coins w1 w2 Hf Hsteps Hage.
    pose proof (fetched_stores _ _ _ _ Hf) as Hst.
    destruct (rtc_keeps_window w1 w2 (topCoinsKey currency limit) (now w1) Hsteps Hage)
      as (payload & stored & Hk & Hstored).
    { exists coins, (now w1). split; [done | lia]. }
    assert (Hhit : Cache.getApiData (now w2) (topCoinsKey currency limit) (cache w2)
                   = Some payload).
    { eapply getApiData_fresh; [exact Hk |]. unfold cacheExpiry. lia. }
    exists payload, stored. split; [exact Hk |]. split; [exact Hstored |].
    split; [by unfold fetchTopCoins_start; rewrite Hhit |].
    split; [by apply fetchTopCoins_hit |].
    intros Hnone.
    destruct (rtc_keeps_payload w1 w2 currency limit coins (now w1) Hsteps Hage
                (conj Hst Hnone)) as [Hk' _].
    rewrite Hk' in Hk. by injection Hk as <- <-.
  - intros w data ts Hk Hage.
    assert (Hmiss : Cache.getApiData (now w) (topCoinsKey currency limit) (cache w) = None)
      by (eapply getApiData_expired; [exact Hk | exact Hage]).
    split; [exact Hmiss |].
    split; [by unfold fetchTopCoins_start; rewrite Hmiss |].
    by apply fetchTopCoins_miss_first_request.
Qed.

End CacheWindow.

Lemma listing_cache_window_witness :
  let started := snd (fetchTopCoins_start "usd" 5 (initial 0)) in
  let w0 := set_calls [] (elapse 100 started) in
  let result := fetchTopCoins_resume "k" net_up "usd" 5 (AwaitMarkets 0 0) w0 in
  let w2 := elapse 299999 (snd result) in
  exists coins payload stored,
    fst result = Some (Returned coins)
    /\ apiCache (cache w2) !! topCoinsKey "usd" 5 = Some (payload, stored)
    /\ now (snd result) <= stored <= now w2
    /\ fetchTopCoins_start "usd" 5 w2 = (Some (Returned payload), w2)
    /\ fetchTopCoins "k" net_up "usd" 5 w2 = (Returned payload, w2)
    /\ (~ listing_in_flight "usd" 5 (snd result) -> payload = coins /\ stored = now (snd result)).
Proof.
  intros started w0 result w2.
  destruct (fetchTopCoins_resume "k" net_up "usd" 5 (AwaitMarkets 0 0) w0)
    as [[[coins | e] |] w1] eqn:E; try (vm_compute in E; discriminate E).
  destruct (proj1 (listing_cache_window "k" net_up "usd" 5) coins w1 w2)
    as (payload & stored & H).
  - exists (AwaitMarkets 0 0), w0. split; [by eexists | exact E].
  - apply rtc_once. apply step_time. lia.
  - subst w2. simpl. lia.
  - exists coins, payload, stored. split; [reflexivity | exact H].
Defined.

(** C2, as the code has it: two calls with the same parameters overlap,
    and both miss the cache. The first to get its reply stores and
    returns one payload; the second then stores another. A call made after
    that, well within five minutes of the first fetch, returns the second
    payload, not the first. *)
Lemma overlapping_listing_replaces_the_payload :
  let first := snd (fetchTopCoins_start "usd" 5 (initial 0)) in
  let second := snd (fetchTopCoins_start "usd" 5 first) in
  let w0 := set_calls [ListingCall "usd" 5 (AwaitMarkets 0 1)] (elapse 100 second) in
  let w1 := snd (fetchTopCoins_resume "k" net_moving "usd" 5 (AwaitMarkets 0 0) w0) in
  let w2 := snd (fetchTopCoins_resume "k" net_moving "usd" 5 (AwaitMarkets 0 1)
                   (set_calls [] w1)) in
  exists coins coins',
    reachable "k" net_moving w1
    /\ fetched "k" net_moving "usd" 5 coins w1
    /\ rtc (step "k" net_moving) w1 w2
    /\ now w2 - now w1 < 5 * 60 * 1000
    /\ fetchTopCoins_start "usd" 5 w2 = (Some (Returned coins'), w2)
    /\ coins' <> coins.
Proof.
  intros first second w0 w1 w2.
  exists (match fst (fetchTopCoins_resume "k" net_moving "usd" 5 (AwaitMarkets 0 0) w0) with
          | Some (Returned coins) => coins
          | _ => []
          end), [].
  split; [| split; [| split; [| split; [| split]]]].
  - exists 0.
    eapply rtc_l; [apply (step_fetchTopCoins "k" net_moving "usd" 5) |].
    eapply rtc_l; [apply (step_fetchTopCoins "k" net_moving "usd" 5) |].
    eapply rtc_l; [apply (step_time "k" net_moving 100); lia |].
    apply rtc_once.
    apply (step_fetchTopCoins_resume "k" net_moving "usd" 5 (AwaitMarkets 0 0) []
             [ListingCall "usd" 5 (AwaitMarkets 0 1)] (elapse 100 second));
      [reflexivity | exact I].
  - exists (AwaitMarkets 0 0), w0. split; [by eexists |]. vm_compute. reflexivity.
  - apply rtc_once.
    apply (step_fetchTopCoins_resume "k" net_moving "usd" 5 (AwaitMarkets 0 1) [] [] w1);
      [by vm_compute | exact I].
  - vm_compute. reflexivity.
  - vm_compute. reflexivity.
  - vm_compute. discriminate.
Qed.

(** ** Search *)

Lemma mapM_total_length {A B} (f : A -> M B) (xs : list A) w :
  (forall x, total (f x)) ->
  exists ys w', mapM f xs w = (Returned ys, w') /\ length ys = length xs.
Proof.
  intros Hf. revert w. induction xs as [| x xs IH]; intros w; simpl.
  - by eexists _, _.
  - unfold bind. destruct (Hf x w) as (y & w1 & ->).
    destruct (IH w1) as (ys & w2 & -> & Hl). eexists _, _. split; [done |].
    simpl. by rewrite Hl.
Qed.

Lemma total_withImages key coin : total (withImages key coin).
Proof.
  unfold withImages.
  apply total_bind; [apply total_lift |]. intros thumb.
  apply total_bind; [apply total_lift |]. intros small. apply total_ret.
Qed.

(** C7: [searchCryptocurrencies] always returns, and what it returns has
    at most 15 records. For a query that is empty or made of white space
    only the result is empty and nothing at all happens: no request, no
    change of the world. When the request to the provider is rejected the
    result is empty as well: one request was sent, nothing is thrown and
    no built-in list stands in. *)
Theorem search_is_capped_and_fails_empty key net query w :
  let result := searchCryptocurrencies key net query w in
  (exists items, fst result = Returned items /\ (length items <= 15)%nat)
  /\ (JsString.truthy query = false \/ JsString.all_space query = true ->
        result = (Returned [], w))
  /\ (forall st,
        JsString.truthy query = true -> JsString.all_space query = false ->
        search_reply net (length (trace w)) query = Rejected st ->
        fst result = Returned []
        /\ trace (snd result) = (trace w ++ [EvRequest (GetSearch query)])%list).
Proof.
  intros result. subst result. unfold searchCryptocurrencies. split; [| split].
  - destruct (_ || _); [exists []; split; [done | simpl; lia] |].
    unfold try_catch, bind, axios_get.
    destruct (search_reply net (length (trace w)) query) as [[coins |] | st];
      try (exists []; split; [done | simpl; lia]).
    set (w1 := elapse _ _).
    destruct (mapM_total_length (withImages key) (take 15 coins) w1 (total_withImages key))
      as (items & w2 & -> & Hl).
    exists items. split; [done |]. rewrite Hl, length_take. lia.
  - intros [-> | ->]; [done | by rewrite orb_true_r].
  - intros st -> -> Hrej. simpl.
    unfold try_catch, bind, axios_get. rewrite Hrej. done.
Qed.

(** ** Sample runs *)

(** An identifier of the table of known CDN images. *)
Example tron_resolves_to_the_cdn :
  fst (getCryptoImageUrl "k" "TRON" (initial 0))
  = VStr "https://assets.coingecko.com/coins/images/1958/small/tron.png".
Proof. reflexivity. Qed.

(** An identifier that no table lists: the guessed URL is returned, its
    preload starts, and with an API key the detail lookup is sent. *)
Example unlisted_identifier_is_guessed :
  let result := getCryptoImageUrl "k" "Moon-Cat" (initial 0) in
  fst result
  = VStr "https://assets.coingecko.com/coins/images/1000/small/moon-cat.png?1684385264"
  /\ trace (snd result)
     = [ EvRequest (GetCoinDetail "moon-cat");
         EvImage "https://assets.coingecko.com/coins/images/1000/small/moon-cat.png?1684385264" ]
  /\ inflight (snd result) = ["moon-cat"]
  /\ probing (snd result) = [("moon-cat", 0%nat)].
Proof. repeat split; vm_compute; reflexivity. Qed.

(** A key that the local table inherits from [Object.prototype] passes
    the test [if (localImageMap[coinId])]: what is cached and returned for
    it is the inherited member, not a URL. *)
Example inherited_key_is_returned_as_found :
  fst (getCryptoImageUrl "k" "Constructor" (initial 0)) = VInherited "constructor"
  /\ trace (snd (getCryptoImageUrl "k" "Constructor" (initial 0))) = [].
Proof. split; reflexivity. Qed.

(** A listing served by the primary provider. *)
Example listing_from_the_primary_provider :
  let result := fetchTopCoins "k" net_up "usd" 5 (initial 0) in
  (match fst result with
   | Returned coins => map (fun c => (coin_id c, coin_image c)) coins
   | Thrown _ => []
   end)
  = [("Tron", VStr "https://assets.coingecko.com/coins/images/1958/small/tron.png")]
  /\ trace (snd result) = [EvRequest (GetMarkets "usd" 5)]
  /\ now (snd result) = 100
  /\ apiCache (cache (snd result)) !! "top_coins_usd_5"
     = match fst result with
       | Returned coins => Some (coins, 100)
       | Thrown _ => None
       end.
Proof. repeat split; vm_compute; reflexivity. Qed.


(** * Further properties *)

(** ** The cache as a store *)

(** X1: an image stored for an identifier is read back under every
    spelling of the identifier that differs in letter case only, and
    storing it does not change what is read for any other identifier. *)
Theorem image_cache_round_trip (a b : string) url c :
  (JsString.toLowerCase a = JsString.toLowerCase b ->
     Cache.getImageUrl b (Cache.setImageUrl a url c) = Some url)
  /\ (JsString.toLowerCase a <> JsString.toLowerCase b ->
       Cache.getImageUrl b (Cache.setImageUrl a url c) = Cache.getImageUrl b c).
Proof.
  unfold Cache.getImageUrl, Cache.setImageUrl. simpl. split.
  - intros ->. apply lookup_insert_eq.
  - intros Hne. by apply lookup_insert_ne.
Qed.

(** X2: a payload stored at time [t] is read back at time [t'] exactly
    while less than five minutes have passed; from five minutes on the read
    gives nothing although the entry is still in the map. Entries under
    other keys are read as before. *)
Theorem api_cache_read_window t t' key key' data c :
  (t' - t < 5 * 60 * 1000 ->
     Cache.getApiData t' key (Cache.setApiData t key data c) = Some data)
  /\ (5 * 60 * 1000 <= t' - t ->
       Cache.getApiData t' key (Cache.setApiData t key data c) = None
       /\ apiCache (Cache.setApiData t key data c) !! key = Some (data, t))
  /\ (key' <> key ->
       Cache.getApiData t' key' (Cache.setApiData t key data c)
       = Cache.getApiData t' key' c).
Proof.
  unfold Cache.getApiData, Cache.setApiData. simpl. split; [| split].
  - intros Hage. rewrite lookup_insert_eq.
    destruct (Z.ltb_spec (t' - t) cacheExpiry); [done | unfold cacheExpiry in *; lia].
  - intros Hage. rewrite lookup_insert_eq. split; [| done].
    destruct (Z.ltb_spec (t' - t) cacheExpiry); [unfold cacheExpiry in *; lia | done].
  - intros Hne. by rewrite lookup_insert_ne.
Qed.

(** X3: the periodic sweep cannot be seen through the reads: at the time
    of the sweep and at any later time, every key reads the same with and
    without it. What the sweep leaves is at most five minutes old, and it
    touches nothing but the API cache. *)
Theorem sweep_is_invisible_to_reads t t' key c :
  t <= t' ->
  Cache.getApiData t' key (Cache.clearExpired t c) = Cache.getApiData t' key c
  /\ (forall data timestamp,
        apiCache (Cache.clearExpired t c) !! key = Some (data, timestamp) ->
        t - timestamp <= 5 * 60 * 1000)
  /\ imageCache (Cache.clearExpired t c) = imageCache c
  /\ coinBlacklist (Cache.clearExpired t c) = coinBlacklist c
  /\ apiCallAttempts (Cache.clearExpired t c) = apiCallAttempts c
  /\ rateLimitedUntil (Cache.clearExpired t c) = rateLimitedUntil c.
Proof.
  intros Ht. split; [| split; [| done]].
  - unfold Cache.getApiData, Cache.clearExpired. simpl.
    destruct (apiCache c !! key) as [[data ts] |] eqn:E.
    + destruct (Z.ltb_spec cacheExpiry (t - ts)) as [Hold | Hyoung].
      * match goal with |- context [filter ?P ?m !! key] =>
          assert (Hf : filter P m !! key = None)
        end.
        { apply map_lookup_filter_None. right. intros x Hx.
          rewrite E in Hx. injection Hx as <-. simpl.
          destruct (Z.ltb_spec cacheExpiry (t - ts)); [done | lia]. }
        rewrite Hf. destruct (Z.ltb_spec (t' - ts) cacheExpiry); [lia | done].
      * match goal with |- context [filter ?P ?m !! key] =>
          assert (Hf : filter P m !! key = Some (data, ts))
        end.
        { apply map_lookup_filter_Some. split; [done |]. simpl.
          destruct (Z.ltb_spec cacheExpiry (t - ts)); [lia | done]. }
        by rewrite Hf.
    + match goal with |- context [filter ?P ?m !! key] =>
        assert (Hf : filter P m !! key = None)
      end.
      { apply map_lookup_filter_None. by left. }
      by rewrite Hf.
  - intros data ts H. unfold Cache.clearExpired in H. simpl in H.
    apply map_lookup_filter_Some in H as [_ H]. simpl in H.
    destruct (Z.ltb_spec cacheExpiry (t - ts)); [done |].
    unfold cacheExpiry in *. lia.
Qed.

Lemma sweep_is_invisible_to_reads_witness :
  let c := Cache.setApiData 1000 "top_coins_usd_5" [] Cache.empty in
  Cache.getApiData 400000 "top_coins_usd_5" (Cache.clearExpired 350000 c)
  = Cache.getApiData 400000 "top_coins_usd_5" c
  /\ (forall data timestamp,
        apiCache (Cache.clearExpired 350000 c) !! "top_coins_usd_5" = Some (data, timestamp) ->
        350000 - timestamp <= 5 * 60 * 1000)
  /\ imageCache (Cache.clearExpired 350000 c) = imageCache c
  /\ coinBlacklist (Cache.clearExpired 350000 c) = coinBlacklist c
  /\ apiCallAttempts (Cache.clearExpired 350000 c) = apiCallAttempts c
  /\ rateLimitedUntil (Cache.clearExpired 350000 c) = rateLimitedUntil c.
Proof.
  apply (sweep_is_invisible_to_reads 350000 400000 "top_coins_usd_5"
           (Cache.setApiData 1000 "top_coins_usd_5" [] Cache.empty)).
  lia.
Defined.

(** X4: once a detail lookup has been marked for an identifier at a time
    other than zero, [shouldTryApiCall] refuses the identifier, in any letter
    case, until more than one minute has passed; after that it allows it
    again unless the gate is closed or the identifier is blacklisted. *)
Theorem cooldown_after_attempt t t' (a b : string) c :
  t <> 0 ->
  JsString.toLowerCase a = JsString.toLowerCase b ->
  (t' - t <= 60 * 1000 ->
     Cache.shouldTryApiCall t' b (Cache.markApiCallAttempt t a c) = false)
  /\ (60 * 1000 < t' - t ->
       Cache.shouldTryApiCall t' b (Cache.markApiCallAttempt t a c)
       = negb (Cache.isRateLimited t' c || Cache.isBlacklisted b c)).
Proof.
  intros Ht Hab.
  unfold Cache.shouldTryApiCall, Cache.markApiCallAttempt, Cache.isRateLimited,
    Cache.isBlacklisted. simpl.
  rewrite !toLowerCase_idem, Hab, lookup_insert_eq.
  apply Z.eqb_neq in Ht. rewrite Ht. simpl.
  split; intros Hage; destruct (_ || _); try done;
    destruct (Z.ltb_spec apiCooldown (t' - t)); unfold apiCooldown in *; try done; lia.
Qed.

Lemma cooldown_after_attempt_witness :
  (61000 - 1000 <= 60 * 1000 ->
     Cache.shouldTryApiCall 61000 "MOON-cat" (Cache.markApiCallAttempt 1000 "Moon-Cat" Cache.empty)
     = false)
  /\ (60 * 1000 < 61000 - 1000 ->
       Cache.shouldTryApiCall 61000 "MOON-cat" (Cache.markApiCallAttempt 1000 "Moon-Cat" Cache.empty)
       = negb (Cache.isRateLimited 61000 Cache.empty || Cache.isBlacklisted "MOON-cat" Cache.empty)).
Proof.
  apply (cooldown_after_attempt 1000 61000 "Moon-Cat" "MOON-cat" Cache.empty).
  - discriminate.
  - reflexivity.
Defined.

(** ** Image resolution over a session *)

(** Every write to the image cache stores a value that passes the
    truthiness test. *)
Lemma image_call_writes_truthy key code w :
  imageCache (cache (snd (getCryptoImageUrl key code w))) = imageCache (cache w)
  \/ exists url,
       jsval_truthy url = true
       /\ imageCache (cache (snd (getCryptoImageUrl key code w)))
          = <[JsString.toLowerCase code := url]> (imageCache (cache w)).
Proof.
  destruct (getCryptoImageUrl_world key code w) as [-> | [(url & Hs & ->) | [_ ->]]].
  - by left.
  - right. exists url. split; [by eapply static_url_truthy |].
    simpl. by rewrite toLowerCase_idem.
  - right. exists (VStr (guessUrl (JsString.toLowerCase code))). split; [done |].
    by rewrite after_guess_imageCache, toLowerCase_idem.
Qed.

Lemma resume_writes_truthy coinId r w :
  imageCache (cache (tryFetchCoinData_resume coinId r w)) = imageCache (cache w)
  \/ exists url,
       jsval_truthy url = true
       /\ imageCache (cache (tryFetchCoinData_resume coinId r w))
          = <[JsString.toLowerCase coinId := url]> (imageCache (cache w)).
Proof.
  unfold tryFetchCoinData_resume.
  repeat (case_match; simpl);
    first [by left | right; eexists; split; [| reflexivity]; by simpl].
Qed.

Lemma string_of_units_truthy l : l <> [] -> jsval_truthy (string_of_units l) = true.
Proof.
  destruct l as [| u r]; [done |]. intros _. unfold string_of_units.
  cbn [JsString.narrow]. destruct (u <? 256)%N; [destruct (JsString.narrow r) |]; done.
Qed.

Lemma svgPlaceholder_truthy coinId : jsval_truthy (svgPlaceholder coinId) = true.
Proof.
  apply string_of_units_truthy. intros H. apply app_eq_nil in H as [H _].
  discriminate H.
Qed.

Lemma event_writes_truthy coinId stage loaded w :
  imageCache (cache (onImageEvent coinId stage loaded w)) = imageCache (cache w)
  \/ exists url,
       jsval_truthy url = true
       /\ imageCache (cache (onImageEvent coinId stage loaded w))
          = <[JsString.toLowerCase coinId := url]> (imageCache (cache w)).
Proof.
  unfold onImageEvent.
  repeat (case_match; simpl);
    first [ by left
          | right; eexists; split; [| reflexivity]; by simpl
          | right; eexists; split; [apply svgPlaceholder_truthy | reflexivity] ].
Qed.

Lemma cached_truthy_after_write k k' (m m' : gmap string jsval) :
  (exists v, m !! k = Some v /\ jsval_truthy v = true) ->
  (m' = m \/ exists url, jsval_truthy url = true /\ m' = <[k' := url]> m) ->
  exists v, m' !! k = Some v /\ jsval_truthy v = true.
Proof.
  intros (v & Hv & Ht) [-> | (url & Hu & ->)]; [eauto |].
  destruct (decide (k' = k)) as [-> | Hne].
  - exists url. by rewrite lookup_insert_eq.
  - exists v. by rewrite lookup_insert_ne.
Qed.

#[local] Instance keeps_cached_preorder k : PreOrder (keeps_cached k).
Proof. split; unfold keeps_cached; [intros w | intros w1 w2 w3]; tauto. Qed.

Lemma image_keeps_cached key k code w :
  keeps_cached k w (snd (getCryptoImageUrl key code w)).
Proof.
  intros H. eapply cached_truthy_after_write; [exact H | apply image_call_writes_truthy].
Qed.

Lemma step_keeps_cached key net k w w' : step key net w w' -> keeps_cached k w w'.
Proof.
  destruct 1 as [code w | coinId r w Hin | coinId stage loaded w Hin
                | currency limit w | currency limit a l1 l2 w Hcalls Hready
                | query w | query sent l1 l2 w Hcalls
                | w | d w Hd | r d w Hr Hd | w];
    try (by unfold keeps_cached, cached_truthy).
  - apply image_keeps_cached.
  - intros H. unfold cached_truthy.
    eapply cached_truthy_after_write; [exact H |].
    apply (resume_writes_truthy coinId r (set_inflight _ w)).
  - intros H. unfold cached_truthy.
    eapply cached_truthy_after_write; [exact H |].
    apply (event_writes_truthy coinId stage loaded (set_probing _ w)).
  - apply piece_fetchTopCoins_start;
      try (by intros; unfold keeps_cached, cached_truthy); exact _.
  - apply (piece_listing_goes_on _ key net (fun _ => True));
      try (by intros; unfold keeps_cached, cached_truthy).
    apply image_keeps_cached.
  - apply piece_searchCryptocurrencies_start;
      try (by intros; unfold keeps_cached, cached_truthy); exact _.
  - apply (piece_search_goes_on _ key net);
      try (by intros; unfold keeps_cached, cached_truthy).
    apply image_keeps_cached.
Qed.

Lemma rtc_keeps_cached key net k w w' :
  rtc (step key net) w w' -> keeps_cached k w w'.
Proof.
  induction 1 as [| w1 w2 w3 Hstep _ IH]; [reflexivity |].
  etransitivity; [by eapply step_keeps_cached | exact IH].
Qed.

(** X5: once an identifier has been resolved, every later resolution of
    it in the session, under any spelling that differs in letter case only,
    is a read of the cache: it returns what the cache holds at that moment
    and leaves the world as it is, so nothing is sent and nothing is
    started, whatever happened in between. *)
Theorem resolved_once_then_read_from_cache key net (code code' : string) w w2 :
  JsString.truthy code = true ->
  JsString.toLowerCase code' = JsString.toLowerCase code ->
  rtc (step key net) (snd (getCryptoImageUrl key code w)) w2 ->
  exists v,
    getCryptoImageUrl key code' w2 = (v, w2)
    /\ Cache.getImageUrl code (cache w2) = Some v
    /\ jsval_truthy v = true.
Proof.
  intros Hc Hcc Hrun.
  destruct (getImageUrl_after_call key code w Hc) as [Hu Ht].
  assert (Hcached : cached_truthy (JsString.toLowerCase code)
                      (snd (getCryptoImageUrl key code w))) by (eexists; eauto).
  apply (rtc_keeps_cached _ _ _ _ _ Hrun) in Hcached as (v & Hv & Htv).
  exists v. split; [| by split].
  apply getCryptoImageUrl_hit; [| | done].
  - by rewrite <- truthy_toLowerCase, Hcc, truthy_toLowerCase.
  - unfold Cache.getImageUrl. by rewrite Hcc.
Qed.

Lemma resolved_once_then_read_from_cache_witness :
  exists v,
    getCryptoImageUrl "k" "MOON-CAT" (after_detail (Responded not_found))
    = (v, after_detail (Responded not_found))
    /\ Cache.getImageUrl "moon-cat" (cache (after_detail (Responded not_found))) = Some v
    /\ jsval_truthy v = true.
Proof.
  apply (resolved_once_then_read_from_cache "k" net_down "moon-cat" "MOON-CAT" (initial 1000)).
  - reflexivity.
  - reflexivity.
  - apply rtc_once. apply step_detail_response. vm_compute. apply list_elem_of_here.
Defined.

(** X6: a call of [getCryptoImageUrl] never changes the clock, the API
    cache or the deadline of the gate, never takes an identifier off the
    blacklist, and only adds to the trace and to the lookups in flight. *)
Theorem image_resolution_leaves_the_rest key code w :
  let w' := snd (getCryptoImageUrl key code w) in
  now w' = now w
  /\ apiCache (cache w') = apiCache (cache w)
  /\ rateLimitedUntil (cache w') = rateLimitedUntil (cache w)
  /\ coinBlacklist (cache w) ⊆ coinBlacklist (cache w')
  /\ (exists sent, trace w' = (trace w ++ sent)%list)
  /\ (exists started, inflight w' = (inflight w ++ started)%list).
Proof.
  intros w'. subst w'.
  split; [apply image_now |].
  split.
  { destruct (getCryptoImageUrl_world key code w) as [-> | [(url & _ & ->) | [_ ->]]];
      [done | done | apply after_guess_apiCache]. }
  split; [apply image_rateLimitedUntil |].
  split; [apply image_blacklist_grows |].
  split; [apply image_trace_extends |].
  destruct (getCryptoImageUrl_world key code w) as [-> | [(url & _ & ->) | [_ ->]]].
  - exists []. by rewrite app_nil_r.
  - exists []. simpl. by rewrite app_nil_r.
  - destruct (after_guess_inflight key (JsString.toLowerCase code) w) as [-> | ->];
      [exists []; by rewrite app_nil_r | by eexists].
Qed.

(** ** Detail lookups over a session *)

(** A variant of the frame: the relation need not hold for the sending of
    a detail lookup, which the listing operations never do themselves. *)
Section QuietFrame.
Context (R : World -> World -> Prop) `{!PreOrder R}.
Variable key : string.
Variable net : Network.

Hypothesis R_image : forall code w, R w (snd (getCryptoImageUrl key code w)).
Hypothesis R_emit : forall e w, is_detail_lookup e = false -> R w (emit e w).
Hypothesis R_elapse : forall d w, 0 <= d -> R w (elapse d w).
Hypothesis R_setApiData : forall k data w,
  R w (with_cache (Cache.setApiData (now w) k data) w).

Lemma quiet_axios_get {T} r (answer : nat -> reply T) :
  is_detail_lookup (EvRequest r) = false ->
  preserves R (axios_get net r answer).
Proof.
  intros Hr w o w' Hrun. unfold axios_get in Hrun.
  assert (R w (elapse (Z.of_N (latency net (length (trace w)))) (emit (EvRequest r) w))).
  { transitivity (emit (EvRequest r) w); [by apply R_emit | apply R_elapse; lia]. }
  destruct (answer _); by injection Hrun as <- <-.
Qed.

Lemma quiet_sleep ms : 0 <= ms -> preserves R (sleep ms).
Proof.
  intros Hms. apply preserves_update. intros w.
  transitivity (emit (EvTimer ms) w); [by apply R_emit | by apply R_elapse].
Qed.

Lemma quiet_fetchWithRetry_loop {T} remaining r (answer : nat -> reply T) retries :
  is_detail_lookup (EvRequest r) = false ->
  preserves R (fetchWithRetry_loop net remaining r answer retries).
Proof.
  intros Hr. revert retries. induction remaining as [| n IH]; intros retries; simpl;
    (apply preserves_try_catch; [exact _ | by apply quiet_axios_get |]);
    intros e; destruct (is_rate_limit_error e); try (apply preserves_throw; exact _).
  destruct (retries <? MAX_RETRIES)%nat; [| apply preserves_throw; exact _].
  apply preserves_bind; [exact _ | by apply quiet_sleep |]. intros _. apply IH.
Qed.

Lemma quiet_cacheCoins {A} cacheKey (convert : A -> M CoinData) data :
  (forall x, preserves R (convert x)) ->
  preserves R (cacheCoins cacheKey convert data).
Proof.
  intros Hconv. unfold cacheCoins.
  apply preserves_bind; [exact _ | apply preserves_mapM; [exact _ | exact Hconv] |].
  intros coins.
  apply preserves_bind; [exact _ | | intros _; apply preserves_ret; exact _].
  apply preserves_update. intros w. apply R_setApiData.
Qed.

Lemma quiet_convert code (k : jsval -> M CoinData) :
  (forall image, preserves R (k image)) ->
  preserves R (bind (lift (getCryptoImageUrl key code)) k).
Proof.
  intros Hk. apply preserves_bind; [exact _ | | exact Hk].
  apply preserves_lift. apply R_image.
Qed.

Lemma quiet_fetchTopCoins currency limit :
  preserves R (fetchTopCoins key net currency limit).
Proof.
  unfold fetchTopCoins.
  apply preserves_try_catch; [exact _ | |].
  2: { intros _. by apply (frame_getFallbackCoins _ key). }
  apply preserves_bind; [exact _ | |].
  { intros w o w' [= <- <-]. reflexivity. }
  intros [cached |]; [apply preserves_ret; exact _ |].
  apply preserves_try_catch; [exact _ | |].
  - apply preserves_bind; [exact _ | by apply quiet_fetchWithRetry_loop |]. intros data.
    apply (quiet_cacheCoins (topCoinsKey currency limit) (fromCoinGecko key) data).
    intros c. apply quiet_convert. intros image. apply preserves_ret. exact _.
  - intros _. apply preserves_bind; [exact _ | by apply quiet_axios_get |]. intros data.
    apply (quiet_cacheCoins (topCoinsKey currency limit) (fromMoonPay key) data).
    intros c. apply quiet_convert. intros image. apply preserves_ret. exact _.
Qed.

Lemma quiet_searchCryptocurrencies query :
  preserves R (searchCryptocurrencies key net query).
Proof.
  unfold searchCryptocurrencies.
  destruct (_ || _); [apply preserves_ret; exact _ |].
  apply preserves_try_catch; [exact _ | | intros _; apply preserves_ret; exact _].
  apply preserves_bind; [exact _ | by apply quiet_axios_get |].
  intros [coins |]; [| apply preserves_ret; exact _].
  apply preserves_mapM; [exact _ |]. intros c. unfold withImages.
  apply preserves_bind; [exact _ | apply preserves_lift, R_image |]. intros ?.
  apply preserves_bind; [exact _ | apply preserves_lift, R_image |]. intros ?.
  apply preserves_ret. exact _.
Qed.

End QuietFrame.

Lemma detail_lookups_app coinId (l1 l2 : list event) :
  detail_lookups coinId (l1 ++ l2)
  = (detail_lookups coinId l1 + detail_lookups coinId l2)%nat.
Proof. unfold detail_lookups. by rewrite List.filter_app, length_app. Qed.

Lemma detail_lookups_quiet coinId (l : list event) :
  forallb (fun e => negb (is_detail_lookup e)) l = true ->
  detail_lookups coinId l = 0%nat.
Proof.
  unfold detail_lookups. induction l as [| e l IH]; simpl; [done |].
  intros H. apply andb_prop in H as [He Hl].
  destruct e as [[] | |]; simpl in *; try discriminate; by apply IH.
Qed.

Lemma detail_lookups_elem_of coinId (l : list event) :
  EvRequest (GetCoinDetail coinId) ∈ l <-> (1 <= detail_lookups coinId l)%nat.
Proof.
  unfold detail_lookups. induction l as [| e l IH]; simpl.
  - split; [intros H; by apply elem_of_nil in H | lia].
  - rewrite elem_of_cons, IH.
    destruct (is_lookup_of coinId e) eqn:E; simpl.
    + split; [lia |]. intros _. left.
      destruct e as [[] | |]; simpl in E; try discriminate.
      apply String.eqb_eq in E. by subst.
    + split; [| tauto]. intros [<- | H]; [| done].
      simpl in E. by rewrite String.eqb_refl in E.
Qed.

(** A step that sends no detail lookup and writes at most one truthy
    value to the image cache keeps the invariant. *)
Lemma lookup_inv_quiet key w w' :
  (imageCache (cache w') = imageCache (cache w)
   \/ exists k url, jsval_truthy url = true
        /\ imageCache (cache w') = <[k := url]> (imageCache (cache w))) ->
  (exists extra, trace w' = (trace w ++ extra)%list
     /\ forallb (fun e => negb (is_detail_lookup e)) extra = true) ->
  lookup_inv key w -> lookup_inv key w'.
Proof.
  intros Hcache (extra & Htr & Hquiet) (Ha & Hb & Hc).
  assert (Hcount : forall coinId,
            detail_lookups coinId (trace w') = detail_lookups coinId (trace w)).
  { intros c. rewrite Htr, detail_lookups_app, (detail_lookups_quiet _ _ Hquiet). lia. }
  split; [| split].
  - intros k v Hk. destruct Hcache as [E | (k' & url & Hu & E)]; rewrite E in Hk; [eauto |].
    destruct (decide (k' = k)) as [-> | Hne].
    + rewrite lookup_insert_eq in Hk. by injection Hk as <-.
    + rewrite lookup_insert_ne in Hk by done. eauto.
  - intros c. rewrite Hcount. apply Hb.
  - intros c Hone. rewrite Hcount in Hone.
    destruct (Hc c Hone) as (Hsome & Hrest). split; [| exact Hrest].
    destruct Hcache as [E | (k' & url & Hu & E)]; rewrite E; [done |].
    destruct (decide (k' = c)) as [-> | Hne].
    + rewrite lookup_insert_eq. by eexists.
    + by rewrite lookup_insert_ne.
Qed.

#[local] Instance keeps_lookup_inv_preorder key : PreOrder (keeps_lookup_inv key).
Proof. split; unfold keeps_lookup_inv; [intros w | intros w1 w2 w3]; tauto. Qed.

(** What the dynamic branch adds to the trace: the preload of the guess,
    preceded by the detail lookup when one is sent, which needs an API key
    and an identifier outside the list of problem coins. *)
Lemma after_guess_trace key coinId w :
  trace (after_guess key coinId w) = (trace w ++ [EvImage (guessUrl coinId)])%list
  \/ (JsString.truthy key = true
      /\ (coinId ∉ problemCoins)
      /\ trace (after_guess key coinId w)
         = (trace w ++ [EvRequest (GetCoinDetail coinId); EvImage (guessUrl coinId)])%list).
Proof.
  unfold after_guess, tryFetchCoinData_start.
  destruct (JsString.truthy key) eqn:Hk; simpl; [| by left].
  destruct (Cache.shouldTryApiCall _ _ _); simpl; [| by left].
  destruct (negb _); simpl; [| by left].
  case_bool_decide as Hp; simpl; [by left |].
  right. split; [done |]. split; [done |]. by rewrite <- app_assoc.
Qed.

(** The dynamic branch is taken on a cache miss only. *)
Lemma getCryptoImageUrl_world_miss key code w :
  snd (getCryptoImageUrl key code w) = w
  \/ (exists url, static_url (JsString.toLowerCase code) = Some url
        /\ snd (getCryptoImageUrl key code w)
           = with_cache (Cache.setImageUrl (JsString.toLowerCase code) url) w)
  \/ (static_url (JsString.toLowerCase code) = None
        /\ if_truthy (imageCache (cache w) !! JsString.toLowerCase code) = None
        /\ snd (getCryptoImageUrl key code w)
           = after_guess key (JsString.toLowerCase code) w).
Proof.
  unfold getCryptoImageUrl. destruct (JsString.truthy code); simpl; [| by left].
  unfold Cache.getImageUrl. rewrite toLowerCase_idem.
  destruct (if_truthy _) as [u |] eqn:E; [by left |].
  destruct (static_url (JsString.toLowerCase code)) as [u |] eqn:Hs.
  - rewrite (resolveImageUrl_static _ _ _ _ Hs). right. left. eauto.
  - rewrite (resolveImageUrl_dynamic _ _ _ Hs). right. right. done.
Qed.

Lemma image_keeps_lookup_inv key code w :
  keeps_lookup_inv key w (snd (getCryptoImageUrl key code w)).
Proof.
  intros Hinv.
  destruct (getCryptoImageUrl_world_miss key code w)
    as [-> | [(url & Hs & ->) | (Hs & Hmiss & ->)]]; [done | |].
  - eapply lookup_inv_quiet; [| | exact Hinv].
    + right. exists (JsString.toLowerCase (JsString.toLowerCase code)), url.
      split; [by eapply static_url_truthy | done].
    + exists []. simpl. by rewrite app_nil_r.
  - set (id := JsString.toLowerCase code) in *.
    destruct Hinv as (Ha & Hb & Hc).
    assert (Hnone : imageCache (cache w) !! id = None).
    { destruct (imageCache (cache w) !! id) as [v |] eqn:E; [| done].
      simpl in Hmiss. by rewrite (Ha _ _ E) in Hmiss. }
    assert (Hzero : detail_lookups id (trace w) = 0%nat).
    { destruct (detail_lookups id (trace w)) as [| n] eqn:E; [done |].
      destruct (Hc id) as [[v Hv] _]; [lia | congruence]. }
    assert (Hid : JsString.toLowerCase id = id) by apply toLowerCase_idem.
    split; [| split].
    + intros k v Hk. rewrite after_guess_imageCache in Hk.
      destruct (decide (JsString.toLowerCase id = k)) as [<- | Hne].
      * rewrite lookup_insert_eq in Hk. by injection Hk as <-.
      * rewrite lookup_insert_ne in Hk by done. eauto.
    + intros c. destruct (after_guess_trace key id w) as [-> | (_ & _ & ->)];
        rewrite detail_lookups_app; unfold detail_lookups at 2; simpl.
      * specialize (Hb c). lia.
      * destruct (String.eqb_spec id c) as [Heq | Hne]; simpl.
        -- rewrite <- Heq, Hzero. lia.
        -- specialize (Hb c). lia.
    + intros c Hone. rewrite after_guess_imageCache, Hid.
      destruct (after_guess_trace key id w) as [E | (Hk & Hp & E)];
        rewrite E, detail_lookups_app in Hone; unfold detail_lookups at 2 in Hone;
        simpl in Hone.
      * destruct (Hc c) as (Hsome & Hrest); [lia |]. split; [| exact Hrest].
        destruct (decide (id = c)) as [Heq | Hne];
          [rewrite Heq, lookup_insert_eq; by eexists | by rewrite lookup_insert_ne].
      * destruct (String.eqb_spec id c) as [Heq | Hne]; simpl in Hone.
        -- rewrite <- Heq. split; [rewrite lookup_insert_eq; by eexists | done].
        -- destruct (Hc c) as (Hsome & Hrest); [lia |]. split; [| exact Hrest].
           by rewrite lookup_insert_ne.
Qed.

Lemma step_keeps_lookup_inv key net w w' :
  step key net w w' -> keeps_lookup_inv key w w'.
Proof.
  assert (Hemit : forall e w0, is_detail_lookup e = false ->
            keeps_lookup_inv key w0 (emit e w0)).
  { intros e w0 He. unfold keeps_lookup_inv; apply lookup_inv_quiet; [by left |].
    exists [e]. split; [done |]. simpl. by rewrite He. }
  assert (Hset : forall k data w0,
            keeps_lookup_inv key w0 (with_cache (Cache.setApiData (now w0) k data) w0)).
  { intros k data w0. unfold keeps_lookup_inv; apply lookup_inv_quiet; [by left |].
    exists []. split; [simpl; by rewrite app_nil_r | done]. }
  assert (Hcalls : forall l w0, keeps_lookup_inv key w0 (set_calls l w0)).
  { intros l w0. unfold keeps_lookup_inv; apply lookup_inv_quiet; [by left |].
    exists []. split; [simpl; by rewrite app_nil_r | done]. }
  destruct 1 as [code w | coinId r w Hin | coinId stage loaded w Hin
                | currency limit w | currency limit a l1 l2 w Hcalls' Hready
                | query w | query sent l1 l2 w Hcalls'
                | w | d w Hd | r d w Hr Hd | w].
  - apply image_keeps_lookup_inv.
  - unfold keeps_lookup_inv. apply lookup_inv_quiet.
    + destruct (resume_writes_truthy coinId r (set_inflight (remove_one coinId (inflight w)) w))
        as [E | (url & Hu & E)]; [by left | right; eauto].
    + exists []. split; [| done]. rewrite app_nil_r.
      unfold tryFetchCoinData_resume. repeat (case_match; simpl); reflexivity.
  - unfold keeps_lookup_inv. apply lookup_inv_quiet.
    + destruct (event_writes_truthy coinId stage loaded
                  (set_probing (remove_one (coinId, stage) (probing w)) w))
        as [E | (url & Hu & E)]; [by left | right; eauto].
    + unfold onImageEvent. repeat (case_match; simpl);
        first [ exists []; split; [by rewrite app_nil_r | done]
              | eexists [_]; split; [reflexivity | done] ].
  - apply piece_fetchTopCoins_start; [exact _ | exact Hemit | exact Hcalls].
  - apply (piece_listing_goes_on _ key net (fun _ => True)); try done.
    apply image_keeps_lookup_inv.
  - apply piece_searchCryptocurrencies_start; [exact _ | exact Hemit | exact Hcalls].
  - apply (piece_search_goes_on _ key net); try done.
    apply image_keeps_lookup_inv.
  - unfold keeps_lookup_inv; apply lookup_inv_quiet; [by left |].
    exists []. split; [simpl; by rewrite app_nil_r | done].
  - unfold keeps_lookup_inv; apply lookup_inv_quiet; [by left |].
    exists []. split; [simpl; by rewrite app_nil_r | done].
  - unfold keeps_lookup_inv; apply lookup_inv_quiet; [by left |].
    exists [EvRequest r]. split; [done |]. by destruct r.
  - unfold keeps_lookup_inv; apply lookup_inv_quiet; [by left |].
    by exists [EvTimer API_BACKOFF_MS].
Qed.

Lemma rtc_keeps_lookup_inv key net w w' :
  rtc (step key net) w w' -> lookup_inv key w -> lookup_inv key w'.
Proof.
  induction 1 as [| w1 w2 w3 Hstep _ IH]; [done |].
  intros Hinv. apply IH. by apply (step_keeps_lookup_inv _ _ _ _ Hstep).
Qed.

Lemma reachable_lookup_inv key net w : reachable key net w -> lookup_inv key w.
Proof.
  intros [t0 Hrun]. eapply rtc_keeps_lookup_inv; [exact Hrun |].
  split; [| split]; simpl.
  - intros k v Hk. by rewrite lookup_empty in Hk.
  - intros c. unfold detail_lookups. simpl. lia.
  - intros c. unfold detail_lookups. simpl. lia.
Qed.

(** X7: in a session, the detail lookup of the provider is sent at most
    once for each identifier, however often and under whatever spelling its
    image is asked for, and whatever else happens. *)
Theorem one_detail_lookup_per_identifier key net w coinId :
  reachable key net w ->
  (detail_lookups coinId (trace w) <= 1)%nat.
Proof.
  intros Hr. by destruct (reachable_lookup_inv _ _ _ Hr) as (_ & Hb & _).
Qed.

Lemma one_detail_lookup_per_identifier_witness :
  (detail_lookups "moon-cat"
     (trace (snd (getCryptoImageUrl "k" "MOON-CAT" awaiting_detail))) <= 1)%nat.
Proof.
  apply (one_detail_lookup_per_identifier "k" net_down).
  exists 1000.
  eapply rtc_l; [apply step_getCryptoImageUrl |].
  apply rtc_once. apply step_getCryptoImageUrl.
Defined.

(** X8: a detail lookup is only ever sent with an API key configured, for
    an identifier in lower case that has no static URL (it is neither the
    site's own coin nor in the local table nor in the table of known CDN
    images) and that is not one of the known problem coins; once sent, the
    identifier has a cached image. *)
Theorem detail_lookups_are_for_unlisted_identifiers key net w coinId :
  reachable key net w ->
  EvRequest (GetCoinDetail coinId) ∈ trace w ->
  JsString.truthy key = true
  /\ JsString.toLowerCase coinId = coinId
  /\ static_url coinId = None
  /\ (coinId ∉ problemCoins)
  /\ is_Some (Cache.getImageUrl coinId (cache w)).
Proof.
  intros Hr Hin. apply detail_lookups_elem_of in Hin.
  destruct (reachable_lookup_inv _ _ _ Hr) as (_ & _ & Hc).
  destruct (Hc coinId Hin) as (Hsome & Hs & Hp & Hl & Hk).
  unfold Cache.getImageUrl. rewrite Hl. done.
Qed.

Lemma detail_lookups_are_for_unlisted_identifiers_witness :
  JsString.truthy "k" = true
  /\ JsString.toLowerCase "moon-cat" = "moon-cat"
  /\ static_url "moon-cat" = None
  /\ ("moon-cat" ∉ problemCoins)
  /\ is_Some (Cache.getImageUrl "moon-cat" (cache awaiting_detail)).
Proof.
  apply (detail_lookups_are_for_unlisted_identifiers "k" net_down awaiting_detail).
  - exists 1000. apply rtc_once. apply step_getCryptoImageUrl.
  - vm_compute. apply list_elem_of_here.
Defined.

(** ** Retries, whatever the provider answers *)

Lemma fetchWithRetry_loop_attempts {T} net remaining r (answer : nat -> reply T) retries w :
  exists n,
    (n <= remaining)%nat
    /\ trace (snd (fetchWithRetry_loop net remaining r answer retries w))
       = (trace w ++ attempts r n)%list.
Proof.
  revert retries w. induction remaining as [| k IH]; intros retries w; simpl;
    unfold try_catch, axios_get;
    destruct (answer (length (trace w))) as [data | st];
    try (exists 0%nat; split; [lia | done]);
    destruct (is_rate_limit_error _); try (exists 0%nat; split; [lia | done]).
  destruct (retries <? MAX_RETRIES)%nat; [| exists 0%nat; split; [lia | done]].
  unfold bind, sleep, update.
  match goal with |- context [fetchWithRetry_loop net k r answer ?rt ?w0] =>
    destruct (IH rt w0) as (n & Hn & Htr)
  end.
  exists (S n). split; [lia |]. rewrite Htr. simpl. by rewrite <- !app_assoc.
Qed.

Lemma attempts_requests r n :
  api_requests (attempts r n) = replicate (S n) (EvRequest r).
Proof. induction n as [| n IH]; simpl; [done |]. by rewrite IH. Qed.

(** X9: whatever the provider answers, a call of [fetchWithRetry] adds to
    the trace one request, followed, for some number of retries that is at
    most three, by a wait of two seconds and the same request again: never
    more than four requests, never another request, never a wait before the
    first attempt or after the last. *)
Theorem fetchWithRetry_sends_at_most_four {T} net r (answer : nat -> reply T) w :
  exists n,
    (n <= 3)%nat
    /\ trace (snd (fetchWithRetry net r answer 0 w)) = (trace w ++ attempts r n)%list
    /\ api_requests (attempts r n) = replicate (S n) (EvRequest r)
    /\ (length (api_requests (attempts r n)) <= 4)%nat.
Proof.
  unfold fetchWithRetry.
  destruct (fetchWithRetry_loop_attempts net (MAX_RETRIES - 0) r answer 0 w)
    as (n & Hn & Htr).
  exists n. simpl in Hn. split; [exact Hn |]. split; [exact Htr |].
  rewrite attempts_requests, length_replicate. split; [done | lia].
Qed.

(** ** Listings *)


Section ListingExtras.
Variable key : string.
Variable net : Network.






End ListingExtras.


Lemma or_zero_is_number x : is_number (JsNumber.or_zero x) = true.
Proof.
  unfold JsNumber.or_zero, JsNumber.truthy, is_number.
  destruct x as [v |]; [| reflexivity].
  destruct (Prim2SF v) eqn:E; try reflexivity; by rewrite E.
Qed.

Section Conversions.
Variable key : string.
Variable net : Network.

Lemma mapM_fromCoinGecko_fields data w coins w' :
  mapM (fromCoinGecko key) data w = (Returned coins, w') ->
  map quote_fields coins = map primary_fields data /\ now w' = now w.
Proof.
  revert w coins w'. induction data as [| r data IH]; intros w coins w'; simpl.
  - by intros [= <- <-].
  - unfold bind at 1. unfold fromCoinGecko at 1. unfold bind at 1, lift, ret.
    pose proof (image_now key (cg_id r) w) as Hnow.
    destruct (getCryptoImageUrl key (cg_id r) w) as [image w1]. simpl in Hnow.
    unfold bind at 1.
    destruct (mapM (fromCoinGecko key) data w1) as [[ys | e] w2] eqn:E; [| discriminate].
    intros [= <- <-]. destruct (IH _ _ _ E) as [Hf Ht].
    simpl. split; [by rewrite Hf | lia].
Qed.

Lemma mapM_fromMoonPay_fields data w coins w' :
  mapM (fromMoonPay key) data w = (Returned coins, w') ->
  Forall2 made_from_record coins data /\ now w' = now w.
Proof.
  revert w coins w'. induction data as [| r data IH]; intros w coins w'; simpl.
  - intros [= <- <-]. split; [constructor | done].
  - unfold bind at 1. unfold fromMoonPay at 1. unfold bind at 1, lift, ret.
    pose proof (image_now key (mp_code r) w) as Hnow.
    destruct (getCryptoImageUrl key (mp_code r) w) as [image w1]. simpl in Hnow.
    unfold bind at 1.
    destruct (mapM (fromMoonPay key) data w1) as [[ys | e] w2] eqn:E; [| discriminate].
    intros [= <- <-]. destruct (IH _ _ _ E) as [Hf Ht].
    split; [| lia]. constructor; [| exact Hf].
    unfold made_from_record, quote_numbers, record_numbers. simpl.
    rewrite !or_zero_is_number. done.
Qed.

Lemma cacheCoins_result {A} cacheKey (convert : A -> M CoinData) data w coins w' :
  cacheCoins cacheKey convert data w = (Returned coins, w') ->
  exists w0,
    mapM convert data w = (Returned coins, w0)
    /\ w' = with_cache (Cache.setApiData (now w0) cacheKey coins) w0.
Proof.
  unfold cacheCoins, bind at 1.
  destruct (mapM convert data w) as [[ys | e] w0]; [| discriminate].
  unfold bind, setApiData, update, ret. intros [= <- <-]. by exists w0.
Qed.

(** X11: a listing served by the primary provider has one quote for each
    record of the reply, in the order of the reply and with the fields of
    the record; nothing is cut to the requested limit. What is returned is
    what is cached, stamped with the time at which the reply arrived. *)
Theorem listing_from_primary_follows_the_reply currency limit w data w1 :
  Cache.getApiData (now w) (topCoinsKey currency limit) (cache w) = None ->
  fetchWithRetry net (GetMarkets currency limit)
    (fun i => markets_reply net i currency limit) 0 w = (Returned data, w1) ->
  exists coins w',
    fetchTopCoins key net currency limit w = (Returned coins, w')
    /\ map quote_fields coins = map primary_fields data
    /\ length coins = length data
    /\ apiCache (cache w') !! topCoinsKey currency limit = Some (coins, now w1).
Proof.
  intros Hmiss E. rewrite (fetchTopCoins_miss key net _ _ _ Hmiss), E.
  destruct (cacheCoins_stores (topCoinsKey currency limit) (fromCoinGecko key) data w1
              (total_fromCoinGecko key)) as (coins & w' & Ec & Hst & Hl).
  exists coins, w'. split; [exact Ec |].
  destruct (cacheCoins_result _ _ _ _ _ _ Ec) as (w0 & Em & ->).
  destruct (mapM_fromCoinGecko_fields _ _ _ _ Em) as [Hf Ht].
  split; [exact Hf |]. split; [exact Hl |].
  simpl. rewrite lookup_insert_eq. by rewrite Ht.
Qed.

(** X12: a listing served by the secondary provider, after the primary
    call has failed, has one quote for each record of the reply, in order.
    The code of the record is both identifier and symbol of the quote, a
    number that the record lacks, or gives as zero or as [NaN], is zero in
    the quote, so that no number of the quote is [NaN], and the quote has
    no daily high or low. *)
Theorem listing_from_secondary_fills_the_gaps currency limit w e w1 data :
  Cache.getApiData (now w) (topCoinsKey currency limit) (cache w) = None ->
  fetchWithRetry net (GetMarkets currency limit)
    (fun i => markets_reply net i currency limit) 0 w = (Thrown e, w1) ->
  currencies_reply net (length (trace w1)) limit = Resolved data ->
  exists coins w',
    fetchTopCoins key net currency limit w = (Returned coins, w')
    /\ Forall2 made_from_record coins data
    /\ apiCache (cache w') !! topCoinsKey currency limit = Some (coins, now w').
Proof.
  intros Hmiss E Hs. rewrite (fetchTopCoins_miss key net _ _ _ Hmiss), E.
  unfold axios_get. rewrite Hs. set (w2 := elapse _ _).
  destruct (cacheCoins_stores (topCoinsKey currency limit) (fromMoonPay key) data w2
              (total_fromMoonPay key)) as (coins & w' & Ec & Hst & Hl).
  exists coins, w'. split; [exact Ec |]. split; [| exact Hst].
  destruct (cacheCoins_result _ _ _ _ _ _ Ec) as (w0 & Em & ->).
  by destruct (mapM_fromMoonPay_fields _ _ _ _ Em) as [Hf _].
Qed.

End Conversions.

Lemma listing_from_primary_follows_the_reply_witness :
  exists coins w',
    fetchTopCoins "k" net_up "usd" 5 (initial 0) = (Returned coins, w')
    /\ map quote_fields coins = map primary_fields [sample_quote]
    /\ length coins = length [sample_quote]
    /\ apiCache (cache w') !! topCoinsKey "usd" 5 = Some (coins, 100).
Proof.
  eapply (listing_from_primary_follows_the_reply "k" net_up "usd" 5 (initial 0)
            [sample_quote]
            (elapse 100 (emit (EvRequest (GetMarkets "usd" 5)) (initial 0)))).
  - reflexivity.
  - reflexivity.
Defined.

Lemma listing_from_secondary_fills_the_gaps_witness :
  exists coins w',
    fetchTopCoins "k" net_secondary "usd" 5 (initial 0) = (Returned coins, w')
    /\ Forall2 made_from_record coins [sample_currency]
    /\ apiCache (cache w') !! topCoinsKey "usd" 5 = Some (coins, now w').
Proof.
  eapply (listing_from_secondary_fills_the_gaps "k" net_secondary "usd" 5 (initial 0)
            (AxiosError (Some 500))
            (elapse 100 (emit (EvRequest (GetMarkets "usd" 5)) (initial 0)))).
  - reflexivity.
  - reflexivity.
  - reflexivity.
Defined.

(** ** Cache keys of the listings *)

(** X13: two listing requests that differ in the currency or in the limit
    never share a cache key, and a call for one of them leaves the cached
    entry of the other exactly as it was. *)
Theorem listings_do_not_collide key net c1 l1 c2 l2 w :
  (c1, l1) <> (c2, l2) ->
  topCoinsKey c1 l1 <> topCoinsKey c2 l2
  /\ apiCache (cache (snd (fetchTopCoins key net c1 l1 w))) !! topCoinsKey c2 l2
     = apiCache (cache w) !! topCoinsKey c2 l2.
Proof.
  intros Hne.
  assert (Hk : topCoinsKey c1 l1 <> topCoinsKey c2 l2).
  { intros H. apply topCoinsKey_inj in H as [-> ->]. by apply Hne. }
  split; [exact Hk |].
  apply (preserves_snd (keeps_entry (topCoinsKey c2 l2))).
  apply (frame_fetchTopCoins _ key net (fun k' => k' <> topCoinsKey c2 l2));
    try (by intros; unfold keeps_entry); try apply image_keeps_entry.
  intros k' d w0 Hk'. unfold keeps_entry. simpl. by rewrite lookup_insert_ne.
Qed.

Lemma listings_do_not_collide_witness :
  topCoinsKey "usd_1" 0 <> topCoinsKey "usd" 10
  /\ apiCache (cache (snd (fetchTopCoins "k" net_up "usd_1" 0 (initial 0)))) !! topCoinsKey "usd" 10
     = apiCache (cache (initial 0)) !! topCoinsKey "usd" 10.
Proof.
  apply (listings_do_not_collide "k" net_up "usd_1" 0 "usd" 10 (initial 0)).
  discriminate.
Defined.

(** ** Search results *)

Lemma second_call_returns_the_same key code w :
  getCryptoImageUrl key code (snd (getCryptoImageUrl key code w))
  = (fst (getCryptoImageUrl key code w), snd (getCryptoImageUrl key code w)).
Proof.
  destruct (JsString.truthy code) eqn:Hc.
  - destruct (getImageUrl_after_call key code w Hc) as [Hu Ht].
    by apply getCryptoImageUrl_hit.
  - by rewrite !getCryptoImageUrl_empty.
Qed.

#[local] Instance keeps_value_preorder k v : PreOrder (keeps_value k v).
Proof. split; unfold keeps_value; [intros w | intros w1 w2 w3]; tauto. Qed.

(** A call does not change the image cached for another identifier, nor
    one that is cached for its own and passes the test. *)
Lemma image_keeps_value key k v code w :
  jsval_truthy v = true ->
  keeps_value k v w (snd (getCryptoImageUrl key code w)).
Proof.
  intros Hv Hk.
  destruct (JsString.truthy code) eqn:Hc; [| by rewrite getCryptoImageUrl_empty].
  destruct (decide (JsString.toLowerCase code = k)) as [<- | Hne].
  - by rewrite (getCryptoImageUrl_hit key code v w Hc Hk Hv).
  - destruct (image_call_writes_truthy key code w) as [-> | (url & _ & ->)]; [done |].
    by rewrite lookup_insert_ne.
Qed.

Lemma withImages_keeps_value key k v coins :
  jsval_truthy v = true ->
  preserves (keeps_value k v) (mapM (withImages key) coins).
Proof.
  intros Hv. apply preserves_mapM; [exact _ |]. intros c. unfold withImages.
  apply preserves_bind; [exact _ | apply preserves_lift; intros ?; by apply image_keeps_value |].
  intros ?.
  apply preserves_bind; [exact _ | apply preserves_lift; intros ?; by apply image_keeps_value |].
  intros ?. apply preserves_ret. exact _.
Qed.

Lemma mapM_withImages_fields key coins w items w' :
  mapM (withImages key) coins w = (Returned items, w') ->
  map search_fields items = map search_fields coins
  /\ Forall (fun item =>
               sr_thumb item = Some (fst (getCryptoImageUrl key (sr_id item) w'))
               /\ sr_small item = sr_thumb item) items.
Proof.
  revert w items w'. induction coins as [| c coins IH]; intros w items w'; simpl.
  - intros [= <- <-]. split; [done | constructor].
  - unfold bind at 1. unfold withImages at 1. unfold bind at 1, lift.
    destruct (getCryptoImageUrl key (sr_id c) w) as [thumb w1] eqn:E1.
    unfold bind at 1.
    pose proof (second_call_returns_the_same key (sr_id c) w) as E2.
    rewrite E1 in E2. simpl in E2. rewrite E2. unfold ret at 1.
    unfold bind at 1.
    destruct (mapM (withImages key) coins w1) as [[ys | e] w2] eqn:E; [| discriminate].
    intros [= <- <-]. destruct (IH _ _ _ E) as [Hf Hi].
    split; [simpl; by rewrite Hf |]. constructor; [| exact Hi]. simpl.
    split; [| done]. f_equal.
    destruct (JsString.truthy (sr_id c)) eqn:Hc.
    + destruct (getImageUrl_after_call key (sr_id c) w Hc) as [Hu Ht].
      rewrite E1 in Hu, Ht. simpl in Hu, Ht. unfold Cache.getImageUrl in Hu.
      pose proof (withImages_keeps_value key _ thumb coins Ht _ _ _ E Hu) as Hlater.
      by rewrite (getCryptoImageUrl_hit key (sr_id c) thumb w2 Hc Hlater Ht).
    + rewrite getCryptoImageUrl_empty in E1 by done. injection E1 as <- _.
      by rewrite getCryptoImageUrl_empty.
Qed.

(** X14: when the provider answers a search, the result is made of its
    first fifteen records, in order and with their identifier, name, symbol
    and rank; in every record of the result the two images that the code
    sets, [thumb] and [small], are the image that [getCryptoImageUrl]
    resolves for the identifier of the record, the one a call made right
    after the search returns, whatever images the provider sent. *)
Theorem search_follows_the_first_fifteen key net query w coins :
  JsString.truthy query = true ->
  JsString.all_space query = false ->
  search_reply net (length (trace w)) query = Resolved (Some coins) ->
  exists items w',
    searchCryptocurrencies key net query w = (Returned items, w')
    /\ map search_fields items = map search_fields (take 15 coins)
    /\ Forall (fun item =>
                 sr_thumb item = Some (fst (getCryptoImageUrl key (sr_id item) w'))
                 /\ sr_small item = sr_thumb item) items.
Proof.
  intros Hq Hs Hr. unfold searchCryptocurrencies. rewrite Hq, Hs. simpl.
  unfold try_catch, bind at 1, axios_get. rewrite Hr.
  set (w1 := elapse _ _).
  destruct (mapM_total_length (withImages key) (take 15 coins) w1 (total_withImages key))
    as (items & w2 & E & _).
  rewrite E. exists items, w2. split; [done |].
  by apply (mapM_withImages_fields key _ w1 _ w2).
Qed.

Lemma search_follows_the_first_fifteen_witness :
  exists items w',
    searchCryptocurrencies "k" net_secondary "cat" (initial 0) = (Returned items, w')
    /\ map search_fields items = map search_fields (take 15 sample_matches)
    /\ Forall (fun item =>
                 sr_thumb item = Some (fst (getCryptoImageUrl "k" (sr_id item) w'))
                 /\ sr_small item = sr_thumb item) items.
Proof.
  eapply (search_follows_the_first_fifteen "k" net_secondary "cat" (initial 0) sample_matches).
  - reflexivity.
  - reflexivity.
  - reflexivity.
Defined.

(** ** Failed detail lookups *)

Lemma resume_failed_blacklists coinId r w :
  lookup_failed r = true ->
  JsString.toLowerCase coinId ∈ coinBlacklist (cache (tryFetchCoinData_resume coinId r w)).
Proof.
  unfold lookup_failed, tryFetchCoinData_resume, response_ok.
  destruct r as [response |]; [| intros _; simpl; set_solver].
  destruct (status response =? 429); [done |]. simpl.
  destruct ((status response =? 400) || (status response =? 404));
    [intros _; simpl; set_solver |].
  destruct ((200 <=? status response) && (status response <=? 299)); simpl.
  - destruct (json response); [intros _; simpl; set_solver | done].
  - intros _. set_solver.
Qed.

Lemma resume_not_failed_keeps_blacklist coinId r w :
  lookup_failed r = false ->
  coinBlacklist (cache (tryFetchCoinData_resume coinId r w)) = coinBlacklist (cache w).
Proof.
  unfold lookup_failed, tryFetchCoinData_resume, response_ok.
  destruct r as [response |]; [| done].
  destruct (Z.eqb_spec (status response) 429) as [E | E]; [done |]. simpl.
  destruct (Z.eqb_spec (status response) 400) as [E4 | E4];
    [rewrite E4; simpl; discriminate |].
  destruct (Z.eqb_spec (status response) 404) as [E5 | E5];
    [rewrite E5; simpl; discriminate |]. simpl.
  destruct ((200 <=? status response) && (status response <=? 299)); simpl; [| done].
  destruct (json response) as [| [u |]]; [done | | done].
  intros _. by destruct (JsString.truthy u).
Qed.

(** X15: one failed detail lookup is enough to blacklist an identifier
    for the rest of the session: a request that fails, a response with any
    status outside 200 to 299 other than 429, or a body that is not JSON.
    From then on [shouldTryApiCall] refuses the identifier and its image is
    resolved without any provider request. A response 429 or a successful
    response, with or without an image, leaves the blacklist as it is. *)
Theorem any_failed_lookup_blacklists key net coinId r w :
  (lookup_failed r = true ->
   forall w' code,
     rtc (step key net) (tryFetchCoinData_resume coinId r w) w' ->
     JsString.toLowerCase code = JsString.toLowerCase coinId ->
     Cache.isBlacklisted code (cache w') = true
     /\ Cache.shouldTryApiCall (now w') code (cache w') = false
     /\ api_requests (trace (snd (getCryptoImageUrl key code w'))) = api_requests (trace w'))
  /\ (lookup_failed r = false ->
      coinBlacklist (cache (tryFetchCoinData_resume coinId r w)) = coinBlacklist (cache w)).
Proof.
  split; [| apply resume_not_failed_keeps_blacklist].
  intros Hf w' code Hrun Hcode.
  assert (Hin : JsString.toLowerCase code ∈ coinBlacklist (cache w')).
  { rewrite Hcode. apply (rtc_blacklist_grows _ _ _ _ Hrun).
    by apply resume_failed_blacklists. }
  split; [by apply bool_decide_eq_true_2 |].
  split; [by apply shouldTryApiCall_blacklisted |].
  apply getCryptoImageUrl_no_request.
  apply shouldTryApiCall_blacklisted. by rewrite toLowerCase_idem.
Qed.

Lemma any_failed_lookup_blacklists_witness :
  Cache.isBlacklisted "Moon-Cat" (cache (elapse 3600000 (after_detail (Responded server_error))))
  = true
  /\ coinBlacklist (cache (after_detail (Responded (too_many_requests None))))
     = coinBlacklist (cache awaiting_detail).
Proof.
  split.
  - apply (proj1 (any_failed_lookup_blacklists "k" net_down "moon-cat"
                    (Responded server_error)
                    (set_inflight (remove_one "moon-cat" (inflight awaiting_detail))
                       awaiting_detail))
             eq_refl (elapse 3600000 (after_detail (Responded server_error))) "Moon-Cat").
    + apply rtc_once. apply step_time. lia.
    + reflexivity.
  - apply (proj2 (any_failed_lookup_blacklists "k" net_down "moon-cat"
                    (Responded (too_many_requests None))
                    (set_inflight (remove_one "moon-cat" (inflight awaiting_detail))
                       awaiting_detail))
             eq_refl).
Defined.

(** ** Formatting, in general *)

Lemma digit_is_word c : JsString.is_digit c = true -> JsString.is_word c = true.
Proof. unfold JsString.is_word. intros ->. by rewrite orb_true_r. Qed.

Lemma digit_is_no_comma c : JsString.is_digit c = true -> Ascii.eqb "," c = false.
Proof. destruct c as [[] [] [] [] [] [] [] []]; simpl; done. Qed.

Lemma digit_run_all_digits s :
  chars_in JsString.is_digit s = true -> JsNumber.digit_run s = String.length s.
Proof.
  induction s as [| c r IH]; simpl; [done |].
  intros H. apply andb_prop in H as [-> Hr]. by rewrite IH.
Qed.

Lemma strip_commas_insert prev s :
  JsString.has_char "," s = false ->
  strip_commas (JsNumber.insert_group_commas prev s) = s.
Proof.
  revert prev. induction s as [| c r IH]; intros prev Hs.
  - simpl. by destruct (JsNumber.group_boundary prev EmptyString).
  - simpl in Hs. apply orb_false_elim in Hs as [Hc Hr].
    cbn [JsNumber.insert_group_commas].
    assert (Hc' : Ascii.eqb c "," = false).
    { destruct (Ascii.eqb_spec c ",") as [E | E]; [| done]. rewrite E in Hc. discriminate Hc. }
    destruct (JsNumber.group_boundary prev (String c r)); simpl;
      rewrite Hc', (IH (Some c) Hr); done.
Qed.

Lemma thirds_step m :
  (S m / 3 = m / 3 + (if S m mod 3 =? 0 then 1 else 0))%nat.
Proof.
  pose proof (Nat.div_mod_eq (S m) 3). pose proof (Nat.div_mod_eq m 3).
  pose proof (Nat.mod_upper_bound m 3). pose proof (Nat.mod_upper_bound (S m) 3).
  destruct (Nat.eqb_spec (S m mod 3) 0); lia.
Qed.

Lemma count_commas_after_word p s :
  JsString.is_word p = true ->
  chars_in JsString.is_digit s = true ->
  count_char "," (JsNumber.insert_group_commas (Some p) s) = (String.length s / 3)%nat.
Proof.
  revert p. induction s as [| d r IH]; intros p Hp Hs.
  - reflexivity.
  - pose proof (digit_run_all_digits _ Hs) as Hrun.
    simpl in Hs. apply andb_prop in Hs as [Hd Hr].
    cbn [JsNumber.insert_group_commas]. unfold JsNumber.group_boundary.
    rewrite Hrun, Hp, andb_true_r. cbn [String.length].
    rewrite thirds_step.
    change (0 <? S (String.length r))%nat with true. cbn [andb].
    destruct (S (String.length r) mod 3 =? 0)%nat; cbn [count_char];
      rewrite ?Ascii.eqb_refl, (digit_is_no_comma _ Hd),
        (IH d (digit_is_word _ Hd) Hr); lia.
Qed.

(** On a string of digits the thousands separator only adds commas:
    taking the commas out again gives the digits back, the result does not
    begin with a comma, and a number of n digits gets (n - 1) / 3 commas. *)
Lemma group_commas_only_add_commas s :
  chars_in JsString.is_digit s = true ->
  strip_commas (JsNumber.insert_group_commas None s) = s
  /\ (forall r, JsNumber.insert_group_commas None s <> String "," r)
  /\ count_char "," (JsNumber.insert_group_commas None s)
     = ((String.length s - 1) / 3)%nat.
Proof.
  intros Hs.
  assert (Hno : JsString.has_char "," s = false).
  { clear -Hs. induction s as [| c r IH]; [done |].
    cbn [chars_in] in Hs. apply andb_prop in Hs as [Hc Hr].
    cbn [JsString.has_char]. by rewrite (digit_is_no_comma _ Hc), IH. }
  split; [by apply strip_commas_insert |].
  destruct s as [| d r]; [split; [done | reflexivity] |].
  simpl in Hs. apply andb_prop in Hs as [Hd Hr].
  cbn [JsNumber.insert_group_commas]. unfold JsNumber.group_boundary.
  rewrite !andb_false_r. split.
  - intros r0 [= E _]. subst d. discriminate.
  - cbn [count_char String.length].
    rewrite (digit_is_no_comma _ Hd), (count_commas_after_word d r (digit_is_word _ Hd) Hr).
    replace (S (String.length r) - 1)%nat with (String.length r) by lia. done.
Qed.

Lemma chars_in_append P s1 s2 :
  chars_in P (s1 ++ s2) = chars_in P s1 && chars_in P s2.
Proof.
  induction s1 as [| c r IH]; simpl; [done |].
  by rewrite IH, andb_assoc.
Qed.

Lemma chars_in_substring P a b s :
  chars_in P s = true -> chars_in P (substring a b s) = true.
Proof.
  revert a b. induction s as [| c r IH]; intros a b Hs.
  - by destruct a, b.
  - cbn [chars_in] in Hs. apply andb_prop in Hs as [Hc Hr].
    destruct a as [| a]; [destruct b as [| b] |]; cbn [substring chars_in]; [done | |].
    + by rewrite Hc, IH.
    + by apply IH.
Qed.

Lemma chars_in_repeat P c n : P c = true -> chars_in P (JsString.repeat_char c n) = true.
Proof. intros Hc. induction n as [| n IH]; cbn [JsString.repeat_char chars_in]; [done |]. by rewrite Hc. Qed.

Lemma chars_in_weaken (P Q : ascii -> bool) s :
  (forall c, P c = true -> Q c = true) -> chars_in P s = true -> chars_in Q s = true.
Proof.
  intros HPQ. induction s as [| c r IH]; cbn [chars_in]; [done |].
  intros H. apply andb_prop in H as [Hc Hr]. by rewrite (HPQ _ Hc), IH.
Qed.

Lemma digits_are_digits (d : Decimal.uint) :
  chars_in JsString.is_digit (NilEmpty.string_of_uint d) = true.
Proof. induction d; simpl; done. Qed.

Lemma of_Z_digits z : 0 <= z -> chars_in JsString.is_digit (JsString.of_Z z) = true.
Proof.
  intros Hz. unfold JsString.of_Z. destruct z as [| p | p]; [done | | lia].
  simpl. unfold NilZero.string_of_uint.
  pose proof (digits_are_digits (Pos.to_uint p)) as H.
  by destruct (Pos.to_uint p).
Qed.

Lemma fixed_digits_chars n f :
  0 <= n -> chars_in digit_or_point (JsNumber.fixed_digits n f) = true.
Proof.
  intros Hn.
  assert (Hd : chars_in digit_or_point (JsString.of_Z n) = true).
  { apply (chars_in_weaken JsString.is_digit); [| by apply of_Z_digits].
    intros c Hc. unfold digit_or_point. by rewrite Hc. }
  unfold JsNumber.fixed_digits. destruct f as [| f]; [exact Hd |].
  set (m' := if (_ <=? _)%nat then _ else _).
  assert (Hm : chars_in digit_or_point m' = true).
  { subst m'. destruct (_ <=? _)%nat; [| exact Hd].
    rewrite chars_in_append, Hd, andb_true_r. by apply chars_in_repeat. }
  rewrite !chars_in_append. cbn [chars_in].
  rewrite !chars_in_substring by exact Hm. reflexivity.
Qed.

(** X16: a finite price of at least 1000 (below the magnitude from which the
    host prints an exponent) is printed as a dollar sign followed by the
    digits of the price rounded to a whole number, with commas put in and
    nothing else: no decimal point, the digits themselves unchanged, and
    (n - 1) / 3 commas for n digits. *)
Theorem formatPrice_groups_whole_prices Number_toString price m e :
  Prim2SF price = S754_finite false m e ->
  PrimFloat.leb 1000 price = true ->
  PrimFloat.leb 1e21 (PrimFloat.abs price) = false ->
  let digits := JsString.of_Z (JsNumber.round_scaled m e 0) in
  chars_in JsString.is_digit digits = true
  /\ strip_commas (formatPrice Number_toString (Some price)) = "$" ++ digits
  /\ count_char "," (formatPrice Number_toString (Some price))
     = ((String.length digits - 1) / 3)%nat
  /\ JsString.has_char "." (formatPrice Number_toString (Some price)) = false.
Proof.
  intros Hfin Hge Hlt digits.
  destruct (formatPrice_whole_from_1000 Number_toString price m e Hfin Hge Hlt) as [E Hp].
  fold digits in E.
  assert (Hd : chars_in JsString.is_digit digits = true)
    by apply of_Z_digits, round_scaled_nonneg.
  destruct (group_commas_only_add_commas digits Hd) as (Hstrip & _ & Hcount).
  split; [exact Hd |]. rewrite E. split; [| split; [| by rewrite <- E]].
  - change ("$" ++ ?x) with (String "$" x). cbn [strip_commas].
    change (Ascii.eqb "$" ",") with false. cbv iota. by rewrite Hstrip.
  - change ("$" ++ ?x) with (String "$" x). cbn [count_char].
    change (Ascii.eqb "," "$") with false. cbv iota. by rewrite Hcount.
Qed.

Lemma formatPrice_groups_whole_prices_witness :
  let digits := JsString.of_Z (JsNumber.round_scaled 5429388417957888 (-42) 0) in
  chars_in JsString.is_digit digits = true
  /\ strip_commas (formatPrice (fun _ => EmptyString) (Some 1234.5%float)) = "$" ++ digits
  /\ count_char "," (formatPrice (fun _ => EmptyString) (Some 1234.5%float))
     = ((String.length digits - 1) / 3)%nat
  /\ JsString.has_char "." (formatPrice (fun _ => EmptyString) (Some 1234.5%float)) = false.
Proof.
  apply (formatPrice_groups_whole_prices (fun _ => EmptyString) 1234.5%float
           5429388417957888 (-42)).
  - vm_compute. reflexivity.
  - vm_compute. reflexivity.
  - vm_compute. reflexivity.
Defined.

(** X17: a finite change (below the magnitude from which the host prints
    an exponent) is printed with exactly one sign in front, a minus for a
    negative change, however small, and a plus otherwise, followed by
    digits with a decimal point and the percent sign: never two signs and
    never none. *)
Theorem formatPriceChange_has_one_sign Number_toString change neg m e :
  Prim2SF change = S754_finite neg m e ->
  PrimFloat.leb 1e21 (PrimFloat.abs change) = false ->
  exists body,
    formatPriceChange Number_toString (Some change)
    = (if neg then "-" else "+") ++ body ++ "%"
    /\ chars_in digit_or_point body = true.
Proof.
  intros Hfin Hlt.
  exists (JsNumber.fixed_digits (JsNumber.round_scaled m e 2) 2).
  split; [| apply fixed_digits_chars, round_scaled_nonneg].
  unfold formatPriceChange, JsNumber.toFixed.
  rewrite FloatAxioms.leb_spec, Hfin, Hlt.
  change (Prim2SF 0) with (S754_zero false).
  unfold SFleb, SFcompare. by destruct neg.
Qed.

Lemma formatPriceChange_has_one_sign_witness :
  exists body,
    formatPriceChange (fun _ => EmptyString) (Some (-0.001)%float)
    = "-" ++ body ++ "%"
    /\ chars_in digit_or_point body = true.
Proof.
  apply (formatPriceChange_has_one_sign (fun _ => EmptyString) (-0.001)%float true
           4611686018427388 (-62)).
  - vm_compute. reflexivity.
  - vm_compute. reflexivity.
Defined.

(** ** On-ramp helpers *)

Lemma own_property_elem {A : Type} (o : list (string * A)) k a :
  own_property o k = Some a -> (k, a) ∈ o.
Proof.
  induction o as [| [k' a'] r IH]; cbn [own_property]; [done |].
  destruct (String.eqb k' k) eqn:E.
  - apply String.eqb_eq in E as ->. intros [= ->]. by left.
  - intros H. right. by apply IH.
Qed.

(** X18: for an identifier that is not the name of a member every object
    inherits, the on-ramp currency code is a string: the code the table
    gives the identifier, or the identifier itself, unchanged and in its
    own case; converting the result again changes nothing.  For an
    inherited name the result is that inherited member, not a string. *)
Theorem getMoonPayCurrencyCode_is_code_or_identity coinId :
  (coinId ∉ object_prototype_keys ->
   exists code,
     getMoonPayCurrencyCode coinId = VStr code
     /\ ((coinId, code) ∈ moonPayCodeMap \/ code = coinId)
     /\ getMoonPayCurrencyCode code = VStr code)
  /\ (coinId ∈ object_prototype_keys ->
      getMoonPayCurrencyCode coinId = VInherited coinId).
Proof.
  split.
  - intros Hk. unfold getMoonPayCurrencyCode, table_get, object_get.
    destruct (own_property moonPayCodeMap coinId) as [code |] eqn:E.
    + pose proof (own_property_elem _ _ _ E) as Hin.
      assert (Hcode : JsString.truthy code = true
                      /\ getMoonPayCurrencyCode code = VStr code).
      { clear -Hin. unfold moonPayCodeMap in Hin.
        repeat (apply elem_of_cons in Hin as [[= _ ->] | Hin]; [by vm_compute |]).
        by apply elem_of_nil in Hin. }
      destruct Hcode as [Ht Hidem]. exists code. cbn [if_truthy jsval_truthy].
      rewrite Ht. auto.
    + rewrite bool_decide_eq_false_2 by done. exists coinId. cbn [if_truthy].
      split; [done |]. split; [by right |].
      unfold getMoonPayCurrencyCode, table_get, object_get. rewrite E.
      by rewrite bool_decide_eq_false_2.
  - intros Hk. unfold object_prototype_keys in Hk.
    repeat (apply elem_of_cons in Hk as [-> | Hk]; [by vm_compute |]).
    by apply elem_of_nil in Hk.
Qed.

Lemma getMoonPayCurrencyCode_is_code_or_identity_witness :
  (exists code,
     getMoonPayCurrencyCode "avalanche-2" = VStr code
     /\ (("avalanche-2", code) ∈ moonPayCodeMap \/ code = "avalanche-2")
     /\ getMoonPayCurrencyCode code = VStr code)
  /\ getMoonPayCurrencyCode "toString" = VInherited "toString".
Proof.
  split.
  - apply (getMoonPayCurrencyCode_is_code_or_identity "avalanche-2").
    apply (bool_decide_unpack _). vm_compute. exact I.
  - apply (getMoonPayCurrencyCode_is_code_or_identity "toString").
    apply (bool_decide_unpack _). vm_compute. exact I.
Defined.

Lemma count_char_append c s1 s2 :
  count_char c (s1 ++ s2) = (count_char c s1 + count_char c s2)%nat.
Proof.
  induction s1 as [| c' r IH]; simpl; [done |]. rewrite IH. lia.
Qed.

(** The characters an encoded name or value is made of. *)
Lemma urlencode_byte_chars c :
  chars_in (fun x => negb (JsString.has_char x "?=&#")) (urlencode_byte c) = true.
Proof. by destruct c as [[] [] [] [] [] [] [] []]; vm_compute. Qed.

Lemma urlencode_chars s :
  chars_in (fun x => negb (JsString.has_char x "?=&#")) (urlencode s) = true.
Proof.
  induction s as [| c r IH]; [done |]. cbn [urlencode].
  by rewrite chars_in_append, urlencode_byte_chars, IH.
Qed.

Lemma count_char_absent (P : ascii -> bool) c s :
  P c = false -> chars_in P s = true -> count_char c s = O.
Proof.
  intros Hc. induction s as [| c' r IH]; cbn [chars_in count_char]; [done |].
  intros H. apply andb_prop in H as [Hc' Hr]. rewrite (IH Hr).
  destruct (Ascii.eqb_spec c c') as [-> |]; [congruence | done].
Qed.

Lemma count_char_urlencode c s :
  JsString.has_char c "?=&#" = true -> count_char c (urlencode s) = O.
Proof.
  intros Hc. apply (count_char_absent (fun x => negb (JsString.has_char x "?=&#"))).
  - by rewrite Hc.
  - apply urlencode_chars.
Qed.

Lemma delimiter_cases c :
  JsString.has_char c "?=&#" = true -> c = "?"%char \/ c = "="%char \/ c = "&"%char \/ c = "#"%char.
Proof.
  cbn [JsString.has_char]. intros H.
  destruct (Ascii.eqb_spec c "?"); [auto |].
  destruct (Ascii.eqb_spec c "="); [auto |].
  destruct (Ascii.eqb_spec c "&"); [auto |].
  destruct (Ascii.eqb_spec c "#"); [auto |].
  revert H. rewrite ?(Ascii.eqb_sym _ c).
  repeat match goal with
  | Hn : c <> ?d |- _ => apply Ascii.eqb_neq in Hn; rewrite Hn; clear Hn
  end.
  done.
Qed.

Lemma count_char_toString c p :
  JsString.has_char c "?=&#" = true ->
  count_char c (URLSearchParams_toString p)
  = ((if Ascii.eqb c "=" then length p else 0)
     + (if Ascii.eqb c "&" then length p - 1 else 0))%nat.
Proof.
  intros Hc. induction p as [| [name value] r IH]; [by repeat case_match |].
  destruct r as [| q r].
  - cbn [URLSearchParams_toString]. rewrite !count_char_append, !count_char_urlencode by done.
    destruct (delimiter_cases c Hc) as [-> | [-> | [-> | ->]]]; by vm_compute.
  - change (URLSearchParams_toString ((name, value) :: q :: r))
      with (urlencode name ++ "=" ++ urlencode value ++ "&" ++ URLSearchParams_toString (q :: r)).
    rewrite !count_char_append, !count_char_urlencode, IH by done.
    destruct (delimiter_cases c Hc) as [-> | [-> | [-> | ->]]];
      cbn [count_char length Ascii.eqb Bool.eqb]; lia.
Qed.

Lemma if_set_length {A : Type} (t : A -> bool) (v : option A) name (f : A -> string) p :
  (length p <= length (if_set t v (fun a => append name (f a)) p) <= S (length p))%nat.
Proof.
  unfold if_set, append. destruct v as [a |]; [destruct (t a) |];
    rewrite ?length_app; simpl; lia.
Qed.

Lemma names_step {A : Type} (t : A -> bool) (v : option A) n (f : A -> string) p k rd :
  (exists rest, p.*1 = k :: rest /\ rest `sublist_of` rev rd) ->
  exists rest, (if_set t v (fun a => append n (f a)) p).*1 = k :: rest
               /\ rest `sublist_of` rev (n :: rd).
Proof.
  intros (rest & E & Hsub). cbn [rev].
  unfold if_set, append. destruct v as [a |]; [destruct (t a) |].
  - exists (rest ++ [n])%list. rewrite fmap_app, E. split; [done |].
    by apply sublist_app.
  - exists rest. split; [done |]. by apply sublist_inserts_r.
  - exists rest. split; [done |]. by apply sublist_inserts_r.
Qed.

Lemma names_step_id (v : option string) n p k rd :
  (exists rest, p.*1 = k :: rest /\ rest `sublist_of` rev rd) ->
  exists rest, (if_set JsString.truthy v (append n) p).*1 = k :: rest
               /\ rest `sublist_of` rev (n :: rd).
Proof. exact (names_step JsString.truthy v n (fun a => a) p k rd). Qed.

(** X19: whatever the options hold, the widget address is the base
    address, one question mark, and between one and ten parameters of
    which the key is always the first, named in the order of the code's
    statements; the text has as many equals signs as parameters, one
    ampersand between two parameters, and no fragment sign: nothing in an
    option's value can add, end or replace a parameter. *)
Theorem widget_url_parameters_cannot_be_injected Number_toString options :
  let url := createMoonPayWidgetURL Number_toString options in
  let names := (urlParams Number_toString options).*1 in
  (exists rest, names = "apiKey" :: rest /\ names `sublist_of` widget_parameter_names)
  /\ (exists query, url = "https://buy.moonpay.com?apiKey=" ++ query)
  /\ count_char "?" url = 1%nat
  /\ count_char "=" url = length names
  /\ count_char "&" url = (length names - 1)%nat
  /\ count_char "#" url = 0%nat.
Proof.
  intros url names.
  assert (Hnames : exists rest, names = "apiKey" :: rest
                                /\ names `sublist_of` widget_parameter_names).
  { assert (H : exists rest, names = "apiKey" :: rest
                  /\ rest `sublist_of` rev (rev (tail widget_parameter_names))).
    { subst names. unfold urlParams. cbv zeta.
      set (rd := rev (tail widget_parameter_names)). vm_compute in rd. subst rd.
      repeat first [apply names_step_id | apply names_step].
      exists []. by split. }
    destruct H as (rest & E & Hsub). exists rest. split; [done |].
    rewrite E. rewrite rev_involutive in Hsub. by apply sublist_skip. }
  split; [exact Hnames |].
  destruct Hnames as (rest & Hrest & _).
  assert (Hlen : length (urlParams Number_toString options) = length names)
    by (subst names; by rewrite length_fmap).
  subst url. unfold createMoonPayWidgetURL.
  split.
  { destruct (urlParams Number_toString options) as [| [n v] r] eqn:E; [done |].
    subst names. cbn [fmap list_fmap fst] in Hrest. injection Hrest as -> _.
    destruct r as [| q r]; eexists; cbn [URLSearchParams_toString];
      change (urlencode "apiKey") with "apiKey"; cbn [String.append]; reflexivity. }
  rewrite !count_char_append, !count_char_toString, Hlen by done.
  cbn. repeat split; lia.
Qed.

(** X20: the on-ramp service's image of a currency code is the same for
    two codes with the same lower-case form, so it does not depend on the
    case of the letters; and, for a code whose lower-case form is not the
    name of a member every object inherits, it is one of the site's own
    paths: the picture of the table, the site's own picture for its coin,
    or the placeholder; never an address on another host. *)
Theorem moonpay_image_is_a_site_path code code' :
  (JsString.toLowerCase code' = JsString.toLowerCase code ->
   MoonpayService.getCryptoImageUrl code' = MoonpayService.getCryptoImageUrl code)
  /\ (JsString.toLowerCase code ∉ object_prototype_keys ->
      exists path,
        MoonpayService.getCryptoImageUrl code = VStr (String "/" path)
        /\ (JsString.toLowerCase code = "godd" /\ path = "src/images/main.png"
            \/ (JsString.toLowerCase code, String "/" path) ∈ MoonpayService.localImageMap
            \/ path = "public/placeholder.svg")).
Proof.
  split.
  - intros E. unfold MoonpayService.getCryptoImageUrl. by rewrite E.
  - intros Hk. unfold MoonpayService.getCryptoImageUrl, table_get, object_get.
    destruct (String.eqb_spec (JsString.toLowerCase code) "godd") as [E | _].
    { eexists. split; [reflexivity |]. by left. }
    destruct (own_property _ _) as [u |] eqn:E.
    + pose proof (own_property_elem _ _ _ E) as Hin.
      assert (Hu : exists path, u = String "/" path).
      { clear -Hin. unfold MoonpayService.localImageMap in Hin.
        repeat (apply elem_of_cons in Hin as [[= _ ->] | Hin]; [by eexists |]).
        by apply elem_of_nil in Hin. }
      destruct Hu as [path ->]. exists path. cbn. split; [done |]. by right; left.
    + rewrite bool_decide_eq_false_2 by done. cbn. eexists. split; [reflexivity |].
      by right; right.
Qed.

Lemma moonpay_image_is_a_site_path_witness :
  MoonpayService.getCryptoImageUrl "USDC" = MoonpayService.getCryptoImageUrl "Usdc"
  /\ exists path,
       MoonpayService.getCryptoImageUrl "Usdc" = VStr (String "/" path)
       /\ (JsString.toLowerCase "Usdc" = "godd" /\ path = "src/images/main.png"
           \/ (JsString.toLowerCase "Usdc", String "/" path) ∈ MoonpayService.localImageMap
           \/ path = "public/placeholder.svg").
Proof.
  destruct (moonpay_image_is_a_site_path "Usdc" "USDC") as [Hcase Hpath].
  split; [apply Hcase; reflexivity |]. apply Hpath.
  apply (bool_decide_unpack _). vm_compute. exact I.
Defined.

(** ** The widget's favourites and recent transactions *)

Lemma indexOf_None l x : indexOf l x = None <-> x ∉ l.
Proof.
  induction l as [| y r IH]; cbn [indexOf]; [split; [intros _; apply not_elem_of_nil | done] |].
  destruct (String.eqb_spec y x) as [-> | Hne].
  - split; [done |]. intros H. exfalso. apply H. by left.
  - rewrite fmap_None, IH, not_elem_of_cons. split; [by split | by intros [_ H]].
Qed.

Lemma indexOf_Some l x i :
  indexOf l x = Some i ->
  exists l1 l2, l = (l1 ++ x :: l2)%list /\ (x ∉ l1) /\ delete i l = (l1 ++ l2)%list.
Proof.
  revert i. induction l as [| y r IH]; intros i; cbn [indexOf]; [done |].
  destruct (String.eqb_spec y x) as [-> | Hne].
  - intros [= <-]. exists [], r. split; [done |]. split; [apply not_elem_of_nil | done].
  - intros H. apply fmap_Some in H as (j & Hj & ->).
    destruct (IH j Hj) as (l1 & l2 & -> & Hl1 & Hdel).
    exists (y :: l1), l2. split; [done |]. split.
    + apply not_elem_of_cons. by split.
    + change (y :: delete j (l1 ++ x :: l2) = y :: (l1 ++ l2))%list. by rewrite Hdel.
Qed.

(** X21: on a list of favourites without repetition, toggling an
    identifier makes it a favourite when it was none and removes it when
    it was one, leaves every other identifier as it was, keeps the list
    free of repetition, and stores the new list without touching the
    stored transactions. *)
Theorem toggleFavorite_flips_membership coinId w :
  NoDup (favorites w) ->
  let w' := toggleFavorite coinId w in
  NoDup (favorites w')
  /\ (coinId ∈ favorites w' <-> coinId ∉ favorites w)
  /\ (forall other, other <> coinId -> other ∈ favorites w' <-> other ∈ favorites w)
  /\ compactCryptoFavorites (localStorage w') = Some (favorites w')
  /\ compactCryptoTransactions (localStorage w')
     = compactCryptoTransactions (localStorage w).
Proof.
  intros Hnd w'. subst w'. unfold toggleFavorite, saveFavoritesToStorage. cbn.
  destruct (indexOf (favorites w) coinId) as [i |] eqn:E.
  - destruct (indexOf_Some _ _ _ E) as (l1 & l2 & Hl & Hl1 & ->).
    rewrite Hl in Hnd |- *. apply NoDup_app in Hnd as (Hn1 & Hmid & Hn2).
    apply NoDup_cons in Hn2 as [Hl2 Hn2].
    split; [| split; [| split; [| done]]].
    + apply NoDup_app. split; [done |]. split; [| done].
      intros y Hy Hy'. apply (Hmid y Hy). by right.
    + rewrite !elem_of_app, elem_of_cons. split.
      * intros [H | H]; contradiction.
      * intros H. exfalso. apply H. right. by left.
    + intros other Hne. rewrite !elem_of_app, elem_of_cons. tauto.
  - apply indexOf_None in E.
    split; [| split; [| split; [| done]]].
    + apply NoDup_app. split; [done |]. split; [| apply NoDup_singleton].
      intros y Hy ->%list_elem_of_singleton. done.
    + rewrite elem_of_app, list_elem_of_singleton. split; [done | by right].
    + intros other Hne. rewrite elem_of_app, list_elem_of_singleton. tauto.
Qed.

Lemma toggleFavorite_flips_membership_witness :
  let w := construct {| compactCryptoFavorites := Some ["bitcoin"; "solana"];
                        compactCryptoTransactions := None |} in
  let w' := toggleFavorite "bitcoin" w in
  NoDup (favorites w')
  /\ ("bitcoin" ∈ favorites w' <-> "bitcoin" ∉ favorites w)
  /\ (forall other, other <> "bitcoin" -> other ∈ favorites w' <-> other ∈ favorites w)
  /\ compactCryptoFavorites (localStorage w') = Some (favorites w')
  /\ compactCryptoTransactions (localStorage w')
     = compactCryptoTransactions (localStorage w).
Proof.
  apply (toggleFavorite_flips_membership "bitcoin").
  apply (bool_decide_unpack _). vm_compute. exact I.
Defined.

Lemma created_length date t s :
  (length (getTransactionsFromStorage (handleTransactionCreated date t s)) <= 10)%nat.
Proof.
  unfold handleTransactionCreated, saveTransactionsToStorage, getTransactionsFromStorage.
  cbn [compactCryptoTransactions default from_option id]. set (l := _ :: _).
  destruct (10 <? length l)%nat eqn:E.
  - rewrite length_take. lia.
  - apply Nat.ltb_ge in E. lia.
Qed.

Lemma findIndex_None {A : Type} (p : A -> bool) l :
  findIndex p l = None <-> forall a, a ∈ l -> p a = false.
Proof.
  induction l as [| y r IH]; cbn [findIndex].
  - split; [intros _ a Ha; by apply elem_of_nil in Ha | done].
  - destruct (p y) eqn:E.
    + split; [done |]. intros H. rewrite (H y) in E by left. done.
    + rewrite fmap_None, IH. split.
      * intros H a [-> | Ha]%elem_of_cons; auto.
      * intros H a Ha. apply H. by right.
Qed.

Lemma findIndex_Some {A : Type} (p : A -> bool) l i :
  findIndex p l = Some i ->
  exists l1 a l2, l = (l1 ++ a :: l2)%list /\ length l1 = i /\ p a = true
                  /\ forall b, b ∈ l1 -> p b = false.
Proof.
  revert i. induction l as [| y r IH]; intros i; cbn [findIndex]; [done |].
  destruct (p y) eqn:E.
  - intros [= <-]. exists [], y, r. repeat split; [done |].
    intros b Hb. by apply elem_of_nil in Hb.
  - intros H. apply fmap_Some in H as (j & Hj & ->).
    destruct (IH j Hj) as (l1 & a & l2 & -> & <- & Ha & Hl1).
    exists (y :: l1), a, l2. repeat split; [done |].
    intros b [-> | Hb]%elem_of_cons; auto.
Qed.

Lemma updated_transactions t s :
  let l := getTransactionsFromStorage s in
  let l' := getTransactionsFromStorage (handleTransactionUpdated t s) in
  (forall a, a ∈ l -> tx_id a <> mt_id t) /\ handleTransactionUpdated t s = s
  \/ exists l1 a l2,
       l = (l1 ++ a :: l2)%list
       /\ l' = (l1 ++ with_status (mt_status t) a :: l2)%list
       /\ tx_id a = mt_id t
       /\ forall b, b ∈ l1 -> tx_id b <> mt_id t.
Proof.
  intros l l'. subst l l'. unfold handleTransactionUpdated.
  destruct (findIndex _ _) as [i |] eqn:E.
  - right. destruct (findIndex_Some _ _ _ E) as (l1 & a & l2 & Hl & Hi & Ha & Hl1).
    exists l1, a, l2. split; [done |]. split; [| split].
    + unfold saveTransactionsToStorage, getTransactionsFromStorage at 1.
      cbn [compactCryptoTransactions default]. rewrite Hl, <- Hi.
      rewrite <- (Nat.add_0_r (length l1)). by rewrite alter_app_r.
    + by apply String.eqb_eq in Ha.
    + intros b Hb. by apply String.eqb_neq, Hl1.
  - left. split; [| done]. intros a Ha.
    by apply String.eqb_neq, (proj1 (findIndex_None _ _) E).
Qed.

Lemma updated_length t s :
  length (getTransactionsFromStorage (handleTransactionUpdated t s))
  = length (getTransactionsFromStorage s).
Proof.
  destruct (updated_transactions t s) as [[_ ->] | (l1 & a & l2 & -> & -> & _)]; [done |].
  by rewrite !length_app.
Qed.

Lemma message_keeps_favorites date event s :
  compactCryptoFavorites (handleMoonPayMessage date event s) = compactCryptoFavorites s.
Proof.
  unfold handleMoonPayMessage. destruct (includes _ _); [| done].
  destruct (data event) as [t | t | | |]; try done.
  unfold handleTransactionUpdated. by destruct (findIndex _ _).
Qed.

Lemma message_keeps_cap date event s :
  (length (getTransactionsFromStorage s) <= 10)%nat ->
  (length (getTransactionsFromStorage (handleMoonPayMessage date event s)) <= 10)%nat.
Proof.
  intros H. unfold handleMoonPayMessage. destruct (includes _ _); [| done].
  destruct (data event) as [t | t | | |]; try done.
  - apply created_length.
  - by rewrite updated_length.
Qed.

Lemma recent_cap_helper events s :
  (length (getTransactionsFromStorage s) <= 10)%nat ->
  (length (getTransactionsFromStorage (handleMessages events s)) <= 10)%nat.
Proof.
  revert s. induction events as [| [date event] r IH]; intros s H; [done |].
  cbn [handleMessages]. by apply IH, message_keeps_cap.
Qed.

(** X22: a stored list of at most ten transactions, the empty store
    included, still has at most ten after any sequence of messages,
    whatever their origin, type and content; and no message touches the
    stored favourites. *)
Theorem recent_transactions_stay_capped events s :
  (length (getTransactionsFromStorage s) <= 10)%nat ->
  (length (getTransactionsFromStorage (handleMessages events s)) <= 10)%nat
  /\ compactCryptoFavorites (handleMessages events s) = compactCryptoFavorites s.
Proof.
  revert s. induction events as [| [date event] r IH]; intros s H; [done |].
  cbn [handleMessages].
  destruct (IH _ (message_keeps_cap date event s H)) as [Hlen Hfav].
  split; [exact Hlen |]. by rewrite Hfav, message_keeps_favorites.
Qed.

Lemma recent_transactions_stay_capped_witness :
  let s := {| compactCryptoFavorites := Some ["bitcoin"]; compactCryptoTransactions := None |} in
  let events :=
    [ (1700000000000,
       {| origin := "https://buy.moonpay.com";
          data := moonpay_transaction_created
                    {| mt_id := "t1"; mt_baseCurrencyCode := "btc";
                       mt_baseCurrencyAmount := 0.5; mt_status := "pending" |} |}) ] in
  (length (getTransactionsFromStorage (handleMessages events s)) <= 10)%nat
  /\ compactCryptoFavorites (handleMessages events s) = compactCryptoFavorites s.
Proof.
  apply recent_transactions_stay_capped. simpl. lia.
Defined.

(** X23: an update message changes the stored list in one place at most:
    the first entry with the transaction's identifier gets the new status
    and keeps its identifier, type, currency, amount and date, and every
    other entry, a later one with the same identifier included, stays as
    it is, in the same order; when no entry has the identifier the store
    is not written at all. *)
Theorem update_sets_the_status_of_the_first_match t s :
  let l := getTransactionsFromStorage s in
  let l' := getTransactionsFromStorage (handleTransactionUpdated t s) in
  (forall a, a ∈ l -> tx_id a <> mt_id t) /\ handleTransactionUpdated t s = s
  \/ exists l1 a b l2,
       l = (l1 ++ a :: l2)%list /\ l' = (l1 ++ b :: l2)%list
       /\ (forall c, c ∈ l1 -> tx_id c <> mt_id t)
       /\ tx_id a = mt_id t /\ tx_status b = mt_status t
       /\ tx_id b = tx_id a /\ tx_type b = tx_type a /\ tx_crypto b = tx_crypto a
       /\ tx_amount b = tx_amount a /\ tx_date b = tx_date a.
Proof.
  intros l l'.
  destruct (updated_transactions t s) as [H | (l1 & a & l2 & Hl & Hl' & Ha & Hl1)]; [by left |].
  right. exists l1, a, (with_status (mt_status t) a), l2.
  repeat split; done.
Qed.

Lemma created_shape date t s x k :
  mt_id t <> x ->
  (exists l1 l2, getTransactionsFromStorage s = (l1 ++ l2)%list
     /\ (forall a, a ∈ l1 -> tx_id a <> x)
     /\ (k <= length l1 \/ l2 = [])%nat) ->
  exists l1 l2, getTransactionsFromStorage (handleTransactionCreated date t s) = (l1 ++ l2)%list
     /\ (forall a, a ∈ l1 -> tx_id a <> x)
     /\ (S k <= length l1 \/ l2 = [])%nat.
Proof.
  intros Hne (l1 & l2 & Hl & Hids & Hk).
  unfold handleTransactionCreated, saveTransactionsToStorage, getTransactionsFromStorage at 1.
  cbn [compactCryptoTransactions default from_option id]. rewrite Hl.
  set (e := Build_Transaction _ _ _ _ _ _).
  assert (He : forall a, a ∈ e :: l1 -> tx_id a <> x).
  { intros a [-> | Ha]%elem_of_cons; [done | by apply Hids]. }
  destruct (10 <? length (e :: l1 ++ l2))%nat eqn:E.
  - change (e :: l1 ++ l2)%list with ((e :: l1) ++ l2)%list. rewrite take_app.
    exists (take 10 (e :: l1)), (take (10 - length (e :: l1)) l2).
    split; [done |]. split.
    + intros a Ha. apply He. rewrite <- (take_drop 10 (e :: l1)).
      apply elem_of_app. by left.
    + destruct (decide (10 <= length (e :: l1))%nat) as [Hge | Hlt].
      * right. replace (10 - length (e :: l1))%nat with 0%nat by lia. apply take_0.
      * destruct Hk as [Hk | ->]; [| right; apply take_nil].
        left. rewrite length_take. cbn [length] in *. lia.
  - exists (e :: l1), l2. split; [done |]. split; [done |].
    destruct Hk as [Hk | ->]; [left; cbn [length]; lia | by right].
Qed.

Lemma created_messages_shape o newer x :
  includes o "moonpay.com" = true ->
  (forall d n, (d, n) ∈ newer -> mt_id n <> x) ->
  forall s k,
  (exists l1 l2, getTransactionsFromStorage s = (l1 ++ l2)%list
     /\ (forall a, a ∈ l1 -> tx_id a <> x)
     /\ (k <= length l1 \/ l2 = [])%nat) ->
  exists l1 l2,
    getTransactionsFromStorage
      (handleMessages
         (map (fun e => (e.1, {| origin := o; data := moonpay_transaction_created e.2 |}))
              newer) s)
    = (l1 ++ l2)%list
    /\ (forall a, a ∈ l1 -> tx_id a <> x)
    /\ (k + length newer <= length l1 \/ l2 = [])%nat.
Proof.
  intros Ho. induction newer as [| [d n] r IH]; intros Hids s k H.
  - cbn [map handleMessages length]. by rewrite Nat.add_0_r.
  - cbn [map handleMessages length fst snd].
    unfold handleMoonPayMessage at 1. cbn [origin data]. rewrite Ho.
    replace (k + S (length r))%nat with (S k + length r)%nat by lia.
    apply IH.
    + intros d' n' Hin. apply (Hids d' n'). by right.
    + apply created_shape; [| done]. apply (Hids d n). by left.
Qed.

(** X24: the stored list holds the ten most recent creations only: once
    ten or more transactions have been created after it, an update for an
    older transaction finds no entry and leaves the store as it is. *)
Theorem update_of_a_dropped_transaction_is_ignored o newer t date s :
  includes o "moonpay.com" = true ->
  (10 <= length newer)%nat ->
  (forall d n, (d, n) ∈ newer -> mt_id n <> mt_id t) ->
  let s' :=
    handleMessages
      (map (fun e => (e.1, {| origin := o; data := moonpay_transaction_created e.2 |}))
           newer) s in
  handleMoonPayMessage date {| origin := o; data := moonpay_transaction_updated t |} s' = s'.
Proof.
  intros Ho Hlen Hids s'.
  destruct newer as [| [d n] r]; [cbn in Hlen; lia |].
  assert (Hcap : (length (getTransactionsFromStorage s') <= 10)%nat).
  { subst s'. cbn [map handleMessages fst snd].
    unfold handleMoonPayMessage at 1. cbn [origin data]. rewrite Ho.
    apply recent_cap_helper, created_length. }
  destruct (created_messages_shape o _ (mt_id t) Ho Hids s 0%nat) as (l1 & l2 & Hl & Hl1 & Hk).
  { exists [], (getTransactionsFromStorage s). split; [done |]. split; [| left; cbn; lia].
    intros a Ha. by apply elem_of_nil in Ha. }
  fold s' in Hl.
  assert (Hall : forall a, a ∈ getTransactionsFromStorage s' -> tx_id a <> mt_id t).
  { rewrite Hl. intros a [Ha | Ha]%elem_of_app; [by apply Hl1 |].
    destruct Hk as [Hk | ->]; [| by apply elem_of_nil in Ha].
    rewrite Hl, length_app in Hcap. cbn [Nat.add] in Hk.
    assert (l2 = []) as -> by (apply length_zero_iff_nil; lia).
    by apply elem_of_nil in Ha. }
  unfold handleMoonPayMessage. cbn [origin data]. rewrite Ho.
  destruct (updated_transactions t s') as [[_ E] | (k1 & a & k2 & Hk1 & _ & Ha & _)]; [done |].
  exfalso. apply (Hall a); [| done]. rewrite Hk1. apply elem_of_app. right. by left.
Qed.

Lemma update_of_a_dropped_transaction_is_ignored_witness :
  let o := "https://buy.moonpay.com" in
  let n := {| mt_id := "t2"; mt_baseCurrencyCode := "eth";
              mt_baseCurrencyAmount := 1; mt_status := "pending" |} in
  let t := {| mt_id := "t1"; mt_baseCurrencyCode := "btc";
              mt_baseCurrencyAmount := 0.5; mt_status := "completed" |} in
  let s := {| compactCryptoFavorites := None;
              compactCryptoTransactions :=
                Some [ {| tx_id := "t1"; tx_type := "buy"; tx_crypto := "btc";
                          tx_amount := 0.5; tx_status := "pending";
                          tx_date := 1700000000000 |} ] |} in
  let s' :=
    handleMessages
      (map (fun e => (e.1, {| origin := o; data := moonpay_transaction_created e.2 |}))
           (replicate 10 (1700000060000, n))) s in
  handleMoonPayMessage 1700000120000
    {| origin := o; data := moonpay_transaction_updated t |} s' = s'.
Proof.
  intros o n t s.
  apply (update_of_a_dropped_transaction_is_ignored o (replicate 10 (1700000060000, n)) t
           1700000120000 s).
  - vm_compute. reflexivity.
  - simpl. lia.
  - intros d' n' Hin.
    assert (HF : Forall (fun e : Z * MoonPayTransaction => mt_id e.2 <> mt_id t)
                   (replicate 10 (1700000060000, n))).
    { apply (bool_decide_unpack _). vm_compute. exact I. }
    exact (proj1 (Forall_forall _ _) HF (d', n') Hin).
Defined.

Lemma prefix_append sub q : String.prefix sub (sub ++ q) = true.
Proof.
  induction sub as [| c r IH]; [by destruct q |].
  simpl. destruct (ascii_dec c c) as [_ | Hne]; [exact IH |].
  by destruct Hne.
Qed.

Lemma includes_unfold s sub :
  includes s sub
  = String.prefix sub s
    || match s with EmptyString => false | String _ r => includes r sub end.
Proof. by destruct s. Qed.

Lemma includes_append p sub q : includes (p ++ sub ++ q) sub = true.
Proof.
  induction p as [| c r IH].
  - change (EmptyString ++ sub ++ q) with (sub ++ q).
    by rewrite includes_unfold, prefix_append.
  - change (String c r ++ sub ++ q) with (String c (r ++ sub ++ q)).
    rewrite includes_unfold, IH. apply orb_true_r.
Qed.

(** X25: the origin of a message is tested for containing the text
    moonpay.com, nothing more: a message whose origin has that text
    anywhere, whatever comes before and after it, is handled exactly as
    one from the on-ramp's own address, and a message whose origin does
    not contain it changes nothing. *)
Theorem any_origin_naming_the_on_ramp_is_accepted date before after o d s :
  handleMoonPayMessage date {| origin := before ++ "moonpay.com" ++ after; data := d |} s
  = handleMoonPayMessage date {| origin := "https://buy.moonpay.com"; data := d |} s
  /\ (includes o "moonpay.com" = false ->
      handleMoonPayMessage date {| origin := o; data := d |} s = s).
Proof.
  split.
  - unfold handleMoonPayMessage. cbn [origin data].
    rewrite includes_append.
    change "https://buy.moonpay.com" with ("https://buy." ++ "moonpay.com" ++ EmptyString).
    by rewrite includes_append.
  - intros Ho. unfold handleMoonPayMessage. cbn [origin]. by rewrite Ho.
Qed.

Lemma any_origin_naming_the_on_ramp_is_accepted_witness :
  let t := {| mt_id := "t1"; mt_baseCurrencyCode := "btc";
              mt_baseCurrencyAmount := 0.5; mt_status := "completed" |} in
  let s := {| compactCryptoFavorites := None; compactCryptoTransactions := None |} in
  handleMoonPayMessage 1700000000000
    {| origin := "https://" ++ "moonpay.com" ++ ".example.org";
       data := moonpay_transaction_created t |} s
  = handleMoonPayMessage 1700000000000
      {| origin := "https://buy.moonpay.com"; data := moonpay_transaction_created t |} s
  /\ handleMoonPayMessage 1700000000000
       {| origin := "https://example.org"; data := moonpay_transaction_created t |} s = s.
Proof.
  intros t s.
  destruct (any_origin_naming_the_on_ramp_is_accepted 1700000000000 "https://" ".example.org"
              "https://example.org" (moonpay_transaction_created t) s) as [Hany Hnone].
  split; [exact Hany |]. apply Hnone. vm_compute. reflexivity.
Defined.
